(** * FCS analyzer: a shallow embedding of [fcs-backend/fcs_analyzer.py]

    The analyzer reads a text report, extracts facts with regular
    expressions, and derives a withholding figure, a list of reconstructed
    funding scenarios and an affordability projection.

    Conventions of the embedding.
    - A Python [float] is a primitive binary64 [float]; [+], [-], [*] are the
      IEEE operations, [/] and [//] raise [ZeroDivisionError] on a zero
      divisor, [round] and string formatting round the exact binary value
      half-to-even.
    - A Python [str] is a [string] read as a sequence of code points below
      256; case folding, [strip], [float] and the regular-expression classes
      are the ones Python applies to those code points.  Texts with other
      characters are outside the embedding, and the code treats some of them
      differently: under [re.IGNORECASE] the letters i, s and k of a pattern
      also match U+0130, U+0131, U+017F and U+212A, so a report may spell
      the frequency with U+0131; the word is then stored as written, it is
      no key of a lender profile, and the scoring raises [KeyError].
    - A payment frequency is one of the two keywords, and a lender profile
      is a record with every key that the code reads: no [KeyError] arises
      within the embedding.
    - Exceptions are explicit: a computation that may raise returns [exc A].
    - A dictionary built by the code with a fixed set of keys is a record; a
      key that may be missing is an [option] field.
    - [int] is [Z]; [int(str)] applies the interpreter's default limit of
      4300 digits. *)

From Stdlib Require Import ZArith List String Ascii Bool Lia.
From Stdlib Require Import Floats Sorting.Permutation Sorting.Sorted.
Import ListNotations.

Set Warnings "-inexact-float".
Local Open Scope Z_scope.

(** ** Exceptions *)

Inductive pyerr : Type :=
| ValueError
| OverflowError
| ZeroDivisionError.

Inductive exc (A : Type) : Type :=
| Ok (a : A)
| Raise (e : pyerr).
Arguments Ok {A} a.
Arguments Raise {A} e.

Definition bind {A B : Type} (m : exc A) (f : A -> exc B) : exc B :=
  match m with
  | Ok a => f a
  | Raise e => Raise e
  end.

Notation "x <- m ;; k" := (bind m (fun x => k))
  (at level 61, m at next level, right associativity).

Fixpoint mapM {A B : Type} (f : A -> exc B) (l : list A) : exc (list B) :=
  match l with
  | [] => Ok []
  | a :: l' => b <- f a ;; bs <- mapM f l' ;; Ok (b :: bs)
  end.

(** ** Python floats *)

Module PyFloat.

Definition SF64round (s : bool) (n d : positive) : spec_float :=
  let '(mz, ez, lz) := SFdiv_core_binary prec emax (Zpos n) 0 (Zpos d) 0 in
  binary_round_aux prec emax s mz ez lz.

(** The binary64 value nearest to [n / d] (ties to even), [d > 0]. *)
Definition of_ratio (n : Z) (d : positive) : float :=
  match n with
  | Z0 => zero
  | Zpos p => SF2Prim (SF64round false p d)
  | Zneg p => SF2Prim (SF64round true p d)
  end.

Definition of_Z (n : Z) : float := of_ratio n 1.

(** Truth value of a float: [not x] holds for both zeros only. *)
Definition truthy (x : float) : bool := negb (PrimFloat.eqb x zero).

(** [x / y] *)
Definition div (x y : float) : exc float :=
  if PrimFloat.eqb y zero then Raise ZeroDivisionError
  else Ok (PrimFloat.div x y).

(** Integer nearest to [n / d], ties to even; [d > 0]. *)
Definition rne_div (n d : Z) : Z :=
  let q := n / d in
  let r := n mod d in
  match 2 * r ?= d with
  | Lt => q
  | Gt => q + 1
  | Eq => if Z.even q then q else q + 1
  end.

(** Integer nearest to [m * 2^e * 10^k], ties to even; [k >= 0]. *)
Definition rne_scaled (m e : Z) (k : nat) : Z :=
  let n := m * 10 ^ Z.of_nat k in
  if 0 <=? e then n * 2 ^ e else rne_div n (2 ^ (- e)).

(** [round(x)]: the nearest integer, ties to even. *)
Definition round (x : float) : exc Z :=
  match Prim2SF x with
  | S754_nan => Raise ValueError
  | S754_infinity _ => Raise OverflowError
  | S754_zero _ => Ok 0
  | S754_finite s m e =>
      Ok (rne_scaled (if s then Zneg m else Zpos m) e 0)
  end.

(** [round(x, k)] for [k >= 0]: the float nearest to the decimal with [k]
    fractional digits nearest to [x]. *)
Definition round_nd (x : float) (k : nat) : float :=
  match Prim2SF x with
  | S754_finite s m e =>
      let n := rne_scaled (Zpos m) e k in
      match n with
      | Z0 => if s then neg_zero else zero
      | _ => of_ratio (if s then - n else n) (Z.to_pos (10 ^ Z.of_nat k))
      end
  | _ => x
  end.

(** [math.fmod], from which CPython computes [x // y]. *)
Definition fmod_finite (sx : bool) (mx : positive) (ex : Z)
                       (my : positive) (ey : Z) : float :=
  let e := Z.min ex ey in
  let X := Zpos mx * 2 ^ (ex - e) in
  let Y := Zpos my * 2 ^ (ey - e) in
  let R := X mod Y in
  match R with
  | Z0 => if sx then neg_zero else zero
  | _ => SF2Prim (binary_normalize prec emax (if sx then - R else R) e false)
  end.

Definition fmod (x y : float) : float :=
  match Prim2SF x, Prim2SF y with
  | S754_nan, _ | _, S754_nan => nan
  | S754_infinity _, _ => nan
  | _, S754_zero _ => nan
  | _, S754_infinity _ => x
  | S754_zero _, _ => x
  | S754_finite sx mx ex, S754_finite _ my ey => fmod_finite sx mx ex my ey
  end.

Definition floor (x : float) : float :=
  match Prim2SF x with
  | S754_finite s m e =>
      if 0 <=? e then x
      else
        let n := (if s then Zneg m else Zpos m) / 2 ^ (- e) in
        match n with
        | Z0 => if s then neg_zero else zero
        | _ => of_Z n
        end
  | _ => x
  end.

Definition copysign (x y : float) : float :=
  if Bool.eqb (get_sign x) (get_sign y) then x else PrimFloat.opp x.

(** [vx // wx] for a divisor that is not zero. *)
Definition floordiv_nz (vx wx : float) : float :=
  let mod0 := fmod vx wx in
  let div0 := PrimFloat.div (PrimFloat.sub vx mod0) wx in
  let div1 :=
    if truthy mod0
    then if Bool.eqb (PrimFloat.ltb wx zero) (PrimFloat.ltb mod0 zero)
         then div0 else PrimFloat.sub div0 one
    else div0 in
  if truthy div1
  then
    let fl := floor div1 in
    if PrimFloat.ltb 0.5%float (PrimFloat.sub div1 fl)
    then PrimFloat.add fl one else fl
  else copysign zero (PrimFloat.div vx wx).

Definition floordiv (vx wx : float) : exc float :=
  if PrimFloat.eqb wx zero then Raise ZeroDivisionError
  else Ok (floordiv_nz vx wx).

End PyFloat.

(** ** Python strings *)

Module PyStr.
Local Open Scope string_scope.

Definition code (a : ascii) : N := N_of_ascii a.

Definition in_range (lo hi : N) (a : ascii) : bool :=
  ((lo <=? code a) && (code a <=? hi))%N.

Definition is_digit (a : ascii) : bool := in_range 48 57 a.

(** [str.isspace] and the class [\s] on code points below 256. *)
Definition is_space (a : ascii) : bool :=
  in_range 9 13 a || in_range 28 32 a
  || (code a =? 133)%N || (code a =? 160)%N.

(** [str.lower], which maps the code points below 256 one by one. *)
Definition lower_char (a : ascii) : ascii :=
  if in_range 65 90 a
     || (in_range 192 222 a && negb (code a =? 215)%N)
  then ascii_of_N (code a + 32) else a.

Definition upper_ascii (a : ascii) : ascii :=
  if in_range 97 122 a then ascii_of_N (code a - 32) else a.

Fixpoint map_chars (f : ascii -> ascii) (s : string) : string :=
  match s with
  | EmptyString => EmptyString
  | String a s' => String (f a) (map_chars f s')
  end.

Definition lower (s : string) : string := map_chars lower_char s.
Definition upper (s : string) : string := map_chars upper_ascii s.

Fixpoint lstrip (s : string) : string :=
  match s with
  | String a s' => if is_space a then lstrip s' else s
  | EmptyString => EmptyString
  end.

Fixpoint rstrip (s : string) : string :=
  match s with
  | EmptyString => EmptyString
  | String a s' =>
      match rstrip s' with
      | EmptyString => if is_space a then EmptyString else String a EmptyString
      | r => String a r
      end
  end.

Definition strip (s : string) : string := rstrip (lstrip s).

(** [s.replace(c, '')] for a one-character [c]. *)
Fixpoint remove_char (c : ascii) (s : string) : string :=
  match s with
  | EmptyString => EmptyString
  | String a s' =>
      if Ascii.eqb a c then remove_char c s' else String a (remove_char c s')
  end.

(** [s[:n]] *)
Fixpoint take (n : nat) (s : string) : string :=
  match n, s with
  | S n', String a s' => String a (take n' s')
  | _, _ => EmptyString
  end.

(** [needle in hay] *)
Fixpoint contains (needle hay : string) : bool :=
  if prefix needle hay then true
  else match hay with
       | EmptyString => false
       | String _ hay' => contains needle hay'
       end.

Fixpoint all_digits (s : string) : bool :=
  match s with
  | EmptyString => true
  | String a s' => is_digit a && all_digits s'
  end.

Fixpoint digits_val (acc : Z) (s : string) : Z :=
  match s with
  | EmptyString => acc
  | String a s' => digits_val (10 * acc + Z.of_N (code a - 48)) s'
  end.

(** [int(s)] on a string of decimal digits.  The interpreter refuses a
    numeral of more than 4300 digits (its default limit) with
    [ValueError]. *)
Definition int_of_digits (s : string) : exc Z :=
  if (4300 <? length s)%nat then Raise ValueError else Ok (digits_val 0 s).

(** The text before the first ["."] and, when there is one, the text
    after it. *)
Fixpoint split_dot (s : string) : string * option string :=
  match s with
  | EmptyString => (EmptyString, None)
  | String a s' =>
      if Ascii.eqb a "." then (EmptyString, Some s')
      else let '(i, f) := split_dot s' in (String a i, f)
  end.

(** The sign of a numeral and the rest of it. *)
Definition split_sign (s : string) : bool * string :=
  match s with
  | String c r =>
      if Ascii.eqb c "-" then (true, r)
      else if Ascii.eqb c "+" then (false, r)
      else (false, s)
  | EmptyString => (false, s)
  end.

(** The white space that [float] strips: the space characters of the
    interpreter's ASCII table and the two space characters above 127. *)
Definition float_space (a : ascii) : bool :=
  in_range 9 13 a || (code a =? 32)%N || (code a =? 133)%N || (code a =? 160)%N.

Fixpoint lstrip_by (sp : ascii -> bool) (s : string) : string :=
  match s with
  | String a s' => if sp a then lstrip_by sp s' else s
  | EmptyString => EmptyString
  end.

Fixpoint rstrip_by (sp : ascii -> bool) (s : string) : string :=
  match s with
  | EmptyString => EmptyString
  | String a s' =>
      match rstrip_by sp s' with
      | EmptyString => if sp a then EmptyString else String a EmptyString
      | r => String a r
      end
  end.

(** The numeral without its underscores; an underscore is accepted only
    between two digits.  [prev] is the character before [s]. *)
Fixpoint strip_underscores (prev : option ascii) (s : string) : option string :=
  match s with
  | EmptyString =>
      match prev with
      | Some p => if Ascii.eqb p "_" then None else Some EmptyString
      | None => Some EmptyString
      end
  | String a s' =>
      let after_digit := match prev with Some p => is_digit p | None => false end in
      let after_underscore :=
        match prev with Some p => Ascii.eqb p "_" | None => false end in
      if Ascii.eqb a "_"
      then if after_digit then strip_underscores (Some a) s' else None
      else if after_underscore && negb (is_digit a) then None
      else option_map (String a) (strip_underscores (Some a) s')
  end.

(** The text before the first ["e"] or ["E"] and, when there is one, the
    text after it. *)
Fixpoint split_exp (s : string) : string * option string :=
  match s with
  | EmptyString => (EmptyString, None)
  | String a s' =>
      if Ascii.eqb a "e" || Ascii.eqb a "E" then (EmptyString, Some s')
      else let '(m, e) := split_exp s' in (String a m, e)
  end.

(** The exponent of a numeral: an optional sign and at least one digit. *)
Definition exponent_val (eo : option string) : option Z :=
  match eo with
  | None => Some 0
  | Some t =>
      let '(neg, ds) := split_sign t in
      if all_digits ds && negb (Nat.eqb (length ds) 0)
      then Some (if neg then - digits_val 0 ds else digits_val 0 ds)
      else None
  end.

(** The binary64 value nearest to [(-1)^neg * ip.fp * 10^e]. *)
Definition decimal_value (neg : bool) (ip fp : string) (e : Z) : float :=
  let n := digits_val 0 (ip ++ fp) in
  let k := e - Z.of_nat (length fp) in
  match n with
  | Z0 => if neg then neg_zero else zero
  | _ =>
      let sn := if neg then - n else n in
      if (0 <? k)%Z then PyFloat.of_ratio (sn * 10 ^ k) 1
      else PyFloat.of_ratio sn (Z.to_pos (10 ^ (- k)))
  end.

(** [float(s)]: surrounding white space is dropped, underscores may
    separate digits, and what remains is an optional sign followed by
    [inf], [infinity] or [nan] in any letter case, or by decimal digits with
    at most one point, at least one digit and an optional exponent;
    anything else raises [ValueError]. *)
Definition to_float (s : string) : exc float :=
  match strip_underscores None (rstrip_by float_space (lstrip_by float_space s)) with
  | None => Raise ValueError
  | Some u =>
      let '(neg, body) := split_sign u in
      let name := lower body in
      if String.eqb name "inf" || String.eqb name "infinity"
      then Ok (if neg then neg_infinity else infinity)
      else if String.eqb name "nan" then Ok nan
      else
        let '(mant, eo) := split_exp body in
        let '(ip, fo) := split_dot mant in
        let fp := match fo with Some f => f | None => EmptyString end in
        match exponent_val eo with
        | Some e =>
            if all_digits ip && all_digits fp
               && negb (Nat.eqb (length ip + length fp) 0)
            then Ok (decimal_value neg ip fp e)
            else Raise ValueError
        | None => Raise ValueError
        end
  end.

Definition digit_char (d : Z) : ascii := ascii_of_N (48 + Z.to_N d).

Fixpoint dec_digits (fuel : nat) (n : Z) (acc : string) : string :=
  match fuel with
  | O => acc
  | S fuel' =>
      let acc' := String (digit_char (n mod 10)) acc in
      if (n <? 10)%Z then acc' else dec_digits fuel' (n / 10) acc'
  end.

(** Decimal numeral of [n >= 0]. *)
Definition dec_string (n : Z) : string :=
  dec_digits (S (Z.to_nat (Z.log2 n))) n EmptyString.

(** The last [k] decimal digits of [n >= 0], zero padded. *)
Fixpoint frac_digits (k : nat) (n : Z) (acc : string) : string :=
  match k with
  | O => acc
  | S k' => frac_digits k' (n / 10) (String (digit_char (n mod 10)) acc)
  end.

(** [format(x, '.kf')] for [k >= 1]. *)
Definition format_fixed (k : nat) (x : float) : string :=
  let body (n : Z) :=
    dec_string (n / 10 ^ Z.of_nat k) ++ "." ++ frac_digits k n EmptyString in
  match Prim2SF x with
  | S754_nan => "nan"
  | S754_infinity s => if s then "-inf" else "inf"
  | S754_zero s => (if s then "-" else "") ++ body 0
  | S754_finite s m e =>
      (if s then "-" else "") ++ body (PyFloat.rne_scaled (Zpos m) e k)
  end.

End PyStr.

(** ** Regular expressions

    The patterns of [parse_fcs] use literals, character classes, greedy and
    lazy quantifiers over one-character items, groups, alternation, one
    lookahead and the end anchor.  [run] is a backtracking matcher with
    Python's priorities: alternatives left to right, a greedy quantifier
    longest first, a lazy one shortest first.  Every pattern of the source
    is compiled with [re.IGNORECASE], so literals compare case-folded. *)

Module Re.
Import PyStr.

Inductive rx : Type :=
| Chr (p : ascii -> bool)
| Rep (greedy : bool) (lo : nat) (hi : option nat) (p : ascii -> bool)
| Cat (r1 r2 : rx)
| Alt (r1 r2 : rx)
| Grp (i : nat) (r : rx)
| Ahead (r : rx)
| Eos.

Definition caps : Type := list (nat * string).
Definition outcome : Type := option (string * caps).
Definition kont : Type := string -> caps -> outcome.

Definition nl : ascii := "010"%char.

Fixpoint rep (g : bool) (p : ascii -> bool) (lo : nat) (hi : option nat)
             (k : kont) (s : string) (c : caps) {struct s} : outcome :=
  let stop (_ : unit) := match lo with O => k s c | S _ => None end in
  let more (_ : unit) :=
    match hi, s with
    | Some O, _ => None
    | _, String a s' =>
        if p a then rep g p (Nat.pred lo) (option_map Nat.pred hi) k s' c
        else None
    | _, EmptyString => None
    end in
  if g
  then match more tt with Some r => Some r | None => stop tt end
  else match stop tt with Some r => Some r | None => more tt end.

(** [$] without [re.MULTILINE]: the end of the text, or just before a
    newline that ends it. *)
Definition at_end (s : string) : bool :=
  match s with
  | EmptyString => true
  | String a EmptyString => Ascii.eqb a nl
  | _ => false
  end.

Fixpoint run (r : rx) (k : kont) (s : string) (c : caps) : outcome :=
  match r with
  | Chr p =>
      match s with
      | String a s' => if p a then k s' c else None
      | EmptyString => None
      end
  | Rep g lo hi p => rep g p lo hi k s c
  | Cat r1 r2 => run r1 (run r2 k) s c
  | Alt r1 r2 =>
      match run r1 k s c with
      | Some o => Some o
      | None => run r2 k s c
      end
  | Grp i r1 =>
      run r1 (fun s' c' =>
                k s' ((i, take (String.length s - String.length s') s) :: c'))
          s c
  | Ahead r1 =>
      match run r1 (fun s' c' => Some (s', c')) s c with
      | Some (_, c') => k s c'
      | None => None
      end
  | Eos => if at_end s then k s c else None
  end.

(** [re.search]: the leftmost match; the result is the text from the
    start of the match, the text after the match and the groups. *)
Fixpoint search (r : rx) (s : string) : option (string * string * caps) :=
  match run r (fun s' c => Some (s', c)) s [] with
  | Some (s', c) => Some (s, s', c)
  | None =>
      match s with
      | String _ s' => search r s'
      | EmptyString => None
      end
  end.

(** [re.finditer]: successive matches, each searched from the end of the
    previous one (one character further after an empty match). *)
Fixpoint finditer_from (fuel : nat) (r : rx) (s : string) : list caps :=
  match fuel with
  | O => []
  | S fuel' =>
      match search r s with
      | None => []
      | Some (st, s', c) =>
          c :: (if Nat.ltb (String.length s') (String.length st)
                then finditer_from fuel' r s'
                else match st with
                     | String _ t => finditer_from fuel' r t
                     | EmptyString => []
                     end)
      end
  end.

Definition finditer (r : rx) (s : string) : list caps :=
  finditer_from (S (String.length s)) r s.

(** [m.group(i)] *)
Fixpoint group (c : caps) (i : nat) : string :=
  match c with
  | [] => EmptyString
  | (j, v) :: c' => if Nat.eqb i j then v else group c' i
  end.

(** *** Pattern syntax *)

Definition lit (c : ascii) : rx :=
  Chr (fun a => Ascii.eqb (lower_char a) (lower_char c)).

Definition eps : rx := Rep true 0 (Some O) (fun _ => false).

Fixpoint str (s : string) : rx :=
  match s with
  | EmptyString => eps
  | String a EmptyString => lit a
  | String a s' => Cat (lit a) (str s')
  end.

Fixpoint seq (l : list rx) : rx :=
  match l with
  | [] => eps
  | [r] => r
  | r :: l' => Cat r (seq l')
  end.

Fixpoint alt (l : list rx) : rx :=
  match l with
  | [] => Chr (fun _ => false)
  | [r] => r
  | r :: l' => Alt r (alt l')
  end.

Definition is_char (c : ascii) (a : ascii) : bool := Ascii.eqb a c.
Definition dot (a : ascii) : bool := negb (Ascii.eqb a nl).
Definition any (_ : ascii) : bool := true.
Definition letter (a : ascii) : bool := in_range 65 90 a || in_range 97 122 a.
Definition digit_or (c : ascii) (a : ascii) : bool := is_digit a || Ascii.eqb a c.

Definition star (p : ascii -> bool) : rx := Rep true 0 None p.
Definition plus (p : ascii -> bool) : rx := Rep true 1 None p.
Definition opt (p : ascii -> bool) : rx := Rep true 0 (Some 1%nat) p.
Definition lazy_star (p : ascii -> bool) : rx := Rep false 0 None p.
Definition lazy_plus (p : ascii -> bool) : rx := Rep false 1 None p.

(** [[\d,]+\.?\d*] *)
Definition money : rx :=
  seq [plus (digit_or ","); opt (is_char "."); star is_digit].

End Re.

(** ** Data model *)

Inductive Frequency : Type := weekly | daily.
Inductive Status : Type := active | stopped.

Definition Frequency_eqb (a b : Frequency) : bool :=
  match a, b with
  | weekly, weekly | daily, daily => true
  | _, _ => false
  end.

Definition is_active (s : Status) : bool :=
  match s with active => true | stopped => false end.

(** One entry of [data['mcaPositions']]. *)
Module Position.
Record t : Type := mk {
  position : Z;
  lender : string;
  amount : float;
  frequency : Frequency;
  lastPull : string;
  status : Status
}.
End Position.

(** [data['lastDeposit']].  The keys ['payment'] and ['frequency'] are the
    ones [analyze] tests for membership, hence optional here; [parse_fcs]
    always sets them. *)
Module LastDeposit.
Record t : Type := mk {
  amount : float;
  date : string;
  lender : string;
  payment : option float;
  frequency : option Frequency
}.
End LastDeposit.

(** The dictionary returned by [parse_fcs]; a key that the parser may leave
    out is [None]. *)
Module Parsed.
Record t : Type := mk {
  businessName : option string;
  currentPositionCount : option Z;
  nextPosition : option Z;
  industry : option string;
  timeInBusiness : option string;
  avgRevenue : option float;
  negativeDays : option Z;
  avgNegativeDays : option float;
  avgBankBalance : option float;
  state : option string;
  lastDeposit : option LastDeposit.t;
  mcaPositions : list Position.t
}.
End Parsed.

(** A lender profile of the directory ([self.profiles], in the order of the
    JSON object). *)
Module Profile.
Record t : Type := mk {
  aliases : list string;
  typical_factor : option float;
  factor_range : float * float;
  typical_terms_weekly : list Z;
  typical_terms_daily : list Z;
  typical_fee_range : float * float
}.
End Profile.

Definition Directory : Type := list (string * Profile.t).

(** ** Report parser: [parse_fcs] *)

Module Parser.
Import PyStr Re.
Local Open Scope string_scope.
Local Open Scope char_scope.

Definition labelled (label : string) : rx :=
  seq [str label; star is_space; Grp 1 (lazy_plus dot); Alt (Chr (is_char nl)) Eos].

Definition summary_re : rx :=
  seq [Rep true 1 (Some 2%nat) is_digit; str "-Month Summary"; star is_space;
       Grp 1 (lazy_star any);
       Ahead (Alt (Cat (Chr (is_char nl)) (Chr (is_char nl))) Eos)].

Definition business_re : rx := labelled "Business Name:".
Definition industry_re : rx := labelled "Industry:".
Definition tib_re : rx := labelled "Time in Business:".

Definition position_count_re : rx :=
  seq [str "Position (ASSUME NEXT):"; star is_space; Grp 1 (plus is_digit);
       star is_space; str "active"; lazy_star dot; Grp 2 (plus is_digit);
       alt [str "st"; str "nd"; str "rd"; str "th"]].

Definition revenue_re : rx :=
  seq [str "Average True Revenue:"; star is_space; opt (is_char "$"); Grp 1 money].

Definition neg_days_re : rx :=
  seq [str "Negative Days:"; star is_space; Grp 1 (plus is_digit)].

Definition avg_neg_re : rx :=
  seq [str "Average Negative Days:"; star is_space; Grp 1 (plus (digit_or "."))].

Definition balance_re : rx :=
  seq [str "Average Bank Balance:"; star is_space; opt (is_char "$"); Grp 1 money].

Definition state_re : rx :=
  seq [str "State:"; star is_space; Grp 1 (Rep true 2 (Some 2%nat) letter)].

Definition freq_re : rx := Alt (str "weekly") (str "daily").

Definition last_deposit_pattern : rx :=
  seq [str "Last MCA Deposit:"; star is_space; opt (is_char "$"); Grp 1 money;
       star is_space; str "on"; star is_space; Grp 2 (plus (digit_or "/"));
       star is_space; str "from"; star is_space; Grp 3 (lazy_plus dot);
       star is_space; lit "("; opt (is_char "$"); Grp 4 money;
       plus is_space; Grp 5 freq_re; lit ")"].

Definition position_pattern : rx :=
  seq [str "Position "; Grp 1 (plus is_digit); lit ":"; star is_space;
       Grp 2 (lazy_plus dot); star is_space; lit "-"; star is_space;
       opt (is_char "~"); opt (is_char "$"); Grp 3 money; star is_space;
       Grp 4 freq_re; star is_space; Chr (is_char nl); str "Last pull:";
       star is_space; Grp 5 (plus (digit_or "/")); star is_space; lit "-";
       star is_space; str "Status:"; star is_space;
       Grp 6 (Alt (str "Active") (str "Stopped"))].

(** The branch taken by the tests [== 'weekly'] and [== 'active'] on the
    stored, lower-cased token.  On the texts of the embedding the token
    stored for a frequency is "weekly" or "daily", and the one stored for a
    status is "active" or "stopped". *)
Definition frequency_of (s : string) : Frequency :=
  if String.eqb s "weekly" then weekly else daily.
Definition status_of (s : string) : Status :=
  if String.eqb s "active" then active else stopped.

(** [float(g.replace(',', ''))] *)
Definition money_value (g : string) : exc float := to_float (remove_char "," g).

(** A field set only when its pattern is found. *)
Definition field {A : Type} (r : rx) (text : option string)
           (f : caps -> exc A) : exc (option A) :=
  match text with
  | None => Ok None
  | Some s =>
      match search r s with
      | None => Ok None
      | Some (_, _, c) => v <- f c ;; Ok (Some v)
      end
  end.

Definition parse_position (c : caps) : exc Position.t :=
  n <- int_of_digits (group c 1) ;;
  a <- money_value (group c 3) ;;
  Ok (Position.mk n (strip (group c 2)) a
        (frequency_of (lower (group c 4))) (group c 5)
        (status_of (lower (group c 6)))).

Definition parse_fcs (fcs_text : string) : exc Parsed.t :=
  let summary :=
    match search summary_re fcs_text with
    | Some (_, _, c) => Some (group c 1)
    | None => None
    end in
  businessName <- field business_re summary (fun c => Ok (strip (group c 1))) ;;
  counts <- field position_count_re summary
              (fun c =>
                 n <- int_of_digits (group c 1) ;;
                 k <- int_of_digits (group c 2) ;;
                 Ok (n, k)) ;;
  industry <- field industry_re summary (fun c => Ok (strip (group c 1))) ;;
  timeInBusiness <- field tib_re summary (fun c => Ok (strip (group c 1))) ;;
  avgRevenue <- field revenue_re summary (fun c => money_value (group c 1)) ;;
  negativeDays <- field neg_days_re summary (fun c => int_of_digits (group c 1)) ;;
  avgNegativeDays <- field avg_neg_re summary (fun c => to_float (group c 1)) ;;
  avgBankBalance <- field balance_re summary (fun c => money_value (group c 1)) ;;
  state <- field state_re summary (fun c => Ok (upper (group c 1))) ;;
  lastDeposit <- field last_deposit_pattern (Some fcs_text)
    (fun c =>
       a <- money_value (group c 1) ;;
       p <- money_value (group c 4) ;;
       Ok (LastDeposit.mk a (group c 2) (strip (group c 3)) (Some p)
             (Some (frequency_of (lower (group c 5)))))) ;;
  mcaPositions <- mapM parse_position (finditer position_pattern fcs_text) ;;
  Ok (Parsed.mk businessName (option_map fst counts) (option_map snd counts)
        industry timeInBusiness avgRevenue negativeDays avgNegativeDays
        avgBankBalance state lastDeposit mcaPositions).

End Parser.

(** ** Stable sorting

    [list.sort(key=...)] is stable; its result is the one of any stable
    sort, here insertion from the right. *)

Section StableSort.
Context {A : Type} (key : A -> Z).

Fixpoint insert_by (x : A) (l : list A) : list A :=
  match l with
  | [] => [x]
  | y :: l' => if key x <=? key y then x :: l else y :: insert_by x l'
  end.

Definition sort_by (l : list A) : list A := fold_right insert_by [] l.

End StableSort.

(** ** Withholding calculator: [calculate_withholding] *)

Module Breakdown.
Record t : Type := mk {
  lender : string;
  payment : float;
  frequency : Frequency;
  dailyRate : float;
  monthlyPayment : float;
  withholdPct : float
}.
End Breakdown.

Module Withholding.
Record t : Type := mk {
  total : float;
  breakdown : list Breakdown.t
}.
End Withholding.

(** [pos['amount'] / 5 if pos['frequency'] == 'weekly' else pos['amount']] *)
Definition daily_rate_of (pos : Position.t) : float :=
  match Position.frequency pos with
  | weekly => PrimFloat.div (Position.amount pos) 5
  | daily => Position.amount pos
  end.

(** The loop of [calculate_withholding], with its two accumulators. *)
Fixpoint withholding_loop (positions : list Position.t) (revenue : float)
    (total_withhold : float) (breakdown : list Breakdown.t)
    : exc (float * list Breakdown.t) :=
  match positions with
  | [] => Ok (total_withhold, breakdown)
  | pos :: rest =>
      if is_active (Position.status pos) then
        let daily_rate := daily_rate_of pos in
        let monthly_payment := PrimFloat.mul daily_rate 21 in
        q <- PyFloat.div monthly_payment revenue ;;
        let withhold_pct := PrimFloat.mul q 100 in
        withholding_loop rest revenue
          (PrimFloat.add total_withhold withhold_pct)
          (breakdown ++
             [Breakdown.mk (Position.lender pos) (Position.amount pos)
                (Position.frequency pos)
                (PyFloat.round_nd daily_rate 2)
                (PyFloat.round_nd monthly_payment 2)
                (PyFloat.round_nd withhold_pct 2)])
      else withholding_loop rest revenue total_withhold breakdown
  end.

Definition calculate_withholding (positions : list Position.t) (revenue : float)
    : exc Withholding.t :=
  r <- withholding_loop positions revenue zero [] ;;
  Ok (Withholding.mk (PyFloat.round_nd (fst r) 2) (snd r)).

(** ** Lender matcher: [identify_lender] *)

Definition alias_matches (lender_lower alias : string) : bool :=
  PyStr.contains alias lender_lower || PyStr.contains lender_lower alias.

Fixpoint identify_lender (profiles : Directory) (lender_name : string)
    : option Profile.t :=
  let lender_lower := PyStr.strip (PyStr.lower lender_name) in
  match profiles with
  | [] => None
  | (_, profile) :: rest =>
      if existsb (alias_matches lender_lower) (Profile.aliases profile)
      then Some profile
      else identify_lender rest lender_name
  end.

(** ** Scenario reconstructor: [analyze_last_position] *)

Inductive Likelihood : Type :=
| most_likely | realistic | possible_low | possible_high | unlikely.

Module Scenario.
Record t : Type := mk {
  term : Z;
  termUnit : string;
  payment : float;
  frequency : Frequency;
  originalFunding : Z;
  deposit : float;
  fee : Z;
  feePercent : string;
  totalPayback : Z;
  factor : string;
  likelihood : Likelihood;
  intelligenceScore : option Z
}.
End Scenario.

(** An entry of [originals_with_fees]. *)
Module Original.
Record t : Type := mk {
  original : float;
  fee : float;
  fee_percent : float
}.
End Original.

Module Analysis.
Record t : Type := mk {
  scenarios : list Scenario.t;
  lenderProfile : option Profile.t;
  deposit : LastDeposit.t
}.
End Analysis.

(** [range(lo, hi)] and [range(lo, hi, step)] for [step > 0] *)
Definition range (lo hi : Z) : list Z :=
  map (fun i => lo + Z.of_nat i) (seq 0 (Z.to_nat (hi - lo))).

Definition range_step (lo hi step : Z) : list Z :=
  map (fun i => lo + Z.of_nat i * step)
      (seq 0 (Z.to_nat ((hi - lo + step - 1) / step))).

(** [[base + i * step for i in range(lo, hi)]] with [base = (amount // step) * step] *)
Definition clean_window (amount : float) (step : Z) (lo hi : Z) : list float :=
  let base :=
    PrimFloat.mul (PyFloat.floordiv_nz amount (PyFloat.of_Z step)) (PyFloat.of_Z step) in
  map (fun i => PrimFloat.add base (PyFloat.of_Z (i * step))) (range lo hi).

Definition get_possible_clean_amounts (amount : float) : list float :=
  let possibilities :=
    if PrimFloat.ltb amount 25000 then clean_window amount 5000 (-1) 4
    else if PrimFloat.ltb amount 100000 then clean_window amount 10000 (-1) 4
    else if PrimFloat.ltb amount 250000 then clean_window amount 25000 (-1) 3
    else clean_window amount 50000 (-1) 3 in
  filter (fun p => PrimFloat.leb amount p && PrimFloat.ltb zero p) possibilities.

(** The loop that builds [originals_with_fees]. *)
Fixpoint originals_with_fees (deposit_amount : float) (possible_originals : list float)
    : exc (list Original.t) :=
  match possible_originals with
  | [] => Ok []
  | orig :: rest =>
      let calculated_fee := PrimFloat.sub orig deposit_amount in
      fee_percent <- PyFloat.div calculated_fee orig ;;
      tl <- originals_with_fees deposit_amount rest ;;
      if PrimFloat.leb zero fee_percent && PrimFloat.leb fee_percent 0.10
      then Ok (Original.mk orig calculated_fee fee_percent :: tl)
      else Ok tl
  end.

Definition score_fee (fee_pct : float) : Z :=
  if PrimFloat.leb 0.03 fee_pct && PrimFloat.leb fee_pct 0.05 then 1
  else if PrimFloat.leb zero fee_pct && PrimFloat.leb fee_pct 0.02 then 2
  else if PrimFloat.leb 0.06 fee_pct && PrimFloat.leb fee_pct 0.10 then 3
  else 4.

Definition terms_of (frequency : Frequency) : list Z :=
  match frequency with
  | weekly => range_step 10 72 2
  | daily => range_step 60 230 10
  end.

Definition _determine_likelihood (factor : float) : Likelihood :=
  if PrimFloat.ltb (PrimFloat.abs (PrimFloat.sub factor 1.49)) 0.01 then most_likely
  else if PrimFloat.leb 1.42 factor && PrimFloat.leb factor 1.55 then realistic
  else if PrimFloat.leb 1.30 factor && PrimFloat.leb factor 1.41 then possible_low
  else if PrimFloat.leb 1.56 factor && PrimFloat.leb factor 1.60 then possible_high
  else unlikely.

Definition termUnit_of (frequency : Frequency) : string :=
  match frequency with weekly => "weeks" | daily => "days" end.

(** The unformatted factor of a candidate and a term:
    [payment * term / original]. *)
Definition raw_factor (payment : float) (term : Z) (original : float) : exc float :=
  PyFloat.div (PrimFloat.mul payment (PyFloat.of_Z term)) original.

Definition factor_in_band (factor : float) : bool :=
  PrimFloat.leb 1.20 factor && PrimFloat.leb factor 1.60.

(** The body of the inner loop: the scenario appended for one candidate and
    one term, if any. *)
Definition scenario_for (deposit_amount payment : float) (frequency : Frequency)
    (orig_data : Original.t) (term : Z) : exc (option Scenario.t) :=
  let total_payback := PrimFloat.mul payment (PyFloat.of_Z term) in
  factor <- raw_factor payment term (Original.original orig_data) ;;
  if factor_in_band factor then
    originalFunding <- PyFloat.round (Original.original orig_data) ;;
    fee <- PyFloat.round (Original.fee orig_data) ;;
    totalPayback <- PyFloat.round total_payback ;;
    Ok (Some (Scenario.mk term (termUnit_of frequency) payment frequency
                originalFunding deposit_amount fee
                (PyStr.format_fixed 1
                   (PrimFloat.mul (Original.fee_percent orig_data) 100))
                totalPayback (PyStr.format_fixed 2 factor)
                (_determine_likelihood factor) None))
  else Ok None.

Fixpoint keep_some {A : Type} (l : list (option A)) : list A :=
  match l with
  | [] => []
  | Some a :: l' => a :: keep_some l'
  | None :: l' => keep_some l'
  end.

(** The two nested loops that fill [scenarios]. *)
Definition generate_scenarios (deposit_amount payment : float) (frequency : Frequency)
    (originals : list Original.t) : exc (list Scenario.t) :=
  rows <- mapM (fun orig_data =>
                  row <- mapM (scenario_for deposit_amount payment frequency orig_data)
                              (terms_of frequency) ;;
                  Ok (keep_some row))
               originals ;;
  Ok (List.concat rows).

(** The generic profiles of [_prioritize_with_lender_knowledge]. *)
Definition default_profile (frequency : Frequency) : Profile.t :=
  match frequency with
  | weekly =>
      Profile.mk [] (Some 1.45%float) (1.35%float, 1.55%float)
        [40; 42; 44; 46; 48; 50] [] (0.02%float, 0.08%float)
  | daily =>
      Profile.mk [] (Some 1.45%float) (1.35%float, 1.55%float)
        [] [100; 110; 120; 130; 140] (0.05%float, 0.10%float)
  end.

(** [profile[f'typical_terms_{frequency}']], for the two frequencies that are
    keys of a profile. *)
Definition typical_terms_of (profile : Profile.t) (frequency : Frequency) : list Z :=
  match frequency with
  | weekly => Profile.typical_terms_weekly profile
  | daily => Profile.typical_terms_daily profile
  end.

(** [min(l, key=lambda x: abs(x - term))] on [x :: l]: the first minimum. *)
Fixpoint closest_to (term : Z) (x : Z) (l : list Z) : Z :=
  match l with
  | [] => x
  | y :: l' =>
      if Z.abs (y - term) <? Z.abs (x - term)
      then closest_to term y l' else closest_to term x l'
  end.

Definition term_score (typical_terms : list Z) (term : Z) : Z :=
  if existsb (Z.eqb term) typical_terms then 25
  else match typical_terms with
       | [] => 0
       | x :: l =>
           if Z.abs (term - closest_to term x l) <=? 4 then 15 else 0
       end.

Definition intelligence_score (profile : Profile.t) (frequency : Frequency)
    (factor : float) (term : Z) (fee_pct : float) : Z :=
  (if PrimFloat.leb (fst (Profile.factor_range profile)) factor
      && PrimFloat.leb factor (snd (Profile.factor_range profile))
   then 20 else 0)
  + (if PrimFloat.ltb
          (PrimFloat.abs
             (PrimFloat.sub factor
                (match Profile.typical_factor profile with
                 | Some f => f
                 | None => 1.45%float
                 end)))
          0.05
     then 30 else 0)
  + term_score (typical_terms_of profile frequency) term
  + (if PrimFloat.leb (fst (Profile.typical_fee_range profile)) fee_pct
        && PrimFloat.leb fee_pct (snd (Profile.typical_fee_range profile))
     then 10 else 0).

Definition upgrade_likelihood (score : Z) (l : Likelihood) : Likelihood :=
  match l with
  | most_likely | realistic => l
  | unlikely => if 60 <=? score then realistic
                else if 40 <=? score then possible_low else l
  | _ => if 60 <=? score then realistic else l
  end.

(** The body of the scoring loop: the scenario with its score and its
    likelihood updated. *)
Definition score_scenario (profile : Profile.t) (frequency : Frequency)
    (scenario : Scenario.t) : exc Scenario.t :=
  factor <- PyStr.to_float (Scenario.factor scenario) ;;
  fee <- PyStr.to_float (Scenario.feePercent scenario) ;;
  let fee_pct := PrimFloat.div fee 100 in
  let score := intelligence_score profile frequency factor (Scenario.term scenario) fee_pct in
  Ok (Scenario.mk (Scenario.term scenario) (Scenario.termUnit scenario)
        (Scenario.payment scenario) (Scenario.frequency scenario)
        (Scenario.originalFunding scenario) (Scenario.deposit scenario)
        (Scenario.fee scenario) (Scenario.feePercent scenario)
        (Scenario.totalPayback scenario) (Scenario.factor scenario)
        (upgrade_likelihood score (Scenario.likelihood scenario))
        (Some score)).

(** [-x.get('intelligenceScore', 0)] *)
Definition rank_key (s : Scenario.t) : Z :=
  - match Scenario.intelligenceScore s with Some n => n | None => 0 end.

Definition _prioritize_with_lender_knowledge (scenarios : list Scenario.t)
    (profile : option Profile.t) (frequency : Frequency) : exc (list Scenario.t) :=
  let profile :=
    match profile with
    | Some p => p
    | None => default_profile frequency
    end in
  scored <- mapM (score_scenario profile frequency) scenarios ;;
  Ok (sort_by rank_key scored).

(** The loop that removes duplicates by term, [seen] being [seen_terms]. *)
Fixpoint unique_by_term (seen : list Z) (scenarios : list Scenario.t)
    : list Scenario.t :=
  match scenarios with
  | [] => []
  | s :: rest =>
      if existsb (Z.eqb (Scenario.term s)) seen
      then unique_by_term seen rest
      else s :: unique_by_term (Scenario.term s :: seen) rest
  end.

(** [originals_with_fees] after its [sort(key=...)] by fee score. *)
Definition sorted_originals (deposit_amount : float) : exc (list Original.t) :=
  originals <- originals_with_fees deposit_amount
                 (get_possible_clean_amounts deposit_amount) ;;
  Ok (sort_by (fun x => score_fee (Original.fee_percent x)) originals).

(** The list handed to the deduplication: generated, scored and ranked. *)
Definition ranked_scenarios (profiles : Directory) (deposit : LastDeposit.t)
    (payment : float) (frequency : Frequency) : exc (list Scenario.t) :=
  let deposit_amount := LastDeposit.amount deposit in
  originals <- sorted_originals deposit_amount ;;
  scenarios <- generate_scenarios deposit_amount payment frequency originals ;;
  _prioritize_with_lender_knowledge scenarios
    (identify_lender profiles (LastDeposit.lender deposit)) frequency.

Definition analyze_last_position (profiles : Directory) (deposit : LastDeposit.t)
    (payment : float) (frequency : Frequency) (revenue : float) : exc Analysis.t :=
  scenarios <- ranked_scenarios profiles deposit payment frequency ;;
  let unique_scenarios := sort_by Scenario.term (unique_by_term [] scenarios) in
  Ok (Analysis.mk (firstn 10 unique_scenarios)
        (identify_lender profiles (LastDeposit.lender deposit)) deposit).

(** ** Affordability projector: [calculate_affordable_funding] *)

Module Affordable.
Record t : Type := mk {
  availablePayment : float;
  frequency : Frequency;
  term : Z;
  termUnit : string;
  factor : float;
  totalPayback : float;
  affordableFunding : Z;
  additionalWithhold : float
}.
End Affordable.

Definition available_payment_of (additional_withhold revenue : float)
    (frequency : Frequency) : float :=
  let available_monthly_payment :=
    PrimFloat.mul (PrimFloat.div additional_withhold 100) revenue in
  let available_daily_rate := PrimFloat.div available_monthly_payment 21 in
  match frequency with
  | weekly => PrimFloat.mul available_daily_rate 5
  | daily => available_daily_rate
  end.

Definition calculate_affordable_funding (additional_withhold revenue : float)
    (selected_scenario : Scenario.t) (frequency : Frequency) : exc Affordable.t :=
  let available_payment := available_payment_of additional_withhold revenue frequency in
  let term := Scenario.term selected_scenario in
  factor <- PyStr.to_float (Scenario.factor selected_scenario) ;;
  let total_payback := PrimFloat.mul available_payment (PyFloat.of_Z term) in
  affordable_funding <- PyFloat.div total_payback factor ;;
  rounded <- PyFloat.round affordable_funding ;;
  Ok (Affordable.mk (PyFloat.round_nd available_payment 2) frequency term
        (Scenario.termUnit selected_scenario) factor
        (PyFloat.round_nd total_payback 2) rounded additional_withhold).

(** ** Analysis orchestrator: [analyze] *)

Module Overview.
Record t : Type := mk {
  name : option string;
  industry : option string;
  state : option string;
  currentPositions : option Z;
  nextPosition : option Z;
  avgRevenue : option float;
  avgBankBalance : option float;
  negativeDays : option Z;
  timeInBusiness : option string
}.
End Overview.

Module Report.
Record t : Type := mk {
  businessOverview : Overview.t;
  withholding : Withholding.t;
  lastPositionAnalysis : option Analysis.t;
  affordableFunding : option Affordable.t
}.
End Report.

(** What [analyze] returns: the dictionary with the single key ['error'],
    or the aggregate. *)
Inductive Result : Type :=
| ErrorRecord (error : string)
| Aggregate (report : Report.t).

Definition revenue_error : string :=
  "Could not find Average True Revenue in the report.".

(** [s.lower().replace(' ', '')[:10]] *)
Definition lender_clean (s : string) : string :=
  PyStr.take 10 (PyStr.remove_char " " (PyStr.lower s)).

Definition position_matches (deposit_lender : string) (pos : Position.t) : bool :=
  let deposit_lender_clean := lender_clean deposit_lender in
  let pos_lender_clean := lender_clean (Position.lender pos) in
  PyStr.contains deposit_lender_clean pos_lender_clean
  || PyStr.contains pos_lender_clean deposit_lender_clean
  || String.eqb (PyStr.take 5 deposit_lender_clean) (PyStr.take 5 pos_lender_clean).

(** The payment and frequency that [analyze] resolves for the last deposit;
    [None] stands for Python's [None]. *)
Definition resolve_payment (last_deposit : LastDeposit.t)
    (active_positions : list Position.t) : option float * option Frequency :=
  match LastDeposit.payment last_deposit, LastDeposit.frequency last_deposit with
  | Some p, Some f => (Some p, Some f)
  | _, _ =>
      match find (position_matches (LastDeposit.lender last_deposit)) active_positions with
      | Some matching_position =>
          (Some (Position.amount matching_position),
           Some (Position.frequency matching_position))
      | None => (None, None)
      end
  end.

(** The part of [analyze] under [if parsed_data.get('lastDeposit')]. *)
Definition analyze_deposit (profiles : Directory) (additional_withhold revenue : float)
    (last_deposit : LastDeposit.t) (active_positions : list Position.t)
    : exc (option Analysis.t * option Affordable.t) :=
  match resolve_payment last_deposit active_positions with
  | (Some payment, Some frequency) =>
      if PyFloat.truthy payment then
        last_position_analysis <-
          analyze_last_position profiles last_deposit payment frequency revenue ;;
        match Analysis.scenarios last_position_analysis with
        | best_scenario :: _ =>
            affordable_funding <-
              calculate_affordable_funding additional_withhold revenue
                best_scenario frequency ;;
            Ok (Some last_position_analysis, Some affordable_funding)
        | [] => Ok (Some last_position_analysis, None)
        end
      else Ok (None, None)
  | _ => Ok (None, None)
  end.

(** [analyze] after parsing. *)
Definition analyze_parsed (profiles : Directory) (parsed_data : Parsed.t)
    (additional_withhold : float) : exc Result :=
  match Parsed.avgRevenue parsed_data with
  | None => Ok (ErrorRecord revenue_error)
  | Some revenue =>
      if PyFloat.truthy revenue then
        let active_positions :=
          filter (fun p => is_active (Position.status p))
                 (Parsed.mcaPositions parsed_data) in
        withholding_data <- calculate_withholding active_positions revenue ;;
        r <- match Parsed.lastDeposit parsed_data with
             | Some last_deposit =>
                 analyze_deposit profiles additional_withhold revenue
                   last_deposit active_positions
             | None => Ok (None, None)
             end ;;
        Ok (Aggregate
              (Report.mk
                 (Overview.mk (Parsed.businessName parsed_data)
                    (Parsed.industry parsed_data) (Parsed.state parsed_data)
                    (Parsed.currentPositionCount parsed_data)
                    (Parsed.nextPosition parsed_data)
                    (Parsed.avgRevenue parsed_data)
                    (Parsed.avgBankBalance parsed_data)
                    (Parsed.negativeDays parsed_data)
                    (Parsed.timeInBusiness parsed_data))
                 withholding_data (fst r) (snd r)))
      else Ok (ErrorRecord revenue_error)
  end.

Definition analyze (profiles : Directory) (fcs_text : string)
    (additional_withhold : float) : exc Result :=
  parsed_data <- Parser.parse_fcs fcs_text ;;
  analyze_parsed profiles parsed_data additional_withhold.

(** * Properties *)

(** ** Facts about floats *)

Module FloatFacts.

Lemma SF_zero : Prim2SF zero = S754_zero false.
Proof. reflexivity. Qed.

(** A float above zero is not equal to zero. *)
Lemma ltb_zero_nonzero (x : float) :
  PrimFloat.ltb zero x = true -> PrimFloat.eqb x zero = false.
Proof.
  rewrite ltb_spec, eqb_spec, SF_zero.
  unfold SFltb, SFeqb.
  destruct (Prim2SF x) as [[|] | [|] | | [|] m e]; cbn; congruence.
Qed.

Lemma truthy_div (x y : float) :
  PyFloat.truthy y = true -> PyFloat.div x y = Ok (PrimFloat.div x y).
Proof.
  unfold PyFloat.truthy, PyFloat.div. destruct (PrimFloat.eqb y zero); simpl; congruence.
Qed.

Lemma pos_truthy (x : float) :
  PrimFloat.ltb zero x = true -> PyFloat.truthy x = true.
Proof.
  intros H. unfold PyFloat.truthy. now rewrite (ltb_zero_nonzero x H).
Qed.

End FloatFacts.

(** ** Withholding calculator (C3, C9) *)

Module WithholdingSpec.

(** The quantities of the contract, for one position. *)
Definition dailyRate (p : Position.t) : float :=
  match Position.frequency p with
  | weekly => PrimFloat.div (Position.amount p) 5
  | daily => Position.amount p
  end.

Definition monthlyPayment (p : Position.t) : float :=
  PrimFloat.mul (dailyRate p) 21.

Definition withholdPct (revenue : float) (p : Position.t) : float :=
  PrimFloat.mul (PrimFloat.div (monthlyPayment p) revenue) 100.

Definition entry (revenue : float) (p : Position.t) : Breakdown.t :=
  Breakdown.mk (Position.lender p) (Position.amount p) (Position.frequency p)
    (PyFloat.round_nd (dailyRate p) 2)
    (PyFloat.round_nd (monthlyPayment p) 2)
    (PyFloat.round_nd (withholdPct revenue p) 2).

Definition actives (positions : list Position.t) : list Position.t :=
  filter (fun p => is_active (Position.status p)) positions.

(** The sum of the percentages, accumulated from the left as the loop does. *)
Definition sum_pct (revenue : float) (positions : list Position.t) (start : float) : float :=
  fold_left PrimFloat.add (map (withholdPct revenue) positions) start.

End WithholdingSpec.

Lemma withholding_loop_actives (positions : list Position.t) (revenue t : float)
    (b : list Breakdown.t) :
  withholding_loop positions revenue t b =
  withholding_loop (WithholdingSpec.actives positions) revenue t b.
Proof.
  revert t b. induction positions as [| p rest IH]; intros t b; [reflexivity |].
  cbn [WithholdingSpec.actives filter withholding_loop].
  destruct (is_active (Position.status p)) eqn:E.
  - cbn [withholding_loop]. rewrite E.
    destruct (PyFloat.div _ revenue); cbn [bind]; [apply IH | reflexivity].
  - apply IH.
Qed.

Lemma withholding_loop_spec (positions : list Position.t) (revenue t : float)
    (b : list Breakdown.t) :
  PyFloat.truthy revenue = true ->
  withholding_loop positions revenue t b =
  Ok (WithholdingSpec.sum_pct revenue (WithholdingSpec.actives positions) t,
      b ++ map (WithholdingSpec.entry revenue) (WithholdingSpec.actives positions)).
Proof.
  intros Hrev. revert t b.
  induction positions as [| p rest IH]; intros t b.
  - cbn. now rewrite app_nil_r.
  - cbn [WithholdingSpec.actives filter withholding_loop].
    destruct (is_active (Position.status p)) eqn:E.
    + rewrite (FloatFacts.truthy_div _ _ Hrev). cbn [bind].
      rewrite IH. cbn [map]. rewrite <- app_assoc. reflexivity.
    + apply IH.
Qed.

Lemma calculate_withholding_spec (positions : list Position.t) (revenue : float) :
  PyFloat.truthy revenue = true ->
  calculate_withholding positions revenue =
  Ok (Withholding.mk
        (PyFloat.round_nd
           (WithholdingSpec.sum_pct revenue (WithholdingSpec.actives positions) zero) 2)
        (map (WithholdingSpec.entry revenue) (WithholdingSpec.actives positions))).
Proof.
  intros Hrev. unfold calculate_withholding.
  now rewrite (withholding_loop_spec _ _ _ _ Hrev).
Qed.

Lemma withholding_loop_ok (positions : list Position.t) (revenue t : float)
    (b : list Breakdown.t) (r : float * list Breakdown.t) :
  withholding_loop positions revenue t b = Ok r ->
  r = (WithholdingSpec.sum_pct revenue (WithholdingSpec.actives positions) t,
       b ++ map (WithholdingSpec.entry revenue) (WithholdingSpec.actives positions)).
Proof.
  revert t b. induction positions as [| p rest IH]; intros t b.
  - cbn. rewrite app_nil_r. congruence.
  - cbn [WithholdingSpec.actives filter withholding_loop].
    destruct (is_active (Position.status p)) eqn:E; [| apply IH].
    unfold PyFloat.div. destruct (PrimFloat.eqb revenue zero); cbn [bind].
    + discriminate.
    + intros H. apply IH in H. rewrite H. cbn [map]. now rewrite <- app_assoc.
Qed.

Lemma actives_app (l1 l2 : list Position.t) :
  WithholdingSpec.actives (l1 ++ l2) =
  WithholdingSpec.actives l1 ++ WithholdingSpec.actives l2.
Proof. apply filter_app. Qed.

Definition example_position (amount : float) (f : Frequency) (s : Status) : Position.t :=
  Position.mk 1 "Lender" amount f "01/02/2025" s.

(** C3. For every list of positions and every positive revenue, the
    calculator returns, for the active positions in input order, the daily
    rate (payment / 5 when weekly, the payment otherwise), the monthly
    payment (daily rate * 21) and the percentage (monthly payment / revenue
    * 100), each rounded to 2 decimals, and as total the sum of the
    unrounded percentages rounded to 2 decimals. *)
Theorem C3_withholding_formula (positions : list Position.t) (revenue : float) :
  PrimFloat.ltb zero revenue = true ->
  calculate_withholding positions revenue =
  Ok (Withholding.mk
        (PyFloat.round_nd
           (WithholdingSpec.sum_pct revenue (WithholdingSpec.actives positions) zero) 2)
        (map (WithholdingSpec.entry revenue) (WithholdingSpec.actives positions))).
Proof.
  intros H. apply calculate_withholding_spec, FloatFacts.pos_truthy, H.
Qed.

(** The example of C3: one active weekly position of 2,000 against a revenue
    of 100,000 gives dailyRate 400.0, monthlyPayment 8400.0, withholdPct 8.4
    and total 8.4. *)
Lemma C3_withholding_example :
  calculate_withholding [example_position 2000 weekly active] 100000 =
  Ok (Withholding.mk 8.4
        [Breakdown.mk "Lender" 2000 weekly 400 8400 8.4]).
Proof.
  rewrite (C3_withholding_formula [example_position 2000 weekly active] 100000 eq_refl).
  vm_compute. reflexivity.
Defined.

(** C9. The calculator itself skips the positions that are not active: its
    result is the one it gives on the active positions alone, its breakdown
    lists the active positions only, and a stopped position anywhere in the
    input changes nothing. *)
Theorem C9_inactive_positions_skipped (positions : list Position.t) (revenue : float) :
  calculate_withholding positions revenue =
    calculate_withholding (WithholdingSpec.actives positions) revenue
  /\ (forall w, calculate_withholding positions revenue = Ok w ->
        Withholding.breakdown w =
          map (WithholdingSpec.entry revenue) (WithholdingSpec.actives positions)
        /\ Withholding.total w =
          PyFloat.round_nd
            (WithholdingSpec.sum_pct revenue (WithholdingSpec.actives positions) zero) 2)
  /\ (forall before p after,
        positions = before ++ p :: after ->
        Position.status p = stopped ->
        calculate_withholding positions revenue =
          calculate_withholding (before ++ after) revenue).
Proof.
  split; [| split].
  - unfold calculate_withholding. now rewrite withholding_loop_actives.
  - intros w. unfold calculate_withholding.
    destruct (withholding_loop positions revenue zero []) as [r | e] eqn:E;
      cbn [bind]; [| discriminate].
    apply withholding_loop_ok in E. intros H. injection H as <-. subst r.
    cbn. split; reflexivity.
  - intros before p after -> Hp. unfold calculate_withholding.
    rewrite withholding_loop_actives.
    rewrite (withholding_loop_actives (before ++ after)).
    rewrite !actives_app. cbn [WithholdingSpec.actives filter].
    rewrite Hp. reflexivity.
Qed.

Lemma C9_inactive_positions_skipped_witness :
  calculate_withholding
    [example_position 2000 weekly active; example_position 500 daily stopped] 100000 =
  calculate_withholding [example_position 2000 weekly active] 100000.
Proof.
  exact (proj2 (proj2 (C9_inactive_positions_skipped
           [example_position 2000 weekly active; example_position 500 daily stopped]
           100000))
         [example_position 2000 weekly active] (example_position 500 daily stopped) []
         eq_refl eq_refl).
Defined.

(** ** Lender matcher (C7) *)

Module LenderSpec.
Local Open Scope string_scope.

(** [a] occurs in [s] as a contiguous run of characters. *)
Definition is_substring (a s : string) : Prop :=
  exists pre post, s = pre ++ a ++ post.

(** Some alias of the profile is contained in the lower-cased, trimmed name,
    or contains it. *)
Definition name_matches (lender_name : string) (p : Profile.t) : Prop :=
  let n := PyStr.strip (PyStr.lower lender_name) in
  exists alias, In alias (Profile.aliases p)
                /\ (is_substring alias n \/ is_substring n alias).

Lemma prefix_iff (a s : string) :
  prefix a s = true <-> exists post, s = a ++ post.
Proof.
  revert s. induction a as [| c a IH]; intros s.
  - destruct s; cbn; (split; [intros _; eexists; reflexivity | reflexivity]).
  - destruct s as [| d s]; cbn;
      [split; [discriminate | intros [post H]; discriminate] |].
    destruct (ascii_dec c d) as [-> | Hne].
    + rewrite IH. split; intros [post H]; exists post; [now subst | now injection H].
    + split; [discriminate | intros [post H]; injection H; congruence].
Qed.

Lemma contains_iff (a s : string) :
  PyStr.contains a s = true <-> is_substring a s.
Proof.
  unfold is_substring. induction s as [| d s IH].
  - cbn [PyStr.contains]. destruct (prefix a "") eqn:E.
    + split; [intros _ | reflexivity].
      apply prefix_iff in E. destruct E as [post E]. now exists "", post.
    + split; [discriminate |]. intros ([| c pre] & post & H); [| discriminate].
      cbn in H. assert (prefix a "" = true) by (apply prefix_iff; now exists post).
      congruence.
  - cbn [PyStr.contains]. destruct (prefix a (String d s)) eqn:E.
    + split; [intros _ | reflexivity].
      apply prefix_iff in E. destruct E as [post E]. now exists "", post.
    + rewrite IH. split.
      * intros (pre & post & ->). now exists (String d pre), post.
      * intros ([| c pre] & post & H).
        -- cbn in H. assert (prefix a (String d s) = true)
             by (apply prefix_iff; now exists post). congruence.
        -- injection H as _ ->. now exists pre, post.
Qed.

Lemma existsb_matches (lender_name : string) (p : Profile.t) :
  existsb (alias_matches (PyStr.strip (PyStr.lower lender_name))) (Profile.aliases p) = true
  <-> name_matches lender_name p.
Proof.
  unfold name_matches. rewrite existsb_exists.
  split; intros (alias & Hin & H); exists alias; (split; [exact Hin |]).
  - unfold alias_matches in H. apply orb_true_iff in H.
    destruct H as [H | H]; [left | right]; now apply contains_iff.
  - unfold alias_matches. apply orb_true_iff.
    destruct H as [H | H]; [left | right]; now apply contains_iff.
Qed.

End LenderSpec.

(** C7. The matcher returns the first profile, in the order of the
    directory, one of whose aliases is contained in the lower-cased, trimmed
    name or contains it; it returns nothing exactly when no profile has such
    an alias, in particular on the empty directory. *)
Theorem C7_identify_lender_first_match (profiles : Directory) (lender_name : string) :
  (forall p, identify_lender profiles lender_name = Some p <->
     exists before key after,
       profiles = before ++ (key, p) :: after
       /\ LenderSpec.name_matches lender_name p
       /\ forall k q, In (k, q) before -> ~ LenderSpec.name_matches lender_name q)
  /\ (identify_lender profiles lender_name = None <->
        forall k q, In (k, q) profiles -> ~ LenderSpec.name_matches lender_name q)
  /\ identify_lender [] lender_name = None.
Proof.
  split; [| split; [| reflexivity]].
  - induction profiles as [| [k0 p0] rest IH]; intros p.
    + cbn. split; [discriminate |].
      intros ([| x before] & key & after & H & _); discriminate.
    + cbn [identify_lender].
      destruct (existsb _ (Profile.aliases p0)) eqn:E.
      * split.
        -- intros H. injection H as <-. exists [], k0, rest.
           split; [reflexivity |]. split; [now apply LenderSpec.existsb_matches |].
           intros k q [].
        -- intros ([| x before] & key & after & H & Hm & Hb).
           ++ cbn in H. now injection H as _ <- _.
           ++ cbn in H. injection H as <- _. exfalso.
              apply (Hb k0 p0); [now left |].
              now apply LenderSpec.existsb_matches.
      * rewrite IH. split.
        -- intros (before & key & after & -> & Hm & Hb).
           exists ((k0, p0) :: before), key, after.
           split; [reflexivity |]. split; [exact Hm |].
           intros k q [Heq | Hin]; [| now apply (Hb k q)].
           injection Heq as <- <-. intros Hq.
           apply LenderSpec.existsb_matches in Hq. congruence.
        -- intros ([| x before] & key & after & H & Hm & Hb).
           ++ cbn in H. injection H as _ <- _.
              apply LenderSpec.existsb_matches in Hm. congruence.
           ++ cbn in H. injection H as <- ->.
              exists before, key, after. split; [reflexivity |].
              split; [exact Hm |]. intros k q Hin. apply (Hb k q). now right.
  - induction profiles as [| [k0 p0] rest IH].
    + cbn. split; [intros _ k q [] | reflexivity].
    + cbn [identify_lender].
      destruct (existsb _ (Profile.aliases p0)) eqn:E.
      * split; [discriminate |]. intros H. exfalso.
        apply (H k0 p0); [now left | now apply LenderSpec.existsb_matches].
      * rewrite IH. split.
        -- intros H k q [Heq | Hin]; [| now apply (H k q)].
           injection Heq as <- <-. intros Hq.
           apply LenderSpec.existsb_matches in Hq. congruence.
        -- intros H k q Hin. apply (H k q). now right.
Qed.

(** ** Facts about the stable sort *)

Section StableSortFacts.
Context {A : Type} (key : A -> Z).

Lemma insert_by_perm (x : A) (l : list A) :
  Permutation (insert_by key x l) (x :: l).
Proof.
  induction l as [| y l IH]; cbn; [reflexivity |].
  destruct (key x <=? key y); [reflexivity |].
  rewrite IH. apply perm_swap.
Qed.

Lemma sort_by_perm (l : list A) : Permutation (sort_by key l) l.
Proof.
  induction l as [| x l IH]; cbn; [reflexivity |].
  rewrite insert_by_perm. now constructor.
Qed.

Lemma sort_by_In (l : list A) (x : A) : In x (sort_by key l) <-> In x l.
Proof.
  split; apply Permutation_in; [| symmetry]; apply sort_by_perm.
Qed.

Definition key_le (a b : A) : Prop := key a <= key b.

Lemma insert_by_sorted (x : A) (l : list A) :
  StronglySorted key_le l -> StronglySorted key_le (insert_by key x l).
Proof.
  induction 1 as [| y l Hs IH Hall]; cbn.
  - repeat constructor.
  - destruct (key x <=? key y) eqn:E.
    + apply Z.leb_le in E. constructor; [now constructor |].
      constructor; [exact E |].
      eapply Forall_impl; [| exact Hall]. unfold key_le. intros; lia.
    + apply Z.leb_gt in E. constructor; [exact IH |].
      rewrite (insert_by_perm x l). constructor; [unfold key_le; lia | exact Hall].
Qed.

Lemma sort_by_sorted (l : list A) : StronglySorted key_le (sort_by key l).
Proof.
  induction l as [| x l IH]; cbn; [constructor | now apply insert_by_sorted].
Qed.

(** Stability: inside each key class the input order is kept. *)
Lemma insert_by_class (k : Z) (x : A) (l : list A) :
  StronglySorted key_le l ->
  filter (fun a => key a =? k) (insert_by key x l) =
  filter (fun a => key a =? k) (x :: l).
Proof.
  induction 1 as [| y l Hs IH Hall]; [reflexivity |].
  cbn [insert_by]. destruct (key x <=? key y) eqn:E; [reflexivity |].
  apply Z.leb_gt in E. cbn [filter]. rewrite IH. cbn [filter].
  destruct (key x =? k) eqn:Ex, (key y =? k) eqn:Ey; try reflexivity.
  apply Z.eqb_eq in Ex, Ey. lia.
Qed.

Lemma sort_by_class (k : Z) (l : list A) :
  filter (fun a => key a =? k) (sort_by key l) = filter (fun a => key a =? k) l.
Proof.
  induction l as [| x l IH]; [reflexivity |].
  cbn [sort_by fold_right]. rewrite insert_by_class by apply sort_by_sorted.
  cbn [filter]. fold (sort_by key l). now rewrite IH.
Qed.

End StableSortFacts.

(** ** Deduplication, ordering and truncation of the scenarios (C5) *)

Lemma existsb_eqb_In (x : Z) (l : list Z) :
  existsb (Z.eqb x) l = true <-> In x l.
Proof.
  rewrite existsb_exists. split.
  - intros (y & Hin & E). apply Z.eqb_eq in E. now subst.
  - intros H. exists x. split; [exact H | apply Z.eqb_refl].
Qed.

Lemma unique_by_term_first (seen : list Z) (l : list Scenario.t) (s : Scenario.t) :
  In s (unique_by_term seen l) ->
  ~ In (Scenario.term s) seen
  /\ find (fun x => Scenario.term x =? Scenario.term s) l = Some s.
Proof.
  revert seen. induction l as [| x rest IH]; intros seen; [intros [] |].
  cbn [unique_by_term find].
  destruct (existsb (Z.eqb (Scenario.term x)) seen) eqn:E.
  - intros H. destruct (IH _ H) as [Hs Hf]. split; [exact Hs |].
    apply existsb_eqb_In in E.
    destruct (Scenario.term x =? Scenario.term s) eqn:Ex; [| exact Hf].
    apply Z.eqb_eq in Ex. congruence.
  - assert (Hx : ~ In (Scenario.term x) seen).
    { intros H. apply existsb_eqb_In in H. congruence. }
    intros [<- | H].
    + split; [exact Hx |]. now rewrite Z.eqb_refl.
    + destruct (IH _ H) as [Hs Hf]. split.
      * intros Hin. apply Hs. now right.
      * destruct (Scenario.term x =? Scenario.term s) eqn:Ex; [| exact Hf].
        apply Z.eqb_eq in Ex. exfalso. apply Hs. now left.
Qed.

Lemma unique_by_term_NoDup (seen : list Z) (l : list Scenario.t) :
  NoDup (map Scenario.term (unique_by_term seen l)).
Proof.
  revert seen. induction l as [| x rest IH]; intros seen; [constructor |].
  cbn [unique_by_term].
  destruct (existsb (Z.eqb (Scenario.term x)) seen); [apply IH |].
  cbn [map]. constructor; [| apply IH].
  intros H. apply in_map_iff in H. destruct H as (s & Hterm & Hin).
  apply unique_by_term_first in Hin. destruct Hin as [Hs _].
  apply Hs. left. now symmetry.
Qed.

Lemma sorted_nodup_strict {A : Type} (key : A -> Z) (l : list A) :
  StronglySorted (key_le key) l -> NoDup (map key l) ->
  StronglySorted Z.lt (map key l).
Proof.
  induction 1 as [| x l Hs IH Hall]; cbn [map]; intros Hnd; [constructor |].
  inversion Hnd as [| ? ? Hnotin Hnd']; subst.
  constructor; [now apply IH |].
  apply Forall_forall. intros k Hk.
  apply in_map_iff in Hk. destruct Hk as (y & <- & Hy).
  rewrite Forall_forall in Hall. specialize (Hall y Hy). unfold key_le in Hall.
  assert (key x <> key y).
  { intros E. apply Hnotin. rewrite E. now apply in_map. }
  lia.
Qed.

Lemma In_firstn {A : Type} (n : nat) (l : list A) (x : A) :
  In x (firstn n l) -> In x l.
Proof.
  revert l. induction n as [| n IH]; intros [| y l]; cbn; try tauto.
  intros [H | H]; [now left | right; now apply IH].
Qed.

Lemma firstn_strict (n : nat) (l : list Z) :
  StronglySorted Z.lt l -> StronglySorted Z.lt (firstn n l).
Proof.
  intros H. revert n. induction H as [| x l Hs IH Hall]; intros [| n]; cbn;
    try constructor; [apply IH |].
  apply Forall_forall. intros y Hy. apply In_firstn in Hy.
  rewrite Forall_forall in Hall. now apply Hall.
Qed.

Lemma strict_NoDup (l : list Z) : StronglySorted Z.lt l -> NoDup l.
Proof.
  induction 1 as [| x l Hs IH Hall]; constructor; [| exact IH].
  intros Hin. rewrite Forall_forall in Hall. specialize (Hall x Hin). lia.
Qed.

(** What the last three steps ([unique_by_term], the sort by term and the
    slice [[:10]]) guarantee for any ranked list. *)
Lemma emitted_scenarios_spec (ranked : list Scenario.t) :
  let emitted := firstn 10 (sort_by Scenario.term (unique_by_term [] ranked)) in
  (List.length emitted <= 10)%nat
  /\ StronglySorted Z.lt (map Scenario.term emitted)
  /\ NoDup (map Scenario.term emitted)
  /\ forall s, In s emitted ->
       find (fun x => Scenario.term x =? Scenario.term s) ranked = Some s.
Proof.
  intros emitted.
  assert (Hstrict : StronglySorted Z.lt (map Scenario.term emitted)).
  { unfold emitted. rewrite <- firstn_map. apply firstn_strict.
    apply sorted_nodup_strict; [apply sort_by_sorted |].
    eapply Permutation_NoDup; [| apply (unique_by_term_NoDup [] ranked)].
    apply Permutation_map. symmetry. apply sort_by_perm. }
  split; [apply firstn_le_length |].
  split; [exact Hstrict |].
  split; [now apply strict_NoDup |].
  intros s Hs. unfold emitted in Hs. apply In_firstn in Hs.
  apply sort_by_In in Hs. now apply unique_by_term_first in Hs.
Qed.

(** *** Which terms survive *)

Lemma unique_by_term_terms (seen : list Z) (l : list Scenario.t) (t : Z) :
  In t (map Scenario.term (unique_by_term seen l)) <->
  In t (map Scenario.term l) /\ ~ In t seen.
Proof.
  revert seen. induction l as [| x l IH]; intros seen; cbn [unique_by_term map In].
  - tauto.
  - destruct (existsb (Z.eqb (Scenario.term x)) seen) eqn:E.
    + apply existsb_eqb_In in E. rewrite IH. split.
      * intros [H1 H2]. tauto.
      * intros [[<- | H1] H2]; [contradiction | tauto].
    + assert (Hx : ~ In (Scenario.term x) seen)
        by (intros H; apply existsb_eqb_In in H; congruence).
      cbn [map In]. rewrite IH. cbn [In]. split.
      * intros [<- | [H1 H2]]; [tauto |]. split; [tauto |]. intros H. apply H2. now right.
      * intros [[<- | H1] H2]; [now left |].
        destruct (Z.eq_dec (Scenario.term x) t) as [-> | Hne]; [now left |].
        right. split; [exact H1 |]. intros [H | H]; [contradiction | contradiction].
Qed.

Lemma perm_in_iff {A : Type} (x : A) (l l' : list A) :
  Permutation l l' -> (In x l <-> In x l').
Proof.
  intros H. split; apply Permutation_in; [exact H | now symmetry].
Qed.

Lemma sorted_unique_strict (ranked : list Scenario.t) :
  StronglySorted Z.lt
    (map Scenario.term (sort_by Scenario.term (unique_by_term [] ranked))).
Proof.
  apply sorted_nodup_strict; [apply sort_by_sorted |].
  eapply Permutation_NoDup; [| apply (unique_by_term_NoDup [] ranked)].
  apply Permutation_map. symmetry. apply sort_by_perm.
Qed.

Lemma sorted_unique_terms (ranked : list Scenario.t) (t : Z) :
  In t (map Scenario.term (sort_by Scenario.term (unique_by_term [] ranked))) <->
  In t (map Scenario.term ranked).
Proof.
  rewrite (perm_in_iff t _ _
             (Permutation_map Scenario.term (sort_by_perm Scenario.term _))).
  rewrite unique_by_term_terms. cbn [In]. tauto.
Qed.

Lemma strict_app_lt (l1 l2 : list Z) (x y : Z) :
  StronglySorted Z.lt (l1 ++ l2) -> In x l1 -> In y l2 -> x < y.
Proof.
  induction l1 as [| z l1 IH]; cbn [app]; intros Hs Hx Hy; [contradiction |].
  inversion Hs as [| ? ? Hs' Hall]; subst. destruct Hx as [<- | Hx].
  - rewrite Forall_forall in Hall. apply Hall, in_or_app. now right.
  - now apply IH.
Qed.

(** Nothing is lost before the slice: every term of the ranked list is
    among the emitted ones, unless ten shorter terms are. *)
Lemma emitted_covers_ranked (ranked : list Scenario.t) (s : Scenario.t) :
  let emitted := firstn 10 (sort_by Scenario.term (unique_by_term [] ranked)) in
  In s ranked ->
  In (Scenario.term s) (map Scenario.term emitted)
  \/ (List.length emitted = 10%nat
      /\ forall s', In s' emitted -> Scenario.term s' < Scenario.term s).
Proof.
  intros emitted Hs. unfold emitted. clear emitted.
  set (L := sort_by Scenario.term (unique_by_term [] ranked)).
  assert (Hin : In (Scenario.term s) (map Scenario.term L))
    by (apply sorted_unique_terms; now apply in_map).
  pose proof (sorted_unique_strict ranked) as Hstrict. fold L in Hstrict.
  rewrite <- (firstn_skipn 10 L) in Hin, Hstrict.
  rewrite map_app in Hin, Hstrict. apply in_app_or in Hin.
  destruct Hin as [Hin | Hin]; [now left | right].
  split.
  - rewrite length_firstn. apply Nat.min_l.
    destruct (Nat.le_gt_cases 10 (List.length L)) as [H | H]; [exact H |].
    rewrite skipn_all2 in Hin by lia. contradiction.
  - intros s' Hs'. apply (strict_app_lt _ _ _ _ Hstrict); [now apply in_map | exact Hin].
Qed.

(** ** Finite floats: where [round] cannot raise *)

Module FiniteFacts.

Definition sf_finite (x : spec_float) : Prop :=
  match x with
  | S754_zero _ | S754_finite _ _ _ => True
  | _ => False
  end.

Definition finite (x : float) : Prop := sf_finite (Prim2SF x).

Lemma round_finite (x : float) : finite x -> exists n, PyFloat.round x = Ok n.
Proof.
  unfold finite, PyFloat.round.
  destruct (Prim2SF x); cbn; intros H; try contradiction; eauto.
Qed.

(** A quotient by a positive finite divisor that lies between two finite
    bounds has a finite numerator. *)
Lemma sf_div_between (num o lo hi : spec_float) :
  SFltb (S754_zero false) o = true -> sf_finite o -> sf_finite hi ->
  SFleb lo (SF64div num o) = true -> SFleb (SF64div num o) hi = true ->
  sf_finite lo -> sf_finite num.
Proof.
  unfold SF64div, SFltb, SFleb.
  destruct o as [[|] | [|] | | [|] m e]; cbn; try discriminate; try contradiction;
  intros _ _ Hhi;
  destruct num as [[|] | [|] | | [|] m' e']; cbn; auto;
  destruct hi as [[|] | [|] | | [|] mh eh]; cbn in *; try contradiction; try discriminate;
  destruct lo as [[|] | [|] | | [|] ml el]; cbn; try discriminate; try contradiction; auto.
Qed.

(** A positive [o] for which [(o - d) / o] compares with anything is finite. *)
Lemma sf_minuend_finite (o d lo : spec_float) :
  SFltb (S754_zero false) o = true ->
  SFleb lo (SF64div (SF64sub o d) o) = true -> sf_finite o.
Proof.
  unfold SF64div, SF64sub, SFltb, SFleb.
  destruct o as [[|] | [|] | | [|] m e]; cbn; try discriminate; auto.
  intros _.
  destruct d as [[|] | [|] | | [|] m' e']; cbn;
    destruct lo as [[|] | [|] | | [|] ml el]; cbn; discriminate.
Qed.

Lemma div_between (num o lo hi : float) :
  PrimFloat.ltb zero o = true -> finite o -> finite lo -> finite hi ->
  PrimFloat.leb lo (PrimFloat.div num o) = true ->
  PrimFloat.leb (PrimFloat.div num o) hi = true ->
  finite num.
Proof.
  unfold finite. rewrite ltb_spec, !leb_spec, !div_spec, FloatFacts.SF_zero.
  intros Ho Hfo Hlo Hhi H1 H2. now apply (sf_div_between _ _ _ _ Ho Hfo Hhi H1 H2).
Qed.

Lemma minuend_finite (o d lo : float) :
  PrimFloat.ltb zero o = true ->
  PrimFloat.leb lo (PrimFloat.div (PrimFloat.sub o d) o) = true -> finite o.
Proof.
  unfold finite. rewrite ltb_spec, leb_spec, div_spec, sub_spec, FloatFacts.SF_zero.
  apply sf_minuend_finite.
Qed.

End FiniteFacts.

(** ** Candidate amounts and the fee filter (C6) *)

Module FeeSpec.

(** The candidate built from an amount: fee = amount - deposit,
    feePercent = fee / amount. *)
Definition candidate (deposit_amount orig : float) : Original.t :=
  Original.mk orig (PrimFloat.sub orig deposit_amount)
    (PrimFloat.div (PrimFloat.sub orig deposit_amount) orig).

(** feePercent in the closed interval from 0 to 0.10 *)
Definition fee_in_range (o : Original.t) : bool :=
  PrimFloat.leb zero (Original.fee_percent o)
  && PrimFloat.leb (Original.fee_percent o) 0.10.

(** The candidates that pass the fee filter, in the order of the amounts. *)
Definition retained (deposit_amount : float) : list Original.t :=
  filter fee_in_range
    (map (candidate deposit_amount) (get_possible_clean_amounts deposit_amount)).

(** The three bands of the fee score. *)
Definition band_best (x : float) : bool := PrimFloat.leb 0.03 x && PrimFloat.leb x 0.05.
Definition band_low (x : float) : bool := PrimFloat.leb zero x && PrimFloat.leb x 0.02.
Definition band_high (x : float) : bool := PrimFloat.leb 0.06 x && PrimFloat.leb x 0.10.

Definition in_some_band (x : float) : bool := band_best x || band_low x || band_high x.

Definition fee_key (o : Original.t) : Z := score_fee (Original.fee_percent o).

End FeeSpec.

Lemma candidates_positive (d p : float) :
  In p (get_possible_clean_amounts d) ->
  PrimFloat.leb d p = true /\ PrimFloat.ltb zero p = true.
Proof.
  unfold get_possible_clean_amounts. intros H. apply filter_In in H.
  destruct H as [_ H]. now apply andb_true_iff in H.
Qed.

Lemma originals_with_fees_spec (d : float) (cands : list float) :
  (forall p, In p cands -> PrimFloat.ltb zero p = true) ->
  originals_with_fees d cands =
  Ok (filter FeeSpec.fee_in_range (map (FeeSpec.candidate d) cands)).
Proof.
  induction cands as [| orig rest IH]; intros Hpos; [reflexivity |].
  cbn [originals_with_fees map filter].
  assert (Ho : PyFloat.truthy orig = true)
    by (apply FloatFacts.pos_truthy, Hpos; now left).
  rewrite (FloatFacts.truthy_div _ _ Ho). cbn [bind].
  rewrite IH by (intros p Hp; apply Hpos; now right).
  cbn [bind].
  change (FeeSpec.fee_in_range (FeeSpec.candidate d orig))
    with (PrimFloat.leb zero (PrimFloat.div (PrimFloat.sub orig d) orig)
          && PrimFloat.leb (PrimFloat.div (PrimFloat.sub orig d) orig) 0.10).
  destruct (_ && _); reflexivity.
Qed.

Lemma originals_with_fees_retained (d : float) :
  originals_with_fees d (get_possible_clean_amounts d) = Ok (FeeSpec.retained d).
Proof.
  apply originals_with_fees_spec. intros p Hp. now apply candidates_positive in Hp.
Qed.

(** What holds of every retained candidate. *)
Lemma retained_facts (d : float) (o : Original.t) :
  In o (FeeSpec.retained d) ->
  o = FeeSpec.candidate d (Original.original o)
  /\ PrimFloat.ltb zero (Original.original o) = true
  /\ PrimFloat.leb d (Original.original o) = true
  /\ PrimFloat.leb zero (Original.fee_percent o) = true
  /\ PrimFloat.leb (Original.fee_percent o) 0.10 = true.
Proof.
  unfold FeeSpec.retained. intros H. apply filter_In in H. destruct H as [Hin Hr].
  apply in_map_iff in Hin. destruct Hin as (p & <- & Hp).
  apply candidates_positive in Hp. destruct Hp as [Hle Hpos].
  apply andb_true_iff in Hr. destruct Hr as [H0 H1].
  cbn in *. repeat split; assumption.
Qed.

Lemma score_fee_bands (x : float) :
  (score_fee x = 1 <-> FeeSpec.band_best x = true)
  /\ (score_fee x = 2 <-> FeeSpec.band_best x = false /\ FeeSpec.band_low x = true)
  /\ (score_fee x = 3 <->
        FeeSpec.band_best x = false /\ FeeSpec.band_low x = false
        /\ FeeSpec.band_high x = true)
  /\ (score_fee x = 4 <-> FeeSpec.in_some_band x = false).
Proof.
  unfold score_fee, FeeSpec.in_some_band, FeeSpec.band_best, FeeSpec.band_low,
    FeeSpec.band_high.
  destruct (PrimFloat.leb 0.03 x && PrimFloat.leb x 0.05);
    destruct (PrimFloat.leb zero x && PrimFloat.leb x 0.02);
    destruct (PrimFloat.leb 0.06 x && PrimFloat.leb x 0.10); cbn;
    repeat split; intros; try discriminate; try tauto; try lia;
    repeat match goal with H : _ /\ _ |- _ => destruct H end; try discriminate.
Qed.

Lemma sorted_originals_spec (d : float) :
  sorted_originals d = Ok (sort_by FeeSpec.fee_key (FeeSpec.retained d)).
Proof.
  unfold sorted_originals. now rewrite originals_with_fees_retained.
Qed.

(** C6, as the code has it.  For every deposit amount the fee filter keeps
    exactly the candidates whose feePercent is between 0 and 0.10; each is
    ranked 1 when its feePercent is in the band from 0.03 to 0.05, else 2
    in the band from 0 to 0.02, else 3 in the band from 0.06 to 0.10, and 4
    when it is in none of them; the candidates are then in ascending rank,
    and inside a rank in the order of the amounts (the sort is stable). *)
Theorem C6_fee_ranking (deposit_amount : float) :
  let ranked := sort_by FeeSpec.fee_key (FeeSpec.retained deposit_amount) in
  sorted_originals deposit_amount = Ok ranked
  /\ Permutation ranked (FeeSpec.retained deposit_amount)
  /\ (forall o, In o ranked ->
        FeeSpec.fee_in_range o = true
        /\ (FeeSpec.fee_key o = 1 <-> FeeSpec.band_best (Original.fee_percent o) = true)
        /\ (FeeSpec.fee_key o = 2 <->
              FeeSpec.band_best (Original.fee_percent o) = false
              /\ FeeSpec.band_low (Original.fee_percent o) = true)
        /\ (FeeSpec.fee_key o = 3 <->
              FeeSpec.band_best (Original.fee_percent o) = false
              /\ FeeSpec.band_low (Original.fee_percent o) = false
              /\ FeeSpec.band_high (Original.fee_percent o) = true)
        /\ (FeeSpec.fee_key o = 4 <->
              FeeSpec.in_some_band (Original.fee_percent o) = false))
  /\ StronglySorted (key_le FeeSpec.fee_key) ranked
  /\ (forall k,
        filter (fun o => FeeSpec.fee_key o =? k) ranked =
        filter (fun o => FeeSpec.fee_key o =? k) (FeeSpec.retained deposit_amount)).
Proof.
  intros ranked.
  split; [apply sorted_originals_spec |].
  split; [apply sort_by_perm |].
  split; [| split; [apply sort_by_sorted | intros k; apply sort_by_class]].
  intros o Ho. apply sort_by_In in Ho.
  split.
  - unfold FeeSpec.retained in Ho. apply filter_In in Ho. tauto.
  - apply score_fee_bands.
Qed.

(** The claim C6 as stated, at one deposit amount: every retained candidate
    has its feePercent in one of the three bands. *)
Definition retained_in_bands (deposit_amount : float) : Prop :=
  forall originals o,
    originals_with_fees deposit_amount
      (get_possible_clean_amounts deposit_amount) = Ok originals ->
    In o originals ->
    FeeSpec.in_some_band (Original.fee_percent o) = true.

(** A deposit of 48,750 keeps the candidate 50,000, whose feePercent 0.025
    lies between the bands: it is retained with rank 4. *)
Lemma C6_fee_between_bands :
  originals_with_fees 48750 (get_possible_clean_amounts 48750) =
    Ok [FeeSpec.candidate 48750 50000]
  /\ Original.fee_percent (FeeSpec.candidate 48750 50000) = 0.025%float
  /\ score_fee 0.025 = 4
  /\ ~ retained_in_bands 48750.
Proof.
  assert (E : originals_with_fees 48750 (get_possible_clean_amounts 48750) =
              Ok [FeeSpec.candidate 48750 50000]) by (vm_compute; reflexivity).
  split; [exact E |].
  split; [vm_compute; reflexivity |].
  split; [vm_compute; reflexivity |].
  intros H. specialize (H _ (FeeSpec.candidate 48750 50000) E (or_introl eq_refl)).
  vm_compute in H. discriminate.
Qed.

(** ** Scenario generation: where the scenarios come from, and that it
    cannot raise *)

Lemma mapM_In {A B : Type} (f : A -> exc B) (l : list A) (bs : list B) (b : B) :
  mapM f l = Ok bs -> In b bs -> exists a, In a l /\ f a = Ok b.
Proof.
  revert bs. induction l as [| a l IH]; intros bs; cbn.
  - intros H. injection H as <-. intros [].
  - destruct (f a) as [b0 |] eqn:Ea; cbn [bind]; [| discriminate].
    destruct (mapM f l) as [bs0 |]; cbn [bind]; [| discriminate].
    intros H. injection H as <-. intros [<- | Hin].
    + exists a. split; [now left | exact Ea].
    + destruct (IH bs0 eq_refl Hin) as (a' & Ha & E). exists a'. split; [now right | exact E].
Qed.

Lemma mapM_total {A B : Type} (f : A -> exc B) (l : list A) :
  (forall a, In a l -> exists b, f a = Ok b) -> exists bs, mapM f l = Ok bs.
Proof.
  induction l as [| a l IH]; intros H; cbn; [eauto |].
  destruct (H a (or_introl eq_refl)) as [b ->]. cbn [bind].
  destruct IH as [bs ->]; [intros a' Ha; apply H; now right |].
  cbn [bind]. eauto.
Qed.

Lemma mapM_length {A B : Type} (f : A -> exc B) (l : list A) (bs : list B) :
  mapM f l = Ok bs -> List.length bs = List.length l.
Proof.
  revert bs. induction l as [| a l IH]; intros bs; cbn.
  - intros H. now injection H as <-.
  - destruct (f a); cbn [bind]; [| discriminate].
    destruct (mapM f l) as [bs0 |]; cbn [bind]; [| discriminate].
    intros H. injection H as <-. cbn. now rewrite (IH bs0 eq_refl).
Qed.

Lemma keep_some_In {A : Type} (l : list (option A)) (a : A) :
  In a (keep_some l) <-> In (Some a) l.
Proof.
  induction l as [| [x |] l IH]; cbn; [tauto | |].
  - rewrite IH. split; intros [H | H]; auto; left; congruence.
  - rewrite IH. split; [auto | intros [H | H]; [discriminate | exact H]].
Qed.

Lemma generate_scenarios_In (d payment : float) (f : Frequency)
    (originals : list Original.t) (ss : list Scenario.t) (s : Scenario.t) :
  generate_scenarios d payment f originals = Ok ss -> In s ss ->
  exists o t, In o originals /\ In t (terms_of f)
              /\ scenario_for d payment f o t = Ok (Some s).
Proof.
  unfold generate_scenarios.
  destruct (mapM _ originals) as [rows |] eqn:E; cbn [bind]; [| discriminate].
  intros H. injection H as <-. intros Hin.
  apply in_concat in Hin. destruct Hin as (row & Hrow & Hs).
  destruct (mapM_In _ _ _ _ E Hrow) as (o & Ho & Eo).
  destruct (mapM (scenario_for d payment f o) (terms_of f)) as [r |] eqn:Er;
    cbn [bind] in Eo; [| discriminate].
  injection Eo as <-. apply keep_some_In in Hs.
  destruct (mapM_In _ _ _ _ Er Hs) as (t & Ht & Et).
  now exists o, t.
Qed.

Lemma finite_consts :
  FiniteFacts.finite zero /\ FiniteFacts.finite 0.10
  /\ FiniteFacts.finite 1.20 /\ FiniteFacts.finite 1.60.
Proof. repeat split. Qed.

Lemma scenario_for_total (d payment : float) (f : Frequency) (o : Original.t) (t : Z) :
  In o (FeeSpec.retained d) -> exists r, scenario_for d payment f o t = Ok r.
Proof.
  intros Ho. destruct (retained_facts d o Ho) as (Eo & Hpos & _ & H0 & H1).
  destruct finite_consts as (F0 & F10 & F120 & F160).
  assert (Efp : Original.fee_percent o =
                PrimFloat.div (PrimFloat.sub (Original.original o) d) (Original.original o))
    by (rewrite Eo at 1; reflexivity).
  assert (Efee : Original.fee o = PrimFloat.sub (Original.original o) d)
    by (rewrite Eo at 1; reflexivity).
  assert (Forig : FiniteFacts.finite (Original.original o)).
  { rewrite Efp in H0. exact (FiniteFacts.minuend_finite _ _ _ Hpos H0). }
  assert (Ffee : FiniteFacts.finite (Original.fee o)).
  { rewrite Efee. rewrite Efp in H0, H1.
    exact (FiniteFacts.div_between _ _ _ _ Hpos Forig F0 F10 H0 H1). }
  unfold scenario_for, raw_factor.
  rewrite (FloatFacts.truthy_div _ _ (FloatFacts.pos_truthy _ Hpos)). cbn [bind].
  destruct (factor_in_band _) eqn:Eb; [| eauto].
  unfold factor_in_band in Eb. apply andb_true_iff in Eb. destruct Eb as [B1 B2].
  assert (Ftp : FiniteFacts.finite (PrimFloat.mul payment (PyFloat.of_Z t)))
    by exact (FiniteFacts.div_between _ _ _ _ Hpos Forig F120 F160 B1 B2).
  destruct (FiniteFacts.round_finite _ Forig) as [n1 ->].
  destruct (FiniteFacts.round_finite _ Ffee) as [n2 ->].
  destruct (FiniteFacts.round_finite _ Ftp) as [n3 ->].
  cbn [bind]. eauto.
Qed.

Lemma generate_scenarios_total (d payment : float) (f : Frequency)
    (originals : list Original.t) :
  (forall o, In o originals -> In o (FeeSpec.retained d)) ->
  exists ss, generate_scenarios d payment f originals = Ok ss.
Proof.
  intros H. unfold generate_scenarios.
  destruct (mapM_total
              (fun orig_data =>
                 row <- mapM (scenario_for d payment f orig_data) (terms_of f) ;;
                 Ok (keep_some row)) originals) as [rows ->].
  - intros o Ho.
    destruct (mapM_total (scenario_for d payment f o) (terms_of f)) as [row ->].
    + intros t _. apply scenario_for_total. now apply H.
    + cbn [bind]. eauto.
  - cbn [bind]. eauto.
Qed.

(** ** Formatting and reading back: [float(format(x, '.kf'))] cannot raise *)

Module FormatFacts.
Import PyStr.
Local Open Scope string_scope.

Lemma digit_not_mark (a : ascii) :
  is_digit a = true ->
  Ascii.eqb a "." = false /\ Ascii.eqb a "-" = false /\ Ascii.eqb a "+" = false.
Proof.
  destruct a as [[] [] [] [] [] [] [] []]; vm_compute; intros H;
    try discriminate; repeat split.
Qed.

Lemma digit_char_is_digit (d : Z) : is_digit (digit_char (d mod 10)) = true.
Proof.
  assert (H : (0 <= d mod 10 < 10)%Z) by (apply Z.mod_pos_bound; lia).
  assert (E : (d mod 10 = 0 \/ d mod 10 = 1 \/ d mod 10 = 2 \/ d mod 10 = 3
               \/ d mod 10 = 4 \/ d mod 10 = 5 \/ d mod 10 = 6 \/ d mod 10 = 7
               \/ d mod 10 = 8 \/ d mod 10 = 9)%Z) by lia.
  repeat (destruct E as [-> | E]; [reflexivity |]). now rewrite E.
Qed.

Lemma dec_digits_all (fuel : nat) (n : Z) (acc : string) :
  all_digits acc = true -> all_digits (dec_digits fuel n acc) = true.
Proof.
  revert n acc. induction fuel as [| fuel IH]; intros n acc H; cbn; [exact H |].
  assert (H' : all_digits (String (digit_char (n mod 10)) acc) = true)
    by (cbn; now rewrite digit_char_is_digit).
  destruct (n <? 10)%Z; [exact H' | now apply IH].
Qed.

Lemma append_assoc (a b c : string) : (a ++ b) ++ c = a ++ (b ++ c).
Proof. induction a as [| x a IH]; cbn; [reflexivity | now rewrite IH]. Qed.

Lemma dec_digits_acc (fuel : nat) (n : Z) (acc : string) :
  exists pre, dec_digits fuel n acc = pre ++ acc.
Proof.
  revert n acc. induction fuel as [| fuel IH]; intros n acc; cbn.
  - now exists "".
  - destruct (n <? 10)%Z.
    + now exists (String (digit_char (n mod 10)) "").
    + destruct (IH (n / 10)%Z (String (digit_char (n mod 10)) acc)) as [pre ->].
      exists (pre ++ String (digit_char (n mod 10)) "").
      now rewrite append_assoc.
Qed.

Lemma dec_string_nonempty (n : Z) : dec_string n <> "".
Proof.
  unfold dec_string. cbn [dec_digits].
  destruct (n <? 10)%Z; [discriminate |].
  destruct (dec_digits_acc (Z.to_nat (Z.log2 n)) (n / 10)
              (String (digit_char (n mod 10)) "")) as [pre ->].
  destruct pre; discriminate.
Qed.

Lemma frac_digits_all (k : nat) (n : Z) (acc : string) :
  all_digits acc = true -> all_digits (frac_digits k n acc) = true.
Proof.
  revert n acc. induction k as [| k IH]; intros n acc H; cbn; [exact H |].
  apply IH. cbn. now rewrite digit_char_is_digit.
Qed.

Lemma split_dot_digits (ds fs : string) :
  all_digits ds = true -> split_dot (ds ++ String "." fs) = (ds, Some fs).
Proof.
  induction ds as [| a ds IH]; cbn; [reflexivity |].
  intros H. apply andb_true_iff in H. destruct H as [Ha Hds].
  destruct (digit_not_mark a Ha) as (-> & _ & _). now rewrite IH.
Qed.

Lemma all_digits_app (a b : string) :
  all_digits (a ++ b) = all_digits a && all_digits b.
Proof.
  induction a as [| c a IH]; cbn; [reflexivity |]. now rewrite IH, andb_assoc.
Qed.

Lemma to_float_unsigned (ds fs : string) :
  all_digits ds = true -> all_digits fs = true -> ds <> "" ->
  forall neg : bool, split_sign ((if neg then "-" else "") ++ ds ++ "." ++ fs) =
              (neg, ds ++ "." ++ fs).
Proof.
  intros Hds Hfs Hne [|]; [reflexivity |].
  destruct ds as [| a ds]; [congruence |]. cbn in Hds.
  apply andb_true_iff in Hds. destruct Hds as [Ha _].
  destruct (digit_not_mark a Ha) as (_ & E1 & E2).
  cbn. now rewrite E1, E2.
Qed.

(** *** Plain numerals

    On a text of digits, points and minus signs [float] has nothing to
    strip and no exponent to read: it is the reader [read_plain]. *)

Definition plain_char (a : ascii) : bool :=
  is_digit a || Ascii.eqb a "." || Ascii.eqb a "-".

Fixpoint all_plain (s : string) : bool :=
  match s with
  | EmptyString => true
  | String a s' => plain_char a && all_plain s'
  end.

Definition read_plain (s : string) : exc float :=
  let '(neg, body) := split_sign s in
  let '(ip, fo) := split_dot body in
  let fp := match fo with Some f => f | None => EmptyString end in
  if all_digits ip && all_digits fp
     && negb (Nat.eqb (length ip + length fp) 0)
  then
    let n := digits_val 0 (ip ++ fp) in
    match n with
    | Z0 => Ok (if neg then neg_zero else zero)
    | _ => Ok (PyFloat.of_ratio (if neg then - n else n)
                 (Z.to_pos (10 ^ Z.of_nat (length fp))))
    end
  else Raise ValueError.

Lemma plain_char_facts (a : ascii) :
  plain_char a = true ->
  float_space a = false /\ Ascii.eqb a "_" = false
  /\ (Ascii.eqb a "e" || Ascii.eqb a "E") = false
  /\ Ascii.eqb (lower_char a) "i" = false
  /\ Ascii.eqb (lower_char a) "n" = false.
Proof.
  destruct a as [[] [] [] [] [] [] [] []]; vm_compute; intros H;
    try discriminate H; repeat split.
Qed.

Lemma all_plain_app (a b : string) :
  all_plain (a ++ b) = all_plain a && all_plain b.
Proof.
  induction a as [| c a IH]; cbn; [reflexivity |]. now rewrite IH, andb_assoc.
Qed.

Lemma all_digits_plain (s : string) : all_digits s = true -> all_plain s = true.
Proof.
  induction s as [| a s IH]; cbn; [reflexivity |].
  intros H. apply andb_true_iff in H. destruct H as [Ha Hs].
  unfold plain_char. rewrite Ha. cbn. now apply IH.
Qed.

Lemma lstrip_by_plain (s : string) :
  all_plain s = true -> lstrip_by float_space s = s.
Proof.
  destruct s as [| a s]; cbn; [reflexivity |].
  intros H. apply andb_true_iff in H. destruct H as [Ha _].
  destruct (plain_char_facts a Ha) as (-> & _). reflexivity.
Qed.

Lemma rstrip_by_plain (s : string) :
  all_plain s = true -> rstrip_by float_space s = s.
Proof.
  induction s as [| a s IH]; cbn; [reflexivity |].
  intros H. apply andb_true_iff in H. destruct H as [Ha Hs].
  rewrite (IH Hs). destruct (plain_char_facts a Ha) as (-> & _).
  destruct s; reflexivity.
Qed.

Lemma strip_underscores_plain (s : string) (prev : option ascii) :
  all_plain s = true ->
  match prev with Some p => Ascii.eqb p "_" | None => false end = false ->
  strip_underscores prev s = Some s.
Proof.
  revert prev. induction s as [| a s IH]; intros prev H Hp; cbn.
  - destruct prev as [p |]; [| reflexivity]. now rewrite Hp.
  - cbn in H. apply andb_true_iff in H. destruct H as [Ha Hs].
    destruct (plain_char_facts a Ha) as (_ & Eu & _).
    rewrite Eu, Hp. cbn [andb]. now rewrite (IH (Some a) Hs Eu).
Qed.

Lemma split_exp_plain (s : string) :
  all_plain s = true -> split_exp s = (s, None).
Proof.
  induction s as [| a s IH]; cbn; [reflexivity |].
  intros H. apply andb_true_iff in H. destruct H as [Ha Hs].
  destruct (plain_char_facts a Ha) as (_ & _ & -> & _). now rewrite (IH Hs).
Qed.

Lemma plain_not_a_name (s : string) :
  all_plain s = true ->
  String.eqb (lower s) "inf" = false
  /\ String.eqb (lower s) "infinity" = false
  /\ String.eqb (lower s) "nan" = false.
Proof.
  destruct s as [| a s]; [repeat split |].
  cbn. intros H. apply andb_true_iff in H. destruct H as [Ha _].
  destruct (plain_char_facts a Ha) as (_ & _ & _ & -> & ->). repeat split.
Qed.

Lemma split_sign_plain (s : string) :
  all_plain s = true -> all_plain (snd (split_sign s)) = true.
Proof.
  destruct s as [| a s]; [reflexivity |]. intros H. cbn.
  destruct (Ascii.eqb a "-"); [| destruct (Ascii.eqb a "+")]; cbn [snd];
    try exact H; cbn in H; apply andb_true_iff in H; apply H.
Qed.

Lemma decimal_value_plain (neg : bool) (ip fp : string) :
  decimal_value neg ip fp 0 =
  match digits_val 0 (ip ++ fp) with
  | Z0 => if neg then neg_zero else zero
  | _ => PyFloat.of_ratio
           (if neg then - digits_val 0 (ip ++ fp) else digits_val 0 (ip ++ fp))
           (Z.to_pos (10 ^ Z.of_nat (length fp)))
  end.
Proof.
  unfold decimal_value.
  destruct (digits_val 0 (ip ++ fp)) as [| p | p]; [reflexivity | |].
  all: replace (0 <? 0 - Z.of_nat (length fp))%Z with false
         by (symmetry; apply Z.ltb_ge; lia).
  all: replace (- (0 - Z.of_nat (length fp)))%Z with (Z.of_nat (length fp)) by lia.
  all: reflexivity.
Qed.

Lemma to_float_read_plain (s : string) :
  all_plain s = true -> to_float s = read_plain s.
Proof.
  intros H. unfold to_float, read_plain.
  rewrite (lstrip_by_plain s H), (rstrip_by_plain s H).
  rewrite (strip_underscores_plain s None H eq_refl).
  pose proof (split_sign_plain s H) as Hb.
  destruct (split_sign s) as [neg body]. cbn [snd] in Hb.
  destruct (plain_not_a_name body Hb) as (-> & -> & ->). cbn [orb].
  rewrite (split_exp_plain body Hb).
  destruct (split_dot body) as [ip fo]. cbn [exponent_val].
  destruct (_ && _); [| reflexivity].
  rewrite decimal_value_plain. cbv zeta.
  destruct (digits_val 0 _); reflexivity.
Qed.

Lemma to_float_numeral (neg : bool) (ds fs : string) :
  all_digits ds = true -> all_digits fs = true -> ds <> "" ->
  exists y, to_float ((if neg then "-" else "") ++ ds ++ "." ++ fs) = Ok y.
Proof.
  intros Hds Hfs Hne.
  rewrite to_float_read_plain.
  2:{ rewrite !all_plain_app, (all_digits_plain ds Hds), (all_digits_plain fs Hfs).
      destruct neg; reflexivity. }
  unfold read_plain.
  rewrite (to_float_unsigned ds fs Hds Hfs Hne neg).
  change (ds ++ "." ++ fs) with (ds ++ String "." fs).
  rewrite (split_dot_digits ds fs Hds). rewrite Hds, Hfs.
  destruct ds as [| a ds]; [congruence |]. cbn [length Nat.add Nat.eqb andb negb].
  destruct (digits_val 0 _); eauto.
Qed.

(** Whatever the float, the text that formatting gives can be read back. *)
Lemma to_float_format (k : nat) (x : float) :
  exists y, to_float (format_fixed k x) = Ok y.
Proof.
  unfold format_fixed.
  destruct (Prim2SF x) as [s | s | | s m e].
  - apply to_float_numeral;
      [apply dec_digits_all | apply frac_digits_all | apply dec_string_nonempty];
      reflexivity.
  - destruct s; eexists; reflexivity.
  - eexists; reflexivity.
  - apply to_float_numeral;
      [apply dec_digits_all | apply frac_digits_all | apply dec_string_nonempty];
      reflexivity.
Qed.

End FormatFacts.

(** ** From the candidates to the emitted scenarios *)

(** [s] reconstructs the deposit from the candidate [o] and the term [t]:
    its factor, before formatting, is [payment * t / original]. *)
Definition reconstructs (d payment : float) (f : Frequency) (o : Original.t)
    (t : Z) (s : Scenario.t) : Prop :=
  exists factor,
    raw_factor payment t (Original.original o) = Ok factor
    /\ factor_in_band factor = true
    /\ Scenario.term s = t
    /\ Scenario.payment s = payment
    /\ Scenario.frequency s = f
    /\ Scenario.deposit s = d
    /\ PyFloat.round (Original.original o) = Ok (Scenario.originalFunding s)
    /\ PyFloat.round (Original.fee o) = Ok (Scenario.fee s)
    /\ Scenario.factor s = PyStr.format_fixed 2 factor
    /\ Scenario.feePercent s =
         PyStr.format_fixed 1 (PrimFloat.mul (Original.fee_percent o) 100).

Lemma scenario_for_some (d payment : float) (f : Frequency) (o : Original.t)
    (t : Z) (s : Scenario.t) :
  scenario_for d payment f o t = Ok (Some s) -> reconstructs d payment f o t s.
Proof.
  unfold scenario_for, reconstructs.
  destruct (raw_factor payment t (Original.original o)) as [factor |] eqn:Ef;
    cbn [bind]; [| discriminate].
  destruct (factor_in_band factor) eqn:Eb; [| discriminate].
  destruct (PyFloat.round (Original.original o)) as [n1 |]; cbn [bind]; [| discriminate].
  destruct (PyFloat.round (Original.fee o)) as [n2 |]; cbn [bind]; [| discriminate].
  destruct (PyFloat.round _) as [n3 |]; cbn [bind]; [| discriminate].
  intros H. injection H as <-. exists factor. cbn. repeat split; assumption.
Qed.

Lemma score_scenario_reconstructs (p : Profile.t) (f : Frequency)
    (s s' : Scenario.t) (d payment : float) (f0 : Frequency) (o : Original.t) (t : Z) :
  score_scenario p f s = Ok s' ->
  reconstructs d payment f0 o t s -> reconstructs d payment f0 o t s'.
Proof.
  unfold score_scenario.
  destruct (PyStr.to_float (Scenario.factor s)); cbn [bind]; [| discriminate].
  destruct (PyStr.to_float (Scenario.feePercent s)); cbn [bind]; [| discriminate].
  intros H. injection H as <-. intros (factor & H). exists factor. exact H.
Qed.

Lemma score_scenario_term (p : Profile.t) (f : Frequency) (s s' : Scenario.t) :
  score_scenario p f s = Ok s' -> Scenario.term s' = Scenario.term s.
Proof.
  unfold score_scenario.
  destruct (PyStr.to_float (Scenario.factor s)); cbn [bind]; [| discriminate].
  destruct (PyStr.to_float (Scenario.feePercent s)); cbn [bind]; [| discriminate].
  intros H. now injection H as <-.
Qed.

Lemma score_scenario_total (p : Profile.t) (f : Frequency) (s : Scenario.t)
    (d payment : float) (f0 : Frequency) (o : Original.t) (t : Z) :
  reconstructs d payment f0 o t s -> exists s', score_scenario p f s = Ok s'.
Proof.
  intros (factor & _ & _ & _ & _ & _ & _ & _ & _ & Ef & Ep).
  unfold score_scenario. rewrite Ef, Ep.
  destruct (FormatFacts.to_float_format 2 factor) as [x ->].
  destruct (FormatFacts.to_float_format 1
              (PrimFloat.mul (Original.fee_percent o) 100)) as [y ->].
  cbn [bind]. eauto.
Qed.

(** The provenance of every scenario of the ranked list. *)
Lemma ranked_scenarios_In (profiles : Directory) (deposit : LastDeposit.t)
    (payment : float) (f : Frequency) (ranked : list Scenario.t) (s : Scenario.t) :
  ranked_scenarios profiles deposit payment f = Ok ranked -> In s ranked ->
  exists o t,
    In o (FeeSpec.retained (LastDeposit.amount deposit))
    /\ In t (terms_of f)
    /\ reconstructs (LastDeposit.amount deposit) payment f o t s.
Proof.
  unfold ranked_scenarios. rewrite sorted_originals_spec. cbn [bind].
  destruct (generate_scenarios _ payment f _) as [ss |] eqn:Eg; cbn [bind];
    [| discriminate].
  unfold _prioritize_with_lender_knowledge.
  destruct (mapM _ ss) as [scored |] eqn:Em; cbn [bind]; [| discriminate].
  intros H. injection H as <-. intros Hin. apply sort_by_In in Hin.
  destruct (mapM_In _ _ _ _ Em Hin) as (s0 & Hs0 & Es0).
  destruct (generate_scenarios_In _ _ _ _ _ _ Eg Hs0) as (o & t & Ho & Ht & Hs).
  exists o, t. apply sort_by_In in Ho. split; [exact Ho |]. split; [exact Ht |].
  eapply score_scenario_reconstructs; [exact Es0 |]. now apply scenario_for_some.
Qed.

(** The reconstruction never raises. *)
Lemma ranked_scenarios_total (profiles : Directory) (deposit : LastDeposit.t)
    (payment : float) (f : Frequency) :
  exists ranked, ranked_scenarios profiles deposit payment f = Ok ranked.
Proof.
  unfold ranked_scenarios. rewrite sorted_originals_spec. cbn [bind].
  destruct (generate_scenarios_total (LastDeposit.amount deposit) payment f
              (sort_by FeeSpec.fee_key (FeeSpec.retained (LastDeposit.amount deposit))))
    as [ss Eg]; [intros o Ho; now apply sort_by_In in Ho |].
  rewrite Eg. cbn [bind]. unfold _prioritize_with_lender_knowledge.
  destruct (mapM_total
              (score_scenario
                 match identify_lender profiles (LastDeposit.lender deposit) with
                 | Some p => p
                 | None => default_profile f
                 end f) ss) as [scored ->].
  - intros s Hs.
    destruct (generate_scenarios_In _ _ _ _ _ _ Eg Hs) as (o & t & _ & _ & Hst).
    apply scenario_for_some in Hst. eapply score_scenario_total; exact Hst.
  - cbn [bind]. eauto.
Qed.

Lemma analyze_last_position_total (profiles : Directory) (deposit : LastDeposit.t)
    (payment : float) (f : Frequency) (revenue : float) :
  exists a, analyze_last_position profiles deposit payment f revenue = Ok a.
Proof.
  unfold analyze_last_position.
  destruct (ranked_scenarios_total profiles deposit payment f) as [ranked ->].
  cbn [bind]. eauto.
Qed.

Lemma analyze_last_position_scenarios (profiles : Directory) (deposit : LastDeposit.t)
    (payment : float) (f : Frequency) (revenue : float) (ranked : list Scenario.t) :
  ranked_scenarios profiles deposit payment f = Ok ranked ->
  analyze_last_position profiles deposit payment f revenue =
  Ok (Analysis.mk (firstn 10 (sort_by Scenario.term (unique_by_term [] ranked)))
        (identify_lender profiles (LastDeposit.lender deposit)) deposit).
Proof. intros H. unfold analyze_last_position. now rewrite H. Qed.

(** C4. For every deposit, payment, frequency and directory the
    reconstructor returns, and every scenario it emits comes from a
    candidate amount kept by the fee filter ([originalFunding] is that
    amount, rounded) and one term, with the unformatted factor
    payment * term / amount between 1.20 and 1.60 and the fee percent
    (amount - deposit) / amount between 0 and 0.10. *)
Theorem C4_factor_and_fee_bounds (profiles : Directory) (deposit : LastDeposit.t)
    (payment : float) (frequency : Frequency) (revenue : float) :
  exists a,
    analyze_last_position profiles deposit payment frequency revenue = Ok a
    /\ forall s, In s (Analysis.scenarios a) ->
         exists amount,
           let factor :=
             PrimFloat.div (PrimFloat.mul payment (PyFloat.of_Z (Scenario.term s))) amount in
           let fee_percent :=
             PrimFloat.div (PrimFloat.sub amount (LastDeposit.amount deposit)) amount in
           In amount (get_possible_clean_amounts (LastDeposit.amount deposit))
           /\ PyFloat.round amount = Ok (Scenario.originalFunding s)
           /\ PrimFloat.leb 1.20 factor = true
           /\ PrimFloat.leb factor 1.60 = true
           /\ PrimFloat.leb zero fee_percent = true
           /\ PrimFloat.leb fee_percent 0.10 = true.
Proof.
  destruct (ranked_scenarios_total profiles deposit payment frequency) as [ranked Er].
  eexists. split; [apply (analyze_last_position_scenarios _ _ _ _ _ _ Er) |].
  cbn [Analysis.scenarios]. intros s Hs.
  apply In_firstn in Hs. apply sort_by_In in Hs.
  apply unique_by_term_first in Hs. destruct Hs as [_ Hs]. apply find_some in Hs.
  destruct Hs as [Hs _].
  destruct (ranked_scenarios_In _ _ _ _ _ _ Er Hs) as (o & t & Ho & _ & Hrec).
  destruct Hrec as (factor & Ef & Eb & Et & _ & _ & _ & Er1 & _).
  destruct (retained_facts _ _ Ho) as (Eo & Hpos & _ & H0 & H1).
  exists (Original.original o). cbn zeta.
  unfold raw_factor in Ef.
  rewrite (FloatFacts.truthy_div _ _ (FloatFacts.pos_truthy _ Hpos)) in Ef.
  injection Ef as <-. rewrite Et.
  unfold factor_in_band in Eb. apply andb_true_iff in Eb. destruct Eb as [B1 B2].
  assert (Efp : Original.fee_percent o =
                PrimFloat.div
                  (PrimFloat.sub (Original.original o) (LastDeposit.amount deposit))
                  (Original.original o))
    by (rewrite Eo at 1; reflexivity).
  rewrite Efp in H0, H1.
  unfold FeeSpec.retained in Ho. apply filter_In in Ho. destruct Ho as [Ho _].
  apply in_map_iff in Ho. destruct Ho as (p & <- & Hp). cbn in *.
  repeat split; assumption.
Qed.

(** C5. For every deposit, payment, frequency and directory the
    reconstructor returns at most 10 scenarios, no two of them with the same
    term, in strictly ascending order of term.  Each one is the first
    scenario with its term in the ranked list handed to the deduplication,
    and no term of that list is dropped except by the cut after the tenth
    scenario: a ranked scenario has its term among the emitted ones, or ten
    scenarios are emitted and all have a shorter term. *)
Theorem C5_distinct_ascending_terms (profiles : Directory) (deposit : LastDeposit.t)
    (payment : float) (frequency : Frequency) (revenue : float) :
  exists a ranked,
    analyze_last_position profiles deposit payment frequency revenue = Ok a
    /\ ranked_scenarios profiles deposit payment frequency = Ok ranked
    /\ (List.length (Analysis.scenarios a) <= 10)%nat
    /\ NoDup (map Scenario.term (Analysis.scenarios a))
    /\ StronglySorted Z.lt (map Scenario.term (Analysis.scenarios a))
    /\ (forall s, In s (Analysis.scenarios a) ->
          find (fun x => Scenario.term x =? Scenario.term s) ranked = Some s)
    /\ (forall s, In s ranked ->
          In (Scenario.term s) (map Scenario.term (Analysis.scenarios a))
          \/ (List.length (Analysis.scenarios a) = 10%nat
              /\ forall s', In s' (Analysis.scenarios a) ->
                   Scenario.term s' < Scenario.term s)).
Proof.
  destruct (ranked_scenarios_total profiles deposit payment frequency) as [ranked Er].
  eexists. exists ranked.
  split; [apply (analyze_last_position_scenarios _ _ _ _ _ _ Er) |].
  split; [exact Er |]. cbn [Analysis.scenarios].
  destruct (emitted_scenarios_spec ranked) as (H1 & H2 & H3 & H4).
  split; [exact H1 |]. split; [exact H3 |]. split; [exact H2 |].
  split; [exact H4 |].
  intros s Hs. apply (emitted_covers_ranked ranked s Hs).
Qed.

(** ** Affordability projector (C8) *)

Module AffordSpec.

(** The quantities of the contract. *)
Definition availableMonthlyPayment (tolerance revenue : float) : float :=
  PrimFloat.mul (PrimFloat.div tolerance 100) revenue.

Definition availableDailyRate (tolerance revenue : float) : float :=
  PrimFloat.div (availableMonthlyPayment tolerance revenue) 21.

Definition availablePayment (tolerance revenue : float) (f : Frequency) : float :=
  match f with
  | weekly => PrimFloat.mul (availableDailyRate tolerance revenue) 5
  | daily => availableDailyRate tolerance revenue
  end.

Definition totalPayback (tolerance revenue : float) (f : Frequency) (term : Z) : float :=
  PrimFloat.mul (availablePayment tolerance revenue f) (PyFloat.of_Z term).

(** The claim C8 as stated, at one input: the fields returned are the
    quantities themselves. *)
Definition returns_unrounded (tolerance revenue : float) (s : Scenario.t)
    (f : Frequency) : Prop :=
  forall r, calculate_affordable_funding tolerance revenue s f = Ok r ->
    Affordable.availablePayment r = availablePayment tolerance revenue f
    /\ Affordable.totalPayback r =
         PrimFloat.mul (Affordable.availablePayment r) (PyFloat.of_Z (Scenario.term s)).

End AffordSpec.

(** C8, as the code has it.  Whenever the projector returns, the
    scenario's factor text was read as a float that is not zero, and the
    record returned holds availablePayment and totalPayback =
    availablePayment * term each rounded to 2 decimals (the product is
    taken before rounding), affordableFunding = totalPayback / factor, of
    the unrounded totalPayback, rounded to the nearest integer, and the
    frequency, term, term unit, factor and tolerance it was given. *)
Theorem C8_affordable_funding (tolerance revenue : float) (s : Scenario.t)
    (f : Frequency) (r : Affordable.t) :
  calculate_affordable_funding tolerance revenue s f = Ok r ->
  exists factor n,
    PyStr.to_float (Scenario.factor s) = Ok factor
    /\ PyFloat.truthy factor = true
    /\ PyFloat.round
         (PrimFloat.div (AffordSpec.totalPayback tolerance revenue f (Scenario.term s))
            factor) = Ok n
    /\ r = Affordable.mk
             (PyFloat.round_nd (AffordSpec.availablePayment tolerance revenue f) 2)
             f (Scenario.term s) (Scenario.termUnit s) factor
             (PyFloat.round_nd
                (AffordSpec.totalPayback tolerance revenue f (Scenario.term s)) 2)
             n tolerance.
Proof.
  unfold calculate_affordable_funding.
  change (available_payment_of tolerance revenue f)
    with (AffordSpec.availablePayment tolerance revenue f).
  fold (AffordSpec.totalPayback tolerance revenue f (Scenario.term s)).
  destruct (PyStr.to_float (Scenario.factor s)) as [factor |] eqn:Ef; cbn [bind];
    [| intros H; discriminate H].
  unfold PyFloat.div, PyFloat.truthy.
  destruct (PrimFloat.eqb factor zero) eqn:Ez; cbn [bind negb];
    [intros H; discriminate H |].
  destruct (PyFloat.round _) as [n |] eqn:Er; cbn [bind];
    [| intros H; discriminate H].
  intros H. injection H as <-. exists factor, n.
  split; [reflexivity |]. split; [now rewrite Ez |].
  split; [exact Er | reflexivity].
Qed.

Definition example_scenario : Scenario.t :=
  Scenario.mk 20 "weeks" 3000 weekly 50000 47500 2500 "5.0" 60000 "1.20" unlikely (Some 10).

(** With a tolerance of 10 points on a revenue of 100,000, weekly, the
    available payment is 2380.952380952381 and the field returned is
    2380.95; the returned totalPayback is 47619.05, not 2380.95 * 20. *)
Lemma C8_fields_are_rounded :
  calculate_affordable_funding 10 100000 example_scenario weekly =
    Ok (Affordable.mk 2380.95 weekly 20 "weeks" 1.2 47619.05 39683 10)
  /\ AffordSpec.availablePayment 10 100000 weekly = 2380.952380952381%float
  /\ ~ AffordSpec.returns_unrounded 10 100000 example_scenario weekly.
Proof.
  assert (E : calculate_affordable_funding 10 100000 example_scenario weekly =
              Ok (Affordable.mk 2380.95 weekly 20 "weeks" 1.2 47619.05 39683 10))
    by (vm_compute; reflexivity).
  split; [exact E |]. split; [vm_compute; reflexivity |].
  intros H. destruct (H _ E) as [H1 _].
  apply (f_equal Prim2SF) in H1. vm_compute in H1. discriminate.
Qed.

Lemma C8_affordable_funding_example :
  calculate_affordable_funding 10 100000 example_scenario weekly =
    Ok (Affordable.mk 2380.95 weekly 20 "weeks" 1.2 47619.05 39683 10)
  /\ exists factor n,
       PyStr.to_float (Scenario.factor example_scenario) = Ok factor
       /\ PyFloat.truthy factor = true
       /\ PyFloat.round
            (PrimFloat.div
               (AffordSpec.totalPayback 10 100000 weekly (Scenario.term example_scenario))
               factor) = Ok n
       /\ Affordable.mk 2380.95 weekly 20 "weeks" 1.2 47619.05 39683 10 =
           Affordable.mk
             (PyFloat.round_nd (AffordSpec.availablePayment 10 100000 weekly) 2)
             weekly (Scenario.term example_scenario)
             (Scenario.termUnit example_scenario) factor
             (PyFloat.round_nd
                (AffordSpec.totalPayback 10 100000 weekly
                   (Scenario.term example_scenario)) 2)
             n 10.
Proof.
  assert (E : calculate_affordable_funding 10 100000 example_scenario weekly =
              Ok (Affordable.mk 2380.95 weekly 20 "weeks" 1.2 47619.05 39683 10))
    by (vm_compute; reflexivity).
  split; [exact E |].
  exact (C8_affordable_funding 10 100000 example_scenario weekly _ E).
Defined.

(** ** Orchestrator (C2, C10, C1) *)

Module AnalyzeSpec.

(** The test [if not parsed_data.get('avgRevenue')] fails: the revenue is
    there and is not zero. *)
Definition revenue_ok (d : Parsed.t) : bool :=
  match Parsed.avgRevenue d with
  | Some r => PyFloat.truthy r
  | None => false
  end.

Definition overview (d : Parsed.t) : Overview.t :=
  Overview.mk (Parsed.businessName d) (Parsed.industry d) (Parsed.state d)
    (Parsed.currentPositionCount d) (Parsed.nextPosition d) (Parsed.avgRevenue d)
    (Parsed.avgBankBalance d) (Parsed.negativeDays d) (Parsed.timeInBusiness d).

(** The withholding over the active positions, for a revenue that is not
    zero. *)
Definition withholding (d : Parsed.t) (revenue : float) : Withholding.t :=
  Withholding.mk
    (PyFloat.round_nd
       (WithholdingSpec.sum_pct revenue
          (WithholdingSpec.actives (Parsed.mcaPositions d)) zero) 2)
    (map (WithholdingSpec.entry revenue)
       (WithholdingSpec.actives (Parsed.mcaPositions d))).

Definition is_error (r : Result) : bool :=
  match r with ErrorRecord _ => true | Aggregate _ => false end.

End AnalyzeSpec.

Lemma actives_idem (l : list Position.t) :
  WithholdingSpec.actives (WithholdingSpec.actives l) = WithholdingSpec.actives l.
Proof.
  unfold WithholdingSpec.actives. induction l as [| p l IH]; cbn; [reflexivity |].
  destruct (is_active (Position.status p)) eqn:E; cbn; [rewrite E, IH |]; auto.
Qed.

Lemma analyze_parsed_no_revenue (profiles : Directory) (d : Parsed.t) (tol : float) :
  AnalyzeSpec.revenue_ok d = false ->
  analyze_parsed profiles d tol = Ok (ErrorRecord revenue_error).
Proof.
  unfold AnalyzeSpec.revenue_ok, analyze_parsed.
  destruct (Parsed.avgRevenue d) as [r |]; [| reflexivity].
  now intros ->.
Qed.

Lemma analyze_parsed_revenue (profiles : Directory) (d : Parsed.t) (tol rev : float) :
  Parsed.avgRevenue d = Some rev -> PyFloat.truthy rev = true ->
  analyze_parsed profiles d tol =
  r <- match Parsed.lastDeposit d with
       | Some last_deposit =>
           analyze_deposit profiles tol rev last_deposit
             (WithholdingSpec.actives (Parsed.mcaPositions d))
       | None => Ok (None, None)
       end ;;
  Ok (Aggregate (Report.mk (AnalyzeSpec.overview d) (AnalyzeSpec.withholding d rev)
                   (fst r) (snd r))).
Proof.
  intros Er Ht. unfold analyze_parsed. rewrite Er, Ht.
  fold (WithholdingSpec.actives (Parsed.mcaPositions d)).
  rewrite (calculate_withholding_spec _ _ Ht). cbn [bind].
  rewrite actives_idem. rewrite <- Er. reflexivity.
Qed.

(** The three ways [analyze_deposit] ends: nothing resolved or resolved to
    a zero payment; an analysis without scenario; an analysis and the
    projection on its first scenario, the step of the three that may
    raise. *)
Lemma analyze_deposit_cases (profiles : Directory) (tol rev : float)
    (ld : LastDeposit.t) (active_positions : list Position.t) :
  analyze_deposit profiles tol rev ld active_positions = Ok (None, None)
  \/ (exists a payment frequency,
        analyze_last_position profiles ld payment frequency rev = Ok a
        /\ ((Analysis.scenarios a = []
             /\ analyze_deposit profiles tol rev ld active_positions = Ok (Some a, None))
            \/ (exists best rest,
                  Analysis.scenarios a = best :: rest
                  /\ analyze_deposit profiles tol rev ld active_positions =
                     af <- calculate_affordable_funding tol rev best frequency ;;
                     Ok (Some a, Some af)))).
Proof.
  unfold analyze_deposit.
  destruct (resolve_payment ld active_positions) as [[payment |] [frequency |]];
    try (now left).
  destruct (PyFloat.truthy payment); [| now left].
  destruct (analyze_last_position_total profiles ld payment frequency rev) as [a Ea].
  right. exists a, payment, frequency. split; [exact Ea |]. rewrite Ea. cbn [bind].
  destruct (Analysis.scenarios a) as [| best rest]; [left; now split |].
  right. exists best, rest. split; [reflexivity |].
  destruct (calculate_affordable_funding tol rev best frequency); reflexivity.
Qed.

Lemma field_some {A : Type} (r : Re.rx) (text : option string)
    (f : Re.caps -> exc A) (v : A) :
  Parser.field r text f = Ok (Some v) -> exists c, f c = Ok v.
Proof.
  unfold Parser.field. destruct text as [t |]; [| discriminate].
  destruct (Re.search r t) as [[[? ?] c] |]; [| discriminate].
  destruct (f c) as [x |] eqn:E; cbn [bind]; [| discriminate].
  intros H. injection H as <-. now exists c.
Qed.

(** The parser always stores a payment and a frequency with the last
    deposit. *)
Lemma parse_fcs_last_deposit (text : string) (d : Parsed.t) (ld : LastDeposit.t) :
  Parser.parse_fcs text = Ok d -> Parsed.lastDeposit d = Some ld ->
  exists p f, LastDeposit.payment ld = Some p /\ LastDeposit.frequency ld = Some f.
Proof.
  unfold Parser.parse_fcs.
  repeat (match goal with
          | |- context [bind ?m _] =>
              destruct m eqn:?; cbn [bind]; [| discriminate]
          end).
  intros H. injection H as <-. cbn [Parsed.lastDeposit]. intros ->.
  match goal with
  | E : Parser.field Parser.last_deposit_pattern _ _ = Ok (Some ld) |- _ =>
      apply field_some in E; destruct E as [c Ec]
  end.
  destruct (Parser.money_value (Re.group c 1)); cbn [bind] in Ec; [| discriminate].
  destruct (Parser.money_value (Re.group c 4)); cbn [bind] in Ec; [| discriminate].
  injection Ec as <-. cbn. eauto.
Qed.

(** Reports used as examples. *)
Definition lines (l : list string) : string := String.concat (String Re.nl "") l.

Definition zero_payment_report : string :=
  lines ["3-Month Summary";
         "Average True Revenue: $150,000";
         "";
         "Last MCA Deposit: $47,500 on 01/15/2025 from OnDeck Capital ($0 weekly)"]%string.

Definition zero_revenue_report : string :=
  lines ["3-Month Summary";
         "Average True Revenue: $0";
         "";
         "Last MCA Deposit: $47,500 on 01/15/2025 from OnDeck Capital ($0 weekly)"]%string.

Definition zero_payment_deposit : LastDeposit.t :=
  LastDeposit.mk 47500 "01/15/2025" "OnDeck Capital" (Some zero) (Some weekly).

Definition parsed_with (revenue : float) (ld : option LastDeposit.t)
    (positions : list Position.t) : Parsed.t :=
  Parsed.mk None None None None None (Some revenue) None None None None ld positions.

(** C10, as the code has it.  When the last-deposit line parses with a
    payment of 0, the orchestrator treats the payment as missing: if the
    average revenue is present and not zero, the result is the aggregate
    with lastPositionAnalysis and affordableFunding both null and no error;
    if the revenue is absent or zero, the result is the error record. *)
Theorem C10_zero_payment_is_missing (profiles : Directory) (text : string)
    (tol : float) (d : Parsed.t) (ld : LastDeposit.t) (p : float) :
  Parser.parse_fcs text = Ok d ->
  Parsed.lastDeposit d = Some ld ->
  LastDeposit.payment ld = Some p ->
  PrimFloat.eqb p zero = true ->
  (forall rev, Parsed.avgRevenue d = Some rev -> PyFloat.truthy rev = true ->
     analyze profiles text tol =
     Ok (Aggregate (Report.mk (AnalyzeSpec.overview d) (AnalyzeSpec.withholding d rev)
                      None None)))
  /\ (AnalyzeSpec.revenue_ok d = false ->
      analyze profiles text tol = Ok (ErrorRecord revenue_error)).
Proof.
  intros Hparse Hld Hp Hz. unfold analyze. rewrite Hparse. cbn [bind].
  split; [| apply analyze_parsed_no_revenue].
  intros rev Hrev Ht. rewrite (analyze_parsed_revenue _ _ _ _ Hrev Ht), Hld.
  destruct (parse_fcs_last_deposit _ _ _ Hparse Hld) as (p' & f & Hp' & Hf).
  unfold analyze_deposit, resolve_payment. rewrite Hp', Hf.
  rewrite Hp in Hp'. injection Hp' as <-.
  unfold PyFloat.truthy. rewrite Hz. reflexivity.
Qed.

Lemma C10_zero_payment_example :
  analyze [] zero_payment_report 10 =
  Ok (Aggregate
        (Report.mk
           (AnalyzeSpec.overview (parsed_with 150000 (Some zero_payment_deposit) []))
           (AnalyzeSpec.withholding (parsed_with 150000 (Some zero_payment_deposit) [])
              150000)
           None None)).
Proof.
  assert (Hparse : Parser.parse_fcs zero_payment_report =
                   Ok (parsed_with 150000 (Some zero_payment_deposit) []))
    by (vm_compute; reflexivity).
  exact (proj1 (C10_zero_payment_is_missing [] zero_payment_report 10 _ _ zero
                  Hparse eq_refl eq_refl eq_refl)
           150000%float eq_refl eq_refl).
Defined.

(** The claim C10 as stated, at one report: a zero payment gives the
    aggregate with both sub-results null whenever the revenue is present. *)
Definition zero_payment_degrades (profiles : Directory) (text : string)
    (tol : float) : Prop :=
  forall d ld p,
    Parser.parse_fcs text = Ok d ->
    Parsed.lastDeposit d = Some ld ->
    LastDeposit.payment ld = Some p ->
    PrimFloat.eqb p zero = true ->
    Parsed.avgRevenue d <> None ->
    exists rep, analyze profiles text tol = Ok (Aggregate rep)
                /\ Report.lastPositionAnalysis rep = None
                /\ Report.affordableFunding rep = None.

(** A report whose revenue line reads $0 has its revenue present, and gets
    the error record. *)
Lemma C10_zero_revenue_gives_error :
  Parser.parse_fcs zero_revenue_report =
    Ok (parsed_with zero (Some zero_payment_deposit) [])
  /\ analyze [] zero_revenue_report 10 = Ok (ErrorRecord revenue_error)
  /\ ~ zero_payment_degrades [] zero_revenue_report 10.
Proof.
  assert (Hparse : Parser.parse_fcs zero_revenue_report =
                   Ok (parsed_with zero (Some zero_payment_deposit) []))
    by (vm_compute; reflexivity).
  assert (Han : analyze [] zero_revenue_report 10 = Ok (ErrorRecord revenue_error))
    by (vm_compute; reflexivity).
  split; [exact Hparse |]. split; [exact Han |].
  intros H.
  destruct (H _ zero_payment_deposit zero Hparse eq_refl eq_refl eq_refl)
    as (rep & Hrep & _); [discriminate |].
  rewrite Han in Hrep. discriminate.
Qed.

Lemma analyze_last_position_profile (profiles : Directory) (ld : LastDeposit.t)
    (payment : float) (f : Frequency) (rev : float) (a : Analysis.t) :
  analyze_last_position profiles ld payment f rev = Ok a ->
  Analysis.lenderProfile a = identify_lender profiles (LastDeposit.lender ld)
  /\ Analysis.deposit a = ld.
Proof.
  unfold analyze_last_position.
  destruct (ranked_scenarios profiles ld payment f); cbn [bind]; [| discriminate].
  intros H. injection H as <-. split; reflexivity.
Qed.

(** C2, as the code has it.  For every text that the parser reads without
    raising, and every tolerance: the entry point returns the error record
    when the average revenue is absent or zero.  When the revenue is present
    and not zero, it returns the aggregate with lastPositionAnalysis and
    affordableFunding null if there is no last deposit; and whatever it
    returns is the aggregate built from the parsed facts (absent fields
    null, withholding over the active positions), with lenderProfile null
    when no lender matches and no projection without an analysis.  So a
    returned result is the error record exactly when the revenue is absent
    or zero. *)
Theorem C2_error_record_iff_no_revenue (profiles : Directory) (text : string)
    (tol : float) (d : Parsed.t) :
  Parser.parse_fcs text = Ok d ->
  (AnalyzeSpec.revenue_ok d = false ->
     analyze profiles text tol = Ok (ErrorRecord revenue_error))
  /\ (forall rev, Parsed.avgRevenue d = Some rev -> PyFloat.truthy rev = true ->
        (Parsed.lastDeposit d = None ->
           analyze profiles text tol =
             Ok (Aggregate (Report.mk (AnalyzeSpec.overview d)
                              (AnalyzeSpec.withholding d rev) None None)))
        /\ (forall res, analyze profiles text tol = Ok res ->
              exists lpa af,
                res = Aggregate (Report.mk (AnalyzeSpec.overview d)
                                   (AnalyzeSpec.withholding d rev) lpa af)
                /\ (forall a, lpa = Some a ->
                      exists ld, Parsed.lastDeposit d = Some ld
                        /\ Analysis.lenderProfile a =
                             identify_lender profiles (LastDeposit.lender ld))
                /\ (lpa = None -> af = None)))
  /\ (forall res, analyze profiles text tol = Ok res ->
        AnalyzeSpec.is_error res = negb (AnalyzeSpec.revenue_ok d)).
Proof.
  intros Hparse. unfold analyze. rewrite Hparse. cbn [bind].
  assert (Hyes : forall rev, Parsed.avgRevenue d = Some rev -> PyFloat.truthy rev = true ->
            (Parsed.lastDeposit d = None ->
               analyze_parsed profiles d tol =
                 Ok (Aggregate (Report.mk (AnalyzeSpec.overview d)
                                  (AnalyzeSpec.withholding d rev) None None)))
            /\ (forall res, analyze_parsed profiles d tol = Ok res ->
                  exists lpa af,
                    res = Aggregate (Report.mk (AnalyzeSpec.overview d)
                                       (AnalyzeSpec.withholding d rev) lpa af)
                    /\ (forall a, lpa = Some a ->
                          exists ld, Parsed.lastDeposit d = Some ld
                            /\ Analysis.lenderProfile a =
                                 identify_lender profiles (LastDeposit.lender ld))
                    /\ (lpa = None -> af = None))).
  { intros rev Hrev Ht. rewrite (analyze_parsed_revenue _ _ _ _ Hrev Ht).
    destruct (Parsed.lastDeposit d) as [ld |].
    - split; [intros H; discriminate H |].
      destruct (analyze_deposit_cases profiles tol rev ld
                  (WithholdingSpec.actives (Parsed.mcaPositions d)))
        as [E | (a & payment & f & Ea & [[_ E] | (best & rest & _ & E)])];
        rewrite E.
      + cbn [bind fst snd]. intros res H. injection H as <-.
        exists None, None. split; [reflexivity |].
        split; [intros a H; discriminate H | reflexivity].
      + cbn [bind fst snd]. intros res H. injection H as <-.
        exists (Some a), None. split; [reflexivity |].
        split; [| reflexivity].
        intros a' Ha'. injection Ha' as <-. exists ld. split; [reflexivity |].
        now apply analyze_last_position_profile in Ea.
      + destruct (calculate_affordable_funding tol rev best f) as [af | e];
          cbn [bind fst snd]; intros res H; [| discriminate H].
        injection H as <-. exists (Some a), (Some af). split; [reflexivity |].
        split; [| intros H; discriminate H].
        intros a' Ha'. injection Ha' as <-. exists ld. split; [reflexivity |].
        now apply analyze_last_position_profile in Ea.
    - cbn [bind fst snd]. split; [reflexivity |].
      intros res H. injection H as <-. exists None, None.
      split; [reflexivity |]. split; [intros a H; discriminate H | reflexivity]. }
  split; [apply analyze_parsed_no_revenue |]. split; [exact Hyes |].
  intros res Hres. destruct (AnalyzeSpec.revenue_ok d) eqn:Eok.
  - unfold AnalyzeSpec.revenue_ok in Eok.
    destruct (Parsed.avgRevenue d) as [rev |] eqn:Erev; [| discriminate Eok].
    destruct (proj2 (Hyes rev eq_refl Eok) res Hres) as (lpa & af & -> & _).
    reflexivity.
  - rewrite (analyze_parsed_no_revenue _ _ _ Eok) in Hres. now injection Hres as <-.
Qed.

Definition no_revenue_report : string :=
  lines ["3-Month Summary"; "Business Name: Acme Widgets LLC"]%string.

Definition revenue_zero_report : string :=
  lines ["3-Month Summary"; "Average True Revenue: $0"]%string.

Definition comma_revenue_report : string :=
  lines ["3-Month Summary"; "Average True Revenue: ,"]%string.

Lemma C2_error_record_examples :
  analyze [] no_revenue_report 10 = Ok (ErrorRecord revenue_error)
  /\ (forall res, analyze [] zero_payment_report 10 = Ok res ->
        AnalyzeSpec.is_error res = false).
Proof.
  assert (H1 : Parser.parse_fcs no_revenue_report =
               Ok (Parsed.mk (Some "Acme Widgets LLC"%string) None None None None None
                     None None None None None []))
    by (vm_compute; reflexivity).
  assert (H2 : Parser.parse_fcs zero_payment_report =
               Ok (parsed_with 150000 (Some zero_payment_deposit) []))
    by (vm_compute; reflexivity).
  split.
  - exact (proj1 (C2_error_record_iff_no_revenue [] no_revenue_report 10 _ H1) eq_refl).
  - exact (proj2 (proj2 (C2_error_record_iff_no_revenue [] zero_payment_report 10 _ H2))).
Defined.

(** The claim C2 as stated, at one input: no exception escapes, and the
    result is the error record exactly when no average revenue could be
    parsed from the text. *)
Definition error_iff_unparsed (profiles : Directory) (text : string)
    (tol : float) : Prop :=
  exists res,
    analyze profiles text tol = Ok res
    /\ (AnalyzeSpec.is_error res = true <->
        forall d, Parser.parse_fcs text = Ok d -> Parsed.avgRevenue d = None).

(** A revenue line that reads $0 is parsed, as 0.0, and the result is the
    error record all the same. *)
Lemma C2_zero_revenue_is_an_error :
  Parser.parse_fcs revenue_zero_report = Ok (parsed_with zero None [])
  /\ analyze [] revenue_zero_report 10 = Ok (ErrorRecord revenue_error)
  /\ ~ error_iff_unparsed [] revenue_zero_report 10.
Proof.
  assert (Hparse : Parser.parse_fcs revenue_zero_report = Ok (parsed_with zero None []))
    by (vm_compute; reflexivity).
  assert (Han : analyze [] revenue_zero_report 10 = Ok (ErrorRecord revenue_error))
    by (vm_compute; reflexivity).
  split; [exact Hparse |]. split; [exact Han |].
  intros (res & Hres & Hiff). rewrite Han in Hres. injection Hres as <-.
  destruct Hiff as [Hiff _]. specialize (Hiff eq_refl _ Hparse). discriminate.
Qed.

(** ** When the ranked terms are already distinct *)

Lemma unique_by_term_id (seen : list Z) (l : list Scenario.t) :
  (forall s, In s l -> ~ In (Scenario.term s) seen) ->
  NoDup (map Scenario.term l) ->
  unique_by_term seen l = l.
Proof.
  revert seen. induction l as [| x l IH]; intros seen Hseen Hnd; [reflexivity |].
  cbn [unique_by_term]. cbn [map] in Hnd. inversion Hnd as [| ? ? Hx Hnd']; subst.
  destruct (existsb (Z.eqb (Scenario.term x)) seen) eqn:E.
  - apply existsb_eqb_In in E. exfalso. apply (Hseen x); [now left | exact E].
  - f_equal. apply IH; [| exact Hnd'].
    intros s Hs [Heq | Hin].
    + apply Hx. rewrite Heq. now apply in_map.
    + apply (Hseen s); [now right | exact Hin].
Qed.

Section SortedUnique.
Context {A : Type} (key : A -> Z).

(** A list sorted by key that is a permutation of a list strictly sorted by
    key is that list. *)
Lemma sorted_perm_eq (l1 l2 : list A) :
  StronglySorted (key_le key) l1 ->
  StronglySorted Z.lt (map key l2) ->
  Permutation l1 l2 -> l1 = l2.
Proof.
  revert l2. induction l1 as [| x1 l1 IH]; intros l2 H1 H2 Hp.
  - apply Permutation_nil in Hp. now subst.
  - destruct l2 as [| x2 l2]; [apply Permutation_sym, Permutation_nil in Hp; discriminate |].
    inversion H1 as [| ? ? Hs1 Hall1]; subst.
    cbn [map] in H2. inversion H2 as [| ? ? Hs2 Hall2]; subst.
    rewrite Forall_forall in Hall1, Hall2.
    assert (Hx : x1 = x2).
    { assert (Hin1 : In x1 (x2 :: l2)) by (eapply Permutation_in; [exact Hp | now left]).
      assert (Hin2 : In x2 (x1 :: l1))
        by (eapply Permutation_in; [symmetry; exact Hp | now left]).
      destruct Hin1 as [-> | Hin1]; [reflexivity |].
      destruct Hin2 as [-> | Hin2]; [reflexivity |].
      specialize (Hall1 x2 Hin2). unfold key_le in Hall1.
      specialize (Hall2 (key x1) (in_map key _ _ Hin1)). lia. }
    subst x2. f_equal. apply IH; [exact Hs1 | exact Hs2 |].
    now apply Permutation_cons_inv in Hp.
Qed.

Lemma sort_by_of_perm (l l' : list A) :
  Permutation l l' -> StronglySorted Z.lt (map key l') -> sort_by key l = l'.
Proof.
  intros Hp Hs. apply sorted_perm_eq; [apply sort_by_sorted | exact Hs |].
  now rewrite sort_by_perm.
Qed.

End SortedUnique.

(** Scoring keeps the term, the formatted factor and the unit. *)
Definition scenario_key (s : Scenario.t) : Z * string * string :=
  (Scenario.term s, Scenario.factor s, Scenario.termUnit s).

Lemma mapM_score_keys (p : Profile.t) (f : Frequency) (l l' : list Scenario.t) :
  mapM (score_scenario p f) l = Ok l' -> map scenario_key l' = map scenario_key l.
Proof.
  revert l'. induction l as [| s l IH]; intros l'; cbn [mapM].
  - intros H. now injection H as <-.
  - destruct (score_scenario p f s) as [s' |] eqn:Es; cbn [bind]; [| discriminate].
    destruct (mapM (score_scenario p f) l) as [l0 |]; cbn [bind]; [| discriminate].
    intros H. injection H as <-. cbn [map]. rewrite (IH l0 eq_refl). f_equal.
    unfold score_scenario in Es.
    destruct (PyStr.to_float (Scenario.factor s)); cbn [bind] in Es; [| discriminate].
    destruct (PyStr.to_float (Scenario.feePercent s)); cbn [bind] in Es; [| discriminate].
    now injection Es as <-.
Qed.

(** When the generated scenarios have strictly ascending terms, ranking,
    deduplication and the sort by term give back the scored list in the
    order of generation. *)
Lemma distinct_terms_survive (p : Profile.t) (f : Frequency)
    (generated scored : list Scenario.t) :
  mapM (score_scenario p f) generated = Ok scored ->
  StronglySorted Z.lt (map Scenario.term generated) ->
  sort_by Scenario.term (unique_by_term [] (sort_by rank_key scored)) = scored.
Proof.
  intros Hm Hs.
  assert (Hterms : map Scenario.term scored = map Scenario.term generated).
  { apply mapM_score_keys in Hm.
    apply (f_equal (map (fun k : Z * string * string => fst (fst k)))) in Hm.
    now rewrite !map_map in Hm. }
  rewrite <- Hterms in Hs.
  rewrite unique_by_term_id.
  - apply sort_by_of_perm; [apply sort_by_perm | exact Hs].
  - intros s _ [].
  - eapply Permutation_NoDup; [| apply strict_NoDup, Hs].
    apply Permutation_map. symmetry. apply sort_by_perm.
Qed.

(** ** The end-to-end scenario (C1) *)

Definition end_to_end_generated : list Scenario.t :=
  map (fun x : Z * Z * string * Likelihood =>
         let '(t, tp, fs, l) := x in
         Scenario.mk t "weeks" 3000 weekly 50000 47500 2500 "5.0" tp fs l None)
      [(20, 60000, "1.20"%string, unlikely);
       (22, 66000, "1.32"%string, possible_low);
       (24, 72000, "1.44"%string, realistic);
       (26, 78000, "1.56"%string, possible_high)].

Definition end_to_end_keys : list (Z * string * string) :=
  [(20, "1.20", "weeks"); (22, "1.32", "weeks");
   (24, "1.44", "weeks"); (26, "1.56", "weeks")]%string.

(** The two formatted fields of a scenario can be read back. *)
Definition readable (s : Scenario.t) : bool :=
  match PyStr.to_float (Scenario.factor s), PyStr.to_float (Scenario.feePercent s) with
  | Ok _, Ok _ => true
  | _, _ => false
  end.

Lemma score_scenario_readable (p : Profile.t) (f : Frequency) (s : Scenario.t) :
  readable s = true -> exists s', score_scenario p f s = Ok s'.
Proof.
  unfold readable, score_scenario.
  destruct (PyStr.to_float (Scenario.factor s)); [| discriminate].
  destruct (PyStr.to_float (Scenario.feePercent s)); [| discriminate].
  cbn [bind]. eauto.
Qed.

(** A deposit of 47,500 repaid 3,000 a week: the only candidate kept is
    50,000 (fee 5.0%), and the terms with a factor between 1.20 and 1.60 are
    20, 22, 24 and 26 weeks, whatever the directory. *)
Lemma end_to_end_last_position (profiles : Directory) (ld : LastDeposit.t)
    (revenue : float) :
  LastDeposit.amount ld = 47500%float ->
  exists scored,
    analyze_last_position profiles ld 3000 weekly revenue =
      Ok (Analysis.mk scored (identify_lender profiles (LastDeposit.lender ld)) ld)
    /\ map scenario_key scored = end_to_end_keys.
Proof.
  intros Hamount. unfold analyze_last_position, ranked_scenarios. rewrite Hamount.
  assert (Ho : sorted_originals 47500 = Ok [FeeSpec.candidate 47500 50000])
    by (vm_compute; reflexivity).
  assert (Hg : generate_scenarios 47500 3000 weekly [FeeSpec.candidate 47500 50000] =
               Ok end_to_end_generated) by (vm_compute; reflexivity).
  rewrite Ho. cbn [bind]. rewrite Hg. cbn [bind].
  unfold _prioritize_with_lender_knowledge.
  set (p := match identify_lender profiles (LastDeposit.lender ld) with
            | Some q => q
            | None => default_profile weekly
            end).
  destruct (mapM_total (score_scenario p weekly) end_to_end_generated) as [scored Hs].
  { assert (Hr : forallb readable end_to_end_generated = true)
      by (vm_compute; reflexivity).
    rewrite forallb_forall in Hr.
    intros s Hin. apply score_scenario_readable, Hr, Hin. }
  rewrite Hs. cbn [bind].
  assert (Hkeys : map scenario_key scored = end_to_end_keys)
    by (rewrite (mapM_score_keys _ _ _ _ Hs); reflexivity).
  rewrite (distinct_terms_survive p weekly end_to_end_generated scored Hs)
    by (cbn; repeat constructor).
  exists scored. split; [| exact Hkeys].
  rewrite firstn_all2; [reflexivity |].
  apply (f_equal (@List.length _)) in Hkeys. rewrite length_map in Hkeys.
  rewrite Hkeys. cbn. lia.
Qed.

(** The projection on a first scenario of 20 weeks at factor "1.20", for a
    tolerance of 10 and a revenue of 150,000. *)
Lemma end_to_end_projection (s : Scenario.t) :
  scenario_key s = (20, "1.20"%string, "weeks"%string) ->
  calculate_affordable_funding 10 150000 s weekly =
  Ok (Affordable.mk 3571.43 weekly 20 "weeks" 1.2 71428.57 59524 10).
Proof.
  unfold scenario_key. intros H. injection H as Ht Hf Hu.
  unfold calculate_affordable_funding. rewrite Ht, Hf, Hu.
  vm_compute. reflexivity.
Qed.

Definition end_to_end_report : string :=
  lines ["3-Month Summary";
         "Business Name: Acme Widgets LLC";
         "Average True Revenue: $150,000";
         "";
         "Last MCA Deposit: $47,500 on 01/15/2025 from OnDeck Capital ($3,000 weekly)";
         "";
         "Position 1: OnDeck Capital - $3,000 weekly";
         "Last pull: 02/01/2025 - Status: Active"]%string.

Definition end_to_end_facts : Parsed.t :=
  Parsed.mk (Some "Acme Widgets LLC"%string) None None None None (Some 150000%float)
    None None None None
    (Some (LastDeposit.mk 47500 "01/15/2025" "OnDeck Capital" (Some 3000%float)
             (Some weekly)))
    [Position.mk 1 "OnDeck Capital" 3000 weekly "02/01/2025" active].

Definition ondeck_profile : Profile.t :=
  Profile.mk ["ondeck"%string] (Some 1.49%float) (1.40%float, 1.55%float)
    [44; 46; 48; 50; 52] [] (0.02%float, 0.05%float).

Definition ondeck_directory : Directory := [("ondeck"%string, ondeck_profile)].

(** C1, as the code has it.  For every report with a revenue of 150,000,
    one position, active and weekly, of 3,000, and a last deposit of 47,500
    repaid 3,000 a week, and for every directory (whether or not the lender
    is matched), the analysis with tolerance 10 gives a withholding total of
    8.4 and four scenarios, in ascending term: 20, 22, 24 and 26 weeks with
    formatted factors 1.20, 1.32, 1.44 and 1.56; the first element of the
    sequence has term 20 and factor 1.20, and the projection is made on
    it. *)
Theorem C1_end_to_end (profiles : Directory) (text : string) (d : Parsed.t)
    (pos : Position.t) (ld : LastDeposit.t) :
  Parser.parse_fcs text = Ok d ->
  Parsed.avgRevenue d = Some 150000%float ->
  Parsed.mcaPositions d = [pos] ->
  Position.status pos = active ->
  Position.frequency pos = weekly ->
  Position.amount pos = 3000%float ->
  Parsed.lastDeposit d = Some ld ->
  LastDeposit.amount ld = 47500%float ->
  LastDeposit.payment ld = Some 3000%float ->
  LastDeposit.frequency ld = Some weekly ->
  exists rep a,
    analyze profiles text 10 = Ok (Aggregate rep)
    /\ Withholding.total (Report.withholding rep) = 8.4%float
    /\ Report.lastPositionAnalysis rep = Some a
    /\ map scenario_key (Analysis.scenarios a) = end_to_end_keys
    /\ Analysis.lenderProfile a = identify_lender profiles (LastDeposit.lender ld)
    /\ Report.affordableFunding rep =
         Some (Affordable.mk 3571.43 weekly 20 "weeks" 1.2 71428.57 59524 10).
Proof.
  intros Hparse Hrev Hpos Hst Hfr Ham Hld Hla Hlp Hlf.
  unfold analyze. rewrite Hparse. cbn [bind].
  rewrite (analyze_parsed_revenue _ _ _ _ Hrev eq_refl), Hld.
  unfold analyze_deposit, resolve_payment. rewrite Hlp, Hlf.
  change (PyFloat.truthy 3000) with true. cbv iota.
  destruct (end_to_end_last_position profiles ld 150000 Hla) as (scored & Ea & Hk).
  rewrite Ea. cbn [bind Analysis.scenarios].
  destruct scored as [| s1 rest]; [discriminate |].
  assert (Hs1 : scenario_key s1 = (20, "1.20"%string, "weeks"%string))
    by (cbn [map] in Hk; unfold end_to_end_keys in Hk; congruence).
  rewrite (end_to_end_projection s1 Hs1). cbn [bind fst snd].
  eexists. eexists. split; [reflexivity |].
  cbn [Report.withholding Report.lastPositionAnalysis Report.affordableFunding
       Analysis.scenarios Analysis.lenderProfile].
  split; [| repeat split; assumption].
  unfold AnalyzeSpec.withholding. cbn [Withholding.total].
  rewrite Hpos. unfold WithholdingSpec.actives. cbn [filter]. rewrite Hst. cbn [is_active].
  unfold WithholdingSpec.sum_pct. cbn [map fold_left].
  unfold WithholdingSpec.withholdPct, WithholdingSpec.monthlyPayment,
    WithholdingSpec.dailyRate. rewrite Hfr, Ham.
  vm_compute. reflexivity.
Qed.

Lemma C1_end_to_end_example :
  exists rep a,
    analyze ondeck_directory end_to_end_report 10 = Ok (Aggregate rep)
    /\ Withholding.total (Report.withholding rep) = 8.4%float
    /\ Report.lastPositionAnalysis rep = Some a
    /\ map scenario_key (Analysis.scenarios a) = end_to_end_keys
    /\ Analysis.lenderProfile a = identify_lender ondeck_directory "OnDeck Capital"
    /\ Report.affordableFunding rep =
         Some (Affordable.mk 3571.43 weekly 20 "weeks" 1.2 71428.57 59524 10).
Proof.
  assert (Hparse : Parser.parse_fcs end_to_end_report = Ok end_to_end_facts)
    by (vm_compute; reflexivity).
  exact (C1_end_to_end ondeck_directory end_to_end_report end_to_end_facts _ _
           Hparse eq_refl eq_refl eq_refl eq_refl eq_refl eq_refl eq_refl eq_refl
           eq_refl).
Defined.

(** The term of the first scenario of a result, 0 when there is none. *)
Definition first_term (r : exc Result) : Z :=
  match r with
  | Ok (Aggregate rep) =>
      match Report.lastPositionAnalysis rep with
      | Some a =>
          match Analysis.scenarios a with
          | s :: _ => Scenario.term s
          | [] => 0
          end
      | None => 0
      end
  | _ => 0
  end.

(** The claim C1 as stated, at one directory and report: the total is 8.4
    and the first scenario has term 48 and a factor within 0.02 of 1.49. *)
Definition first_scenario_is_48_weeks (profiles : Directory) (text : string) : Prop :=
  exists rep a s rest f,
    analyze profiles text 10 = Ok (Aggregate rep)
    /\ Withholding.total (Report.withholding rep) = 8.4%float
    /\ Report.lastPositionAnalysis rep = Some a
    /\ Analysis.scenarios a = s :: rest
    /\ Scenario.term s = 48
    /\ PyStr.to_float (Scenario.factor s) = Ok f
    /\ PrimFloat.leb (PrimFloat.abs (PrimFloat.sub f 1.49)) 0.02 = true.

(** With the lender matched to a profile of typical factor 1.49 whose weekly
    terms include 48, the first scenario has term 20: 48 payments of 3,000
    would be a factor of 2.88 on the only candidate, 50,000. *)
Lemma C1_first_scenario_is_20_weeks :
  Parser.parse_fcs end_to_end_report = Ok end_to_end_facts
  /\ identify_lender ondeck_directory "OnDeck Capital" = Some ondeck_profile
  /\ Profile.typical_factor ondeck_profile = Some 1.49%float
  /\ In 48 (Profile.typical_terms_weekly ondeck_profile)
  /\ first_term (analyze ondeck_directory end_to_end_report 10) = 20
  /\ raw_factor 3000 48 50000 = Ok 2.88%float
  /\ ~ first_scenario_is_48_weeks ondeck_directory end_to_end_report.
Proof.
  assert (E : first_term (analyze ondeck_directory end_to_end_report 10) = 20)
    by (vm_compute; reflexivity).
  split; [vm_compute; reflexivity |].
  split; [vm_compute; reflexivity |].
  split; [reflexivity |].
  split; [cbn; tauto |].
  split; [exact E |].
  split; [vm_compute; reflexivity |].
  intros (rep & a & s & rest & f & Han & _ & Hlpa & Hsc & Hterm & _).
  rewrite Han in E. cbn [first_term] in E. rewrite Hlpa, Hsc, Hterm in E.
  discriminate E.
Qed.

(** Where an exception escapes the entry point: a revenue made of commas
    only, and a tolerance so large that the projection overflows. *)
Lemma analyze_can_raise :
  analyze [] comma_revenue_report 10 = Raise ValueError
  /\ analyze ondeck_directory end_to_end_report 1e308 = Raise OverflowError.
Proof. split; vm_compute; reflexivity. Qed.

(** * Further properties of the analyzer *)

(** ** Withholding calculator: when it raises *)

Lemma withholding_loop_zero_revenue (positions : list Position.t) (revenue t : float)
    (b : list Breakdown.t) :
  PrimFloat.eqb revenue zero = true ->
  withholding_loop positions revenue t b =
  match WithholdingSpec.actives positions with
  | [] => Ok (t, b)
  | _ :: _ => Raise ZeroDivisionError
  end.
Proof.
  intros Hz. revert t b. induction positions as [| p rest IH]; intros t b; [reflexivity |].
  cbn [withholding_loop WithholdingSpec.actives filter].
  destruct (is_active (Position.status p)); [| apply IH].
  unfold PyFloat.div. now rewrite Hz.
Qed.

Lemma actives_nil_iff (positions : list Position.t) :
  WithholdingSpec.actives positions = [] <->
  forall p, In p positions -> Position.status p = stopped.
Proof.
  unfold WithholdingSpec.actives. induction positions as [| p rest IH]; cbn [filter].
  - split; [intros _ p [] | reflexivity].
  - destruct (Position.status p) eqn:E; cbn [is_active].
    + split; [discriminate |]. intros H. specialize (H p (or_introl eq_refl)). congruence.
    + rewrite IH. split.
      * intros H q [<- | Hq]; [exact E | now apply H].
      * intros H q Hq. apply H. now right.
Qed.

(** X1. The withholding calculator raises exactly when the revenue is zero
    and some position is active, and the exception is then
    ZeroDivisionError; with no active position it returns the total 0.0 and
    an empty breakdown whatever the revenue, zero included. *)
Theorem calculate_withholding_raises (positions : list Position.t) (revenue : float) :
  (forall e, calculate_withholding positions revenue = Raise e <->
     e = ZeroDivisionError
     /\ PrimFloat.eqb revenue zero = true
     /\ exists p, In p positions /\ Position.status p = active)
  /\ ((forall p, In p positions -> Position.status p = stopped) ->
      calculate_withholding positions revenue = Ok (Withholding.mk zero [])).
Proof.
  split.
  - intros e. destruct (PrimFloat.eqb revenue zero) eqn:Hz.
    + unfold calculate_withholding.
      rewrite (withholding_loop_zero_revenue _ _ _ _ Hz).
      destruct (WithholdingSpec.actives positions) as [| p l] eqn:Ea; cbn [bind].
      * split; [discriminate |]. intros (_ & _ & p & Hp & Hs).
        apply actives_nil_iff with (p := p) in Ea; [congruence | exact Hp].
      * split.
        -- intros H. injection H as <-. split; [reflexivity |]. split; [reflexivity |].
           assert (Hin : In p (WithholdingSpec.actives positions))
             by (rewrite Ea; now left).
           unfold WithholdingSpec.actives in Hin. apply filter_In in Hin.
           destruct Hin as [Hin Hact]. exists p. split; [exact Hin |].
           now destruct (Position.status p).
        -- now intros (-> & _ & _).
    + rewrite calculate_withholding_spec
        by (unfold PyFloat.truthy; now rewrite Hz).
      split; [discriminate | intros (_ & H & _); discriminate].
  - intros H. apply actives_nil_iff in H. unfold calculate_withholding.
    rewrite withholding_loop_actives, H. reflexivity.
Qed.

(** ** Lender matcher: degenerate names and aliases *)

(** A profile with at least one alias. *)
Definition has_alias (entry : string * Profile.t) : bool :=
  match Profile.aliases (snd entry) with
  | [] => false
  | _ :: _ => true
  end.

Lemma prefix_empty (s : string) : prefix "" s = true.
Proof. now destruct s. Qed.

Lemma contains_empty (s : string) : PyStr.contains "" s = true.
Proof. destruct s; reflexivity. Qed.

(** X2. A name that is empty once lower-cased and trimmed matches every
    alias, since the empty string is contained in any string: the matcher
    then returns the first profile of the directory that has an alias at
    all. *)
Theorem identify_lender_blank_name (profiles : Directory) (lender_name : string) :
  PyStr.strip (PyStr.lower lender_name) = ""%string ->
  identify_lender profiles lender_name = option_map snd (find has_alias profiles).
Proof.
  intros Hblank. induction profiles as [| [k p] rest IH]; [reflexivity |].
  cbn [identify_lender find]. rewrite Hblank. unfold has_alias at 1. cbn [snd].
  destruct (Profile.aliases p) as [| a l] eqn:Ea.
  - cbn [existsb]. exact IH.
  - cbn [existsb]. unfold alias_matches at 1. rewrite contains_empty, orb_true_r.
    reflexivity.
Qed.

Definition blank_directory : Directory :=
  [("none"%string,
    Profile.mk [] None (1.35%float, 1.55%float) [] [] (0.02%float, 0.08%float));
   ("ondeck"%string, ondeck_profile)].

Lemma identify_lender_blank_name_witness :
  identify_lender blank_directory "  " = Some ondeck_profile.
Proof.
  rewrite (identify_lender_blank_name blank_directory "  " eq_refl). reflexivity.
Defined.

(** X3. An empty alias matches every name: a directory in which some
    profile lists the alias [""] never answers None, and the profile
    returned is that one or an earlier one. *)
Theorem identify_lender_empty_alias (before after : Directory) (key : string)
    (p : Profile.t) (lender_name : string) :
  In ""%string (Profile.aliases p) ->
  exists q, identify_lender (before ++ (key, p) :: after) lender_name = Some q
            /\ (q = p \/ exists k, In (k, q) before).
Proof.
  intros Hin. induction before as [| [k0 p0] before IH]; cbn [app identify_lender].
  - assert (E : existsb (alias_matches (PyStr.strip (PyStr.lower lender_name)))
                  (Profile.aliases p) = true).
    { apply existsb_exists. exists ""%string. split; [exact Hin |].
      unfold alias_matches. now rewrite contains_empty. }
    rewrite E. exists p. split; [reflexivity | now left].
  - destruct (existsb _ (Profile.aliases p0)).
    + exists p0. split; [reflexivity |]. right. exists k0. now left.
    + destruct IH as (q & Hq & Hor). exists q. split; [exact Hq |].
      destruct Hor as [-> | [k Hk]]; [now left |]. right. exists k. now right.
Qed.

Definition catch_all_profile : Profile.t :=
  Profile.mk [""%string] None (1.35%float, 1.55%float) [] [] (0.02%float, 0.08%float).

Lemma identify_lender_empty_alias_witness :
  exists q,
    identify_lender ([] ++ ("any"%string, catch_all_profile) :: []) "Some Lender" = Some q.
Proof.
  destruct (identify_lender_empty_alias [] [] "any" catch_all_profile "Some Lender")
    as (q & H & _); [cbn; now left |].
  exists q. exact H.
Defined.

(** ** Prioritisation: the term score *)

(** [closest_to] returns an element of the list, at least as near to the
    term as every other. *)
Lemma closest_to_spec (term x : Z) (l : list Z) :
  In (closest_to term x l) (x :: l)
  /\ forall y, In y (x :: l) ->
       Z.abs (closest_to term x l - term) <= Z.abs (y - term).
Proof.
  revert x. induction l as [| z l IH]; intros x; cbn [closest_to].
  - split; [now left |]. intros y [<- | []]. lia.
  - destruct (Z.abs (z - term) <? Z.abs (x - term)) eqn:E.
    + apply Z.ltb_lt in E. destruct (IH z) as [Hin Hmin]. split.
      * destruct Hin as [<- | Hin]; [right; now left | right; now right].
      * intros y [<- | [<- | Hy]].
        -- specialize (Hmin z (or_introl eq_refl)). lia.
        -- apply Hmin. now left.
        -- apply Hmin. now right.
    + apply Z.ltb_ge in E. destruct (IH x) as [Hin Hmin]. split.
      * destruct Hin as [<- | Hin]; [now left | right; now right].
      * intros y [<- | [<- | Hy]].
        -- apply Hmin. now left.
        -- specialize (Hmin x (or_introl eq_refl)). lia.
        -- apply Hmin. now right.
Qed.

(** X4. The term part of the intelligence score is 25 when the term is one
    of the lender's typical terms, 15 when it is not but some typical term
    is within 4 of it, and 0 otherwise, in particular when the lender has no
    typical term for the frequency. *)
Theorem term_score_spec (typical_terms : list Z) (term : Z) :
  (term_score typical_terms term = 25 <-> In term typical_terms)
  /\ (term_score typical_terms term = 15 <->
        ~ In term typical_terms
        /\ exists t, In t typical_terms /\ Z.abs (term - t) <= 4)
  /\ (term_score typical_terms term = 0 <->
        forall t, In t typical_terms -> 4 < Z.abs (term - t))
  /\ term_score [] term = 0.
Proof.
  unfold term_score.
  destruct (existsb (Z.eqb term) typical_terms) eqn:E.
  - apply existsb_eqb_In in E.
    split; [tauto |]. split; [split; [discriminate | tauto] |].
    split; [| reflexivity]. split; [discriminate |].
    intros H. specialize (H term E). lia.
  - assert (Hn : ~ In term typical_terms)
      by (intros H; apply existsb_eqb_In in H; congruence).
    destruct typical_terms as [| x l].
    + split; [split; [discriminate | intros []] |].
      split; [split; [discriminate | intros (_ & t & [] & _)] |].
      split; [| reflexivity]. split; [intros _ t [] | reflexivity].
    + destruct (closest_to_spec term x l) as [Hin Hmin].
      destruct (Z.abs (term - closest_to term x l) <=? 4) eqn:Ec.
      * apply Z.leb_le in Ec.
        split; [split; [discriminate | tauto] |].
        split; [split; [intros _; split; [exact Hn |]; eauto | reflexivity] |].
        split; [| reflexivity]. split; [discriminate |].
        intros H. specialize (H _ Hin). lia.
      * apply Z.leb_gt in Ec.
        split; [split; [discriminate | tauto] |].
        split.
        -- split; [discriminate |]. intros (_ & t & Ht & Hd).
           specialize (Hmin t Ht). lia.
        -- split; [| reflexivity]. split; [| reflexivity].
           intros _ t Ht. specialize (Hmin t Ht). lia.
Qed.

(** ** Prioritisation: scores, likelihoods and order *)

(** [x.get('intelligenceScore', 0)] *)
Definition score_of (s : Scenario.t) : Z :=
  match Scenario.intelligenceScore s with
  | Some n => n
  | None => 0
  end.

(** [s'] is [s] with its score set and its likelihood possibly changed. *)
Definition same_scenario (s s' : Scenario.t) : Prop :=
  Scenario.term s' = Scenario.term s
  /\ Scenario.termUnit s' = Scenario.termUnit s
  /\ Scenario.payment s' = Scenario.payment s
  /\ Scenario.frequency s' = Scenario.frequency s
  /\ Scenario.originalFunding s' = Scenario.originalFunding s
  /\ Scenario.deposit s' = Scenario.deposit s
  /\ Scenario.fee s' = Scenario.fee s
  /\ Scenario.feePercent s' = Scenario.feePercent s
  /\ Scenario.totalPayback s' = Scenario.totalPayback s
  /\ Scenario.factor s' = Scenario.factor s.

Definition at_least_realistic (l : Likelihood) : Prop :=
  l = most_likely \/ l = realistic.

Lemma term_score_values (typical_terms : list Z) (term : Z) :
  term_score typical_terms term = 0 \/ term_score typical_terms term = 15
  \/ term_score typical_terms term = 25.
Proof.
  unfold term_score. destruct (existsb _ _); [tauto |].
  destruct typical_terms; [tauto |]. destruct (_ <=? 4); tauto.
Qed.

Lemma intelligence_score_bounds (profile : Profile.t) (frequency : Frequency)
    (factor : float) (term : Z) (fee_pct : float) :
  0 <= intelligence_score profile frequency factor term fee_pct <= 85.
Proof.
  unfold intelligence_score.
  destruct (term_score_values (typical_terms_of profile frequency) term)
    as [-> | [-> | ->]];
    destruct (_ && _); destruct (PrimFloat.ltb _ _); destruct (_ && _); lia.
Qed.

Lemma mapM_Forall2 {A B : Type} (f : A -> exc B) (l : list A) (bs : list B) :
  mapM f l = Ok bs -> Forall2 (fun a b => f a = Ok b) l bs.
Proof.
  revert bs. induction l as [| a l IH]; intros bs; cbn [mapM].
  - intros H. injection H as <-. constructor.
  - destruct (f a) as [b |] eqn:Ea; cbn [bind]; [| discriminate].
    destruct (mapM f l) as [bs0 |]; cbn [bind]; [| discriminate].
    intros H. injection H as <-. constructor; [exact Ea | now apply IH].
Qed.

(** X5. Scoring a scenario changes nothing but its score and its
    likelihood.  The score lies between 0 and 85.  A scenario that was
    most-likely or realistic keeps its likelihood; any other scenario with a
    score of 60 or more becomes realistic; with a score from 40 to 59 an
    unlikely one becomes possible-low; in every other case (a score below
    40, or a score below 60 on a scenario that was not unlikely) the
    likelihood is kept.  So no scenario scored 40 or more stays unlikely. *)
Theorem score_scenario_spec (profile : Profile.t) (frequency : Frequency)
    (s s' : Scenario.t) :
  score_scenario profile frequency s = Ok s' ->
  same_scenario s s'
  /\ Scenario.intelligenceScore s' = Some (score_of s')
  /\ 0 <= score_of s' <= 85
  /\ (at_least_realistic (Scenario.likelihood s) ->
      Scenario.likelihood s' = Scenario.likelihood s)
  /\ (60 <= score_of s' -> ~ at_least_realistic (Scenario.likelihood s) ->
      Scenario.likelihood s' = realistic)
  /\ (40 <= score_of s' < 60 -> Scenario.likelihood s = unlikely ->
      Scenario.likelihood s' = possible_low)
  /\ (score_of s' < 60 -> Scenario.likelihood s <> unlikely ->
      Scenario.likelihood s' = Scenario.likelihood s)
  /\ (60 <= score_of s' -> at_least_realistic (Scenario.likelihood s'))
  /\ (40 <= score_of s' -> Scenario.likelihood s' <> unlikely)
  /\ (score_of s' < 40 -> Scenario.likelihood s' = Scenario.likelihood s)
  /\ (Scenario.likelihood s' = Scenario.likelihood s
      \/ Scenario.likelihood s' = realistic
      \/ Scenario.likelihood s' = possible_low).
Proof.
  unfold score_scenario.
  destruct (PyStr.to_float (Scenario.factor s)) as [factor |]; cbn [bind];
    [| discriminate].
  destruct (PyStr.to_float (Scenario.feePercent s)) as [fee |]; cbn [bind];
    [| discriminate].
  intros H. injection H as <-.
  pose proof (intelligence_score_bounds profile frequency factor (Scenario.term s)
                (PrimFloat.div fee 100)) as Hb.
  unfold same_scenario, score_of, at_least_realistic.
  cbn [Scenario.term Scenario.termUnit Scenario.payment Scenario.frequency
       Scenario.originalFunding Scenario.deposit Scenario.fee Scenario.feePercent
       Scenario.totalPayback Scenario.factor Scenario.likelihood
       Scenario.intelligenceScore].
  set (n := intelligence_score _ _ _ _ _) in *.
  split; [repeat split |]. split; [reflexivity |]. split; [exact Hb |].
  unfold upgrade_likelihood.
  destruct (Scenario.likelihood s);
    destruct (60 <=? n) eqn:E60; destruct (40 <=? n) eqn:E40;
    try apply Z.leb_le in E60; try apply Z.leb_gt in E60;
    try apply Z.leb_le in E40; try apply Z.leb_gt in E40;
    repeat split; intros; try tauto; try lia; try discriminate;
    try (intuition discriminate).
Qed.

Lemma score_scenario_spec_witness :
  exists s', score_scenario (default_profile weekly) weekly example_scenario = Ok s'
             /\ 0 <= score_of s' <= 85.
Proof.
  eexists. split; [vm_compute; reflexivity |].
  apply (score_scenario_spec (default_profile weekly) weekly example_scenario).
  vm_compute. reflexivity.
Defined.

(** The profile that the scoring uses: the lender's, or the generic one of
    the frequency when the lender is unknown. *)
Definition profile_used (profile : option Profile.t) (frequency : Frequency)
    : Profile.t :=
  match profile with
  | Some p => p
  | None => default_profile frequency
  end.

(** X6. The prioritised list is the list of the scored scenarios, one per
    input scenario, put in descending order of intelligence score; the
    scenarios with equal score keep the order they came in. *)
Theorem prioritize_order (scenarios : list Scenario.t) (profile : option Profile.t)
    (frequency : Frequency) (out : list Scenario.t) :
  _prioritize_with_lender_knowledge scenarios profile frequency = Ok out ->
  exists scored,
    Forall2 (fun s s' => score_scenario (profile_used profile frequency) frequency s = Ok s')
      scenarios scored
    /\ Permutation out scored
    /\ List.length out = List.length scenarios
    /\ StronglySorted (fun a b => score_of b <= score_of a) out
    /\ forall n, filter (fun s => score_of s =? n) out =
                 filter (fun s => score_of s =? n) scored.
Proof.
  unfold _prioritize_with_lender_knowledge.
  fold (profile_used profile frequency).
  destruct (mapM _ scenarios) as [scored |] eqn:Em; cbn [bind]; [| discriminate].
  intros H. injection H as <-. exists scored.
  split; [now apply mapM_Forall2 |].
  split; [apply sort_by_perm |].
  split.
  { rewrite (Permutation_length (sort_by_perm rank_key scored)).
    now apply mapM_length in Em. }
  split.
  - pose proof (sort_by_sorted rank_key scored) as Hs.
    induction Hs as [| x l Hs IH Hall]; constructor; [exact IH |].
    eapply Forall_impl; [| exact Hall].
    unfold key_le, rank_key, score_of. intros a Ha. lia.
  - intros n.
    assert (E : forall l : list Scenario.t,
              filter (fun s => score_of s =? n) l =
              filter (fun s => rank_key s =? - n) l).
    { intros l. apply filter_ext. intros s. unfold rank_key, score_of.
      destruct (Scenario.intelligenceScore s) as [m |].
      - destruct (m =? n) eqn:E1, (- m =? - n) eqn:E2; try reflexivity;
          try apply Z.eqb_eq in E1; try apply Z.eqb_eq in E2;
          try apply Z.eqb_neq in E1; try apply Z.eqb_neq in E2; lia.
      - destruct (0 =? n) eqn:E1, (- 0 =? - n) eqn:E2; try reflexivity;
          try apply Z.eqb_eq in E1; try apply Z.eqb_eq in E2;
          try apply Z.eqb_neq in E1; try apply Z.eqb_neq in E2; lia. }
    rewrite !E. apply sort_by_class.
Qed.

Lemma prioritize_order_witness :
  exists out,
    _prioritize_with_lender_knowledge end_to_end_generated None weekly = Ok out
    /\ StronglySorted (fun a b => score_of b <= score_of a) out.
Proof.
  eexists. split; [vm_compute; reflexivity |].
  destruct (prioritize_order end_to_end_generated None weekly _
              ltac:(vm_compute; reflexivity)) as (scored & _ & _ & _ & H & _).
  exact H.
Defined.

(** ** The fields of the emitted scenarios *)

Lemma terms_of_spec (f : Frequency) (t : Z) :
  In t (terms_of f) <->
  match f with
  | weekly => 10 <= t <= 70 /\ t mod 2 = 0
  | daily => 60 <= t <= 220 /\ t mod 10 = 0
  end.
Proof.
  destruct f.
  - let l := eval vm_compute in (terms_of weekly) in change (terms_of weekly) with l.
    cbn [In]. split.
    + intros H. repeat (destruct H as [<- | H]; [split; [lia | reflexivity] |]).
      contradiction.
    + intros [Hb Hm]. apply Z.mod_divide in Hm; [| lia]. destruct Hm as [k ->]. lia.
  - let l := eval vm_compute in (terms_of daily) in change (terms_of daily) with l.
    cbn [In]. split.
    + intros H. repeat (destruct H as [<- | H]; [split; [lia | reflexivity] |]).
      contradiction.
    + intros [Hb Hm]. apply Z.mod_divide in Hm; [| lia]. destruct Hm as [k ->]. lia.
Qed.

Lemma scenario_for_more (d payment : float) (f : Frequency) (o : Original.t)
    (t : Z) (s : Scenario.t) :
  scenario_for d payment f o t = Ok (Some s) ->
  Scenario.termUnit s = termUnit_of f
  /\ PyFloat.round (PrimFloat.mul payment (PyFloat.of_Z t)) = Ok (Scenario.totalPayback s).
Proof.
  unfold scenario_for.
  destruct (raw_factor payment t (Original.original o)) as [factor |];
    cbn [bind]; [| discriminate].
  destruct (factor_in_band factor); [| discriminate].
  destruct (PyFloat.round (Original.original o)) as [n1 |]; cbn [bind]; [| discriminate].
  destruct (PyFloat.round (Original.fee o)) as [n2 |]; cbn [bind]; [| discriminate].
  destruct (PyFloat.round _) as [n3 |]; cbn [bind]; [| discriminate].
  intros H. injection H as <-. split; reflexivity.
Qed.

Lemma score_scenario_keeps (p : Profile.t) (f : Frequency) (s s' : Scenario.t) :
  score_scenario p f s = Ok s' ->
  same_scenario s s'
  /\ exists n, Scenario.intelligenceScore s' = Some n /\ 0 <= n <= 85.
Proof.
  unfold score_scenario.
  destruct (PyStr.to_float (Scenario.factor s)) as [factor |]; cbn [bind];
    [| discriminate].
  destruct (PyStr.to_float (Scenario.feePercent s)) as [fee |]; cbn [bind];
    [| discriminate].
  intros H. injection H as <-. split; [unfold same_scenario; cbn; repeat split |].
  eexists. split; [reflexivity | apply intelligence_score_bounds].
Qed.

(** Every ranked scenario is a generated scenario, scored. *)
Lemma ranked_scenarios_origin (profiles : Directory) (deposit : LastDeposit.t)
    (payment : float) (f : Frequency) (ranked : list Scenario.t) (s : Scenario.t) :
  ranked_scenarios profiles deposit payment f = Ok ranked -> In s ranked ->
  exists o t s0,
    In o (FeeSpec.retained (LastDeposit.amount deposit))
    /\ In t (terms_of f)
    /\ scenario_for (LastDeposit.amount deposit) payment f o t = Ok (Some s0)
    /\ score_scenario
         (profile_used (identify_lender profiles (LastDeposit.lender deposit)) f)
         f s0 = Ok s.
Proof.
  unfold ranked_scenarios. rewrite sorted_originals_spec. cbn [bind].
  destruct (generate_scenarios _ payment f _) as [ss |] eqn:Eg; cbn [bind];
    [| discriminate].
  unfold _prioritize_with_lender_knowledge.
  fold (profile_used (identify_lender profiles (LastDeposit.lender deposit)) f).
  destruct (mapM _ ss) as [scored |] eqn:Em; cbn [bind]; [| discriminate].
  intros H. injection H as <-. intros Hin. apply sort_by_In in Hin.
  destruct (mapM_In _ _ _ _ Em Hin) as (s0 & Hs0 & Es0).
  destruct (generate_scenarios_In _ _ _ _ _ _ Eg Hs0) as (o & t & Ho & Ht & Hs).
  exists o, t, s0. apply sort_by_In in Ho. repeat split; assumption.
Qed.

Lemma emitted_in_ranked (ranked : list Scenario.t) (s : Scenario.t) :
  In s (firstn 10 (sort_by Scenario.term (unique_by_term [] ranked))) -> In s ranked.
Proof.
  intros Hs. apply In_firstn in Hs. apply sort_by_In in Hs.
  apply unique_by_term_first in Hs. destruct Hs as [_ Hs].
  apply find_some in Hs. tauto.
Qed.

(** X7. Every scenario that the reconstructor emits echoes the payment, the
    frequency and the deposit amount it was given; its term is an even
    number of weeks from 10 to 70 for a weekly payment and a multiple of 10
    days from 60 to 220 for a daily one, with the unit "weeks" or "days"
    accordingly; its totalPayback is payment * term rounded to an integer;
    and it carries an intelligence score between 0 and 85. *)
Theorem emitted_scenario_fields (profiles : Directory) (deposit : LastDeposit.t)
    (payment : float) (frequency : Frequency) (revenue : float)
    (a : Analysis.t) (s : Scenario.t) :
  analyze_last_position profiles deposit payment frequency revenue = Ok a ->
  In s (Analysis.scenarios a) ->
  Scenario.payment s = payment
  /\ Scenario.frequency s = frequency
  /\ Scenario.deposit s = LastDeposit.amount deposit
  /\ match frequency with
     | weekly => 10 <= Scenario.term s <= 70 /\ Scenario.term s mod 2 = 0
                 /\ Scenario.termUnit s = "weeks"%string
     | daily => 60 <= Scenario.term s <= 220 /\ Scenario.term s mod 10 = 0
                /\ Scenario.termUnit s = "days"%string
     end
  /\ PyFloat.round (PrimFloat.mul payment (PyFloat.of_Z (Scenario.term s))) =
       Ok (Scenario.totalPayback s)
  /\ exists n, Scenario.intelligenceScore s = Some n /\ 0 <= n <= 85.
Proof.
  unfold analyze_last_position.
  destruct (ranked_scenarios profiles deposit payment frequency) as [ranked |] eqn:Er;
    cbn [bind]; [| discriminate].
  intros H. injection H as <-. cbn [Analysis.scenarios]. intros Hs.
  apply emitted_in_ranked in Hs.
  destruct (ranked_scenarios_origin _ _ _ _ _ _ Er Hs) as (o & t & s0 & _ & Ht & Hgen & Hsc).
  destruct (scenario_for_more _ _ _ _ _ _ Hgen) as [Hunit Htp].
  apply scenario_for_some in Hgen.
  destruct Hgen as (factor & _ & _ & Et & Ep & Ef & Ed & _).
  apply score_scenario_keeps in Hsc.
  destruct Hsc as [(E1 & E2 & E3 & E4 & _ & E6 & _ & _ & E9 & _) Hn].
  rewrite E1, E2, E3, E4, E6, E9, Et, Ep, Ef, Ed, Hunit.
  apply terms_of_spec in Ht.
  split; [reflexivity |]. split; [reflexivity |]. split; [reflexivity |].
  split; [destruct frequency; cbn [termUnit_of]; tauto |].
  split; [exact Htp | exact Hn].
Qed.

Definition example_deposit : LastDeposit.t :=
  LastDeposit.mk 47500 "01/15/2025" "OnDeck Capital" (Some 3000%float) (Some weekly).

Lemma emitted_scenario_fields_witness :
  exists a s,
    analyze_last_position [] example_deposit 3000 weekly 150000 = Ok a
    /\ In s (Analysis.scenarios a)
    /\ Scenario.payment s = 3000%float
    /\ 10 <= Scenario.term s <= 70.
Proof.
  destruct (analyze_last_position [] example_deposit 3000 weekly 150000)
    as [a |] eqn:Ea; [| vm_compute in Ea; discriminate Ea].
  destruct (Analysis.scenarios a) as [| s rest] eqn:Es.
  - exfalso. vm_compute in Ea. injection Ea as <-. discriminate Es.
  - exists a, s. split; [reflexivity |]. rewrite Es. split; [now left |].
    destruct (emitted_scenario_fields [] example_deposit 3000 weekly 150000 a s Ea)
      as (H1 & _ & _ & (H4 & _) & _); [rewrite Es; now left |].
    split; [exact H1 | exact H4].
Defined.

(** ** Which terms are emitted *)

(** Two strictly ascending lists with the same elements are equal. *)
Lemma strict_sorted_ext (l1 l2 : list Z) :
  StronglySorted Z.lt l1 -> StronglySorted Z.lt l2 ->
  (forall x, In x l1 <-> In x l2) -> l1 = l2.
Proof.
  intros H1 H2 Hiff.
  apply (sorted_perm_eq (fun x : Z => x)).
  - clear -H1. induction H1 as [| x l Hs IH Hall]; constructor; [exact IH |].
    eapply Forall_impl; [| exact Hall]. unfold key_le. intros; lia.
  - now rewrite map_id.
  - apply NoDup_Permutation; [now apply strict_NoDup | now apply strict_NoDup | exact Hiff].
Qed.

(** The terms emitted for a ranked list: its distinct terms in ascending
    order, cut after the tenth. *)
Definition emitted_terms (ranked : list Scenario.t) : list Z :=
  map Scenario.term (firstn 10 (sort_by Scenario.term (unique_by_term [] ranked))).

Lemma emitted_terms_ext (ranked1 ranked2 : list Scenario.t) :
  (forall t, In t (map Scenario.term ranked1) <-> In t (map Scenario.term ranked2)) ->
  emitted_terms ranked1 = emitted_terms ranked2.
Proof.
  intros H. unfold emitted_terms. rewrite <- !firstn_map. f_equal.
  apply strict_sorted_ext; try apply sorted_unique_strict.
  intros t. now rewrite !sorted_unique_terms.
Qed.

(** The terms of the ranked list are those of the generated scenarios. *)
Lemma ranked_scenarios_terms (profiles : Directory) (deposit : LastDeposit.t)
    (payment : float) (f : Frequency) (ranked : list Scenario.t) :
  ranked_scenarios profiles deposit payment f = Ok ranked ->
  exists generated,
    generate_scenarios (LastDeposit.amount deposit) payment f
      (sort_by FeeSpec.fee_key (FeeSpec.retained (LastDeposit.amount deposit))) =
      Ok generated
    /\ Permutation (map Scenario.term ranked) (map Scenario.term generated).
Proof.
  unfold ranked_scenarios. rewrite sorted_originals_spec. cbn [bind].
  destruct (generate_scenarios _ payment f _) as [ss |] eqn:Eg; cbn [bind];
    [| discriminate].
  unfold _prioritize_with_lender_knowledge.
  destruct (mapM _ ss) as [scored |] eqn:Em; cbn [bind]; [| discriminate].
  intros H. injection H as <-. exists ss. split; [reflexivity |].
  apply mapM_score_keys in Em.
  apply (f_equal (map (fun k : Z * string * string => fst (fst k)))) in Em.
  rewrite !map_map in Em.
  assert (Et : map Scenario.term scored = map Scenario.term ss) by exact Em.
  rewrite <- Et. apply Permutation_map, sort_by_perm.
Qed.

(** X8. The lender directory has no influence on which terms are emitted:
    two runs on deposits of the same amount, with the same payment and
    frequency, emit the same sequence of terms whatever the directories, the
    lender names and the revenues.  The profile only decides which candidate
    amount stands for a term, and its score and likelihood. *)
Theorem emitted_terms_ignore_directory (profiles1 profiles2 : Directory)
    (deposit1 deposit2 : LastDeposit.t) (payment : float) (frequency : Frequency)
    (revenue1 revenue2 : float) (a1 a2 : Analysis.t) :
  LastDeposit.amount deposit1 = LastDeposit.amount deposit2 ->
  analyze_last_position profiles1 deposit1 payment frequency revenue1 = Ok a1 ->
  analyze_last_position profiles2 deposit2 payment frequency revenue2 = Ok a2 ->
  map Scenario.term (Analysis.scenarios a1) = map Scenario.term (Analysis.scenarios a2).
Proof.
  intros Hamt. unfold analyze_last_position.
  destruct (ranked_scenarios profiles1 deposit1 payment frequency) as [r1 |] eqn:E1;
    cbn [bind]; [| discriminate].
  destruct (ranked_scenarios profiles2 deposit2 payment frequency) as [r2 |] eqn:E2;
    cbn [bind]; [| discriminate].
  intros H1 H2. injection H1 as <-. injection H2 as <-. cbn [Analysis.scenarios].
  apply ranked_scenarios_terms in E1, E2.
  destruct E1 as (g1 & Eg1 & P1). destruct E2 as (g2 & Eg2 & P2).
  rewrite Hamt in Eg1. rewrite Eg1 in Eg2. injection Eg2 as <-.
  apply emitted_terms_ext. intros t.
  rewrite (perm_in_iff t _ _ P1), (perm_in_iff t _ _ P2). tauto.
Qed.

Lemma emitted_terms_ignore_directory_witness :
  exists a1 a2,
    analyze_last_position [] example_deposit 3000 weekly 150000 = Ok a1
    /\ analyze_last_position ondeck_directory example_deposit 3000 weekly 1 = Ok a2
    /\ map Scenario.term (Analysis.scenarios a1) =
       map Scenario.term (Analysis.scenarios a2).
Proof.
  destruct (analyze_last_position [] example_deposit 3000 weekly 150000)
    as [a1 |] eqn:E1; [| vm_compute in E1; discriminate E1].
  destruct (analyze_last_position ondeck_directory example_deposit 3000 weekly 1)
    as [a2 |] eqn:E2; [| vm_compute in E2; discriminate E2].
  exists a1, a2. split; [reflexivity |]. split; [reflexivity |].
  exact (emitted_terms_ignore_directory [] ondeck_directory example_deposit
           example_deposit 3000 weekly 150000 1 a1 a2 eq_refl E1 E2).
Defined.

(** X9. The cut after the tenth scenario keeps the shortest terms: every
    term of the ranked list is either emitted, or longer than each of the
    ten terms that are. *)
Theorem cap_keeps_shortest_terms (profiles : Directory) (deposit : LastDeposit.t)
    (payment : float) (frequency : Frequency) (revenue : float)
    (a : Analysis.t) (ranked : list Scenario.t) (s : Scenario.t) :
  analyze_last_position profiles deposit payment frequency revenue = Ok a ->
  ranked_scenarios profiles deposit payment frequency = Ok ranked ->
  In s ranked ->
  In (Scenario.term s) (map Scenario.term (Analysis.scenarios a))
  \/ (List.length (Analysis.scenarios a) = 10%nat
      /\ forall s', In s' (Analysis.scenarios a) -> Scenario.term s' < Scenario.term s).
Proof.
  unfold analyze_last_position. intros Ha Er Hs. rewrite Er in Ha. cbn [bind] in Ha.
  set (L := sort_by Scenario.term (unique_by_term [] ranked)) in *.
  assert (Ea : Analysis.scenarios a = firstn 10 L) by (injection Ha as <-; reflexivity).
  rewrite Ea. clear Ha Ea.
  assert (Hin : In (Scenario.term s) (map Scenario.term L))
    by (apply sorted_unique_terms; now apply in_map).
  pose proof (sorted_unique_strict ranked) as Hstrict. fold L in Hstrict.
  rewrite <- (firstn_skipn 10 L) in Hin, Hstrict.
  rewrite map_app in Hin, Hstrict. apply in_app_or in Hin.
  destruct Hin as [Hin | Hin]; [now left | right].
  split.
  - rewrite length_firstn. apply Nat.min_l.
    destruct (Nat.le_gt_cases 10 (List.length L)) as [H | H]; [exact H |].
    rewrite skipn_all2 in Hin by lia. contradiction.
  - intros s' Hs'. apply (strict_app_lt _ _ _ _ Hstrict); [now apply in_map | exact Hin].
Qed.

Lemma cap_keeps_shortest_terms_witness :
  exists a ranked s,
    analyze_last_position [] example_deposit 3000 weekly 150000 = Ok a
    /\ ranked_scenarios [] example_deposit 3000 weekly = Ok ranked
    /\ In s ranked
    /\ (In (Scenario.term s) (map Scenario.term (Analysis.scenarios a))
        \/ (List.length (Analysis.scenarios a) = 10%nat
            /\ forall s', In s' (Analysis.scenarios a) ->
                 Scenario.term s' < Scenario.term s)).
Proof.
  destruct (analyze_last_position [] example_deposit 3000 weekly 150000)
    as [a |] eqn:Ea; [| vm_compute in Ea; discriminate Ea].
  destruct (ranked_scenarios [] example_deposit 3000 weekly)
    as [ranked |] eqn:Er; [| vm_compute in Er; discriminate Er].
  destruct ranked as [| s rest] eqn:El; [vm_compute in Er; discriminate Er |].
  exists a, (s :: rest), s. split; [reflexivity |]. split; [reflexivity |].
  split; [now left |].
  exact (cap_keeps_shortest_terms [] example_deposit 3000 weekly 150000 a (s :: rest) s
           Ea Er (or_introl eq_refl)).
Defined.


(** ** The formatted factor *)

(** The text [format(x, '.2f')] for the number of hundredths [n >= 0]. *)
Definition hundredths_text (n : Z) : string :=
  (PyStr.dec_string (n / 100) ++ "." ++ PyStr.frac_digits 2 n "")%string.

Lemma band_ends :
  exists lo hi,
    Prim2SF 1.20 = S754_finite false lo (-52)
    /\ Prim2SF 1.60 = S754_finite false hi (-52)
    /\ Zpos lo = 5404319552844595 /\ Zpos hi = 7205759403792794.
Proof. do 2 eexists. repeat split. Qed.

(** A float between 1.20 and 1.60 has the exponent of these two and a
    mantissa between theirs. *)
Lemma band_mantissa (x : float) :
  factor_in_band x = true ->
  exists m, Prim2SF x = S754_finite false m (-52)
            /\ 5404319552844595 <= Zpos m <= 7205759403792794.
Proof.
  unfold factor_in_band. intros H. apply andb_true_iff in H. destruct H as [H1 H2].
  rewrite leb_spec in H1, H2.
  destruct band_ends as (lo & hi & Elo & Ehi & Hlo & Hhi).
  rewrite Elo in H1. rewrite Ehi in H2. clear Elo Ehi.
  unfold SFleb, SFcompare in H1, H2.
  destruct (Prim2SF x) as [s | s | | s m e];
    [discriminate H1 | destruct s; [discriminate H1 | discriminate H2]
    | discriminate H1 |].
  destruct s; [discriminate H1 |].
  destruct (Z.compare (-52) e) eqn:E1; [| | discriminate H1].
  - apply Z.compare_eq in E1. subst e.
    change (Z.compare (-52) (-52)) with Eq in H2. cbv iota in H2.
    exists m. split; [reflexivity |].
    assert (L1 : (lo <= m)%positive).
    { unfold Pos.le, Pos.compare. intros C. rewrite C in H1. discriminate H1. }
    assert (L2 : (m <= hi)%positive).
    { unfold Pos.le, Pos.compare. intros C. rewrite C in H2. discriminate H2. }
    lia.
  - exfalso. destruct (Z.compare e (-52)) eqn:E2; [| | discriminate H2];
      rewrite Z.compare_antisym, E1 in E2; discriminate E2.
Qed.

Lemma band_hundredths (m : positive) :
  5404319552844595 <= Zpos m <= 7205759403792794 ->
  120 <= PyFloat.rne_scaled (Zpos m) (-52) 2 <= 160.
Proof.
  intros [H1 H2].
  unfold PyFloat.rne_scaled.
  change (0 <=? -52) with false. cbv iota.
  change (10 ^ Z.of_nat 2) with 100. change (2 ^ (- -52)) with 4503599627370496.
  unfold PyFloat.rne_div.
  generalize dependent (Zpos m). clear m. intros z H1 H2.
  pose proof (Z.div_mod (z * 100) 4503599627370496 ltac:(lia)) as Hdm.
  pose proof (Z.mod_pos_bound (z * 100) 4503599627370496 ltac:(lia)) as Hr.
  set (q := z * 100 / 4503599627370496) in *.
  set (r := (z * 100) mod 4503599627370496) in *.
  destruct (Z.compare_spec (2 * r) 4503599627370496) as [E | E | E];
    [destruct (Z.even q) |..]; lia.
Qed.

Lemma format_band (x : float) :
  factor_in_band x = true ->
  exists n, 120 <= n <= 160 /\ PyStr.format_fixed 2 x = hundredths_text n.
Proof.
  intros H. destruct (band_mantissa x H) as (m & Em & Hm).
  exists (PyFloat.rne_scaled (Zpos m) (-52) 2). split; [now apply band_hundredths |].
  unfold PyStr.format_fixed, hundredths_text. rewrite Em. reflexivity.
Qed.

(** The factor read back from [hundredths_text n] is in the band, for a
    number of hundredths from 120 to 160. *)
Definition reads_in_band (n : Z) : bool :=
  match PyStr.to_float (hundredths_text n) with
  | Ok y => factor_in_band y
  | Raise _ => false
  end.

Lemma range_In (lo hi n : Z) : In n (range lo hi) <-> lo <= n < hi.
Proof.
  unfold range. rewrite in_map_iff. split.
  - intros (i & <- & Hi). apply in_seq in Hi. lia.
  - intros H. exists (Z.to_nat (n - lo)). split; [lia |]. apply in_seq. lia.
Qed.

Lemma hundredths_read (n : Z) :
  120 <= n <= 160 ->
  exists y, PyStr.to_float (hundredths_text n) = Ok y /\ factor_in_band y = true.
Proof.
  intros H.
  assert (Hall : forallb reads_in_band (range 120 161) = true)
    by (vm_compute; reflexivity).
  rewrite forallb_forall in Hall. specialize (Hall n).
  assert (Hin : In n (range 120 161)) by (apply range_In; lia).
  specialize (Hall Hin). unfold reads_in_band in Hall.
  destruct (PyStr.to_float (hundredths_text n)) as [y |]; [| discriminate Hall].
  exists y. split; [reflexivity | exact Hall].
Qed.

(** The formatted factor of a generated scenario reads back as a float
    between 1.20 and 1.60. *)
Lemma formatted_factor_in_band (x : float) :
  factor_in_band x = true ->
  exists y, PyStr.to_float (PyStr.format_fixed 2 x) = Ok y /\ factor_in_band y = true.
Proof.
  intros H. destruct (format_band x H) as (n & Hn & ->). apply hundredths_read, Hn.
Qed.

Lemma in_band_truthy (y : float) : factor_in_band y = true -> PyFloat.truthy y = true.
Proof.
  intros H. destruct (band_mantissa y H) as (m & Em & _).
  unfold PyFloat.truthy. rewrite eqb_spec, Em. reflexivity.
Qed.

(** The factor text of an emitted scenario reads back into the band. *)
Lemma emitted_factor_reads (profiles : Directory) (deposit : LastDeposit.t)
    (payment : float) (frequency : Frequency) (revenue : float)
    (a : Analysis.t) (s : Scenario.t) :
  analyze_last_position profiles deposit payment frequency revenue = Ok a ->
  In s (Analysis.scenarios a) ->
  exists y, PyStr.to_float (Scenario.factor s) = Ok y /\ factor_in_band y = true.
Proof.
  unfold analyze_last_position.
  destruct (ranked_scenarios profiles deposit payment frequency) as [ranked |] eqn:Er;
    cbn [bind]; [| intros H; discriminate H].
  intros H Hs.
  assert (Ea : Analysis.scenarios a =
               firstn 10 (sort_by Scenario.term (unique_by_term [] ranked)))
    by (injection H as <-; reflexivity).
  rewrite Ea in Hs. apply emitted_in_ranked in Hs.
  destruct (ranked_scenarios_In _ _ _ _ _ _ Er Hs) as (o & t & _ & _ & Hrec).
  destruct Hrec as (factor & _ & Hb & _ & _ & _ & _ & _ & _ & Ef & _).
  rewrite Ef. apply formatted_factor_in_band, Hb.
Qed.

(** X10. The factor that an emitted scenario shows, a text with two
    decimals, reads back as a number between 1.20 and 1.60: rounding to two
    decimals never takes the factor out of the band in which the unformatted
    factor was required to be; in particular it is never zero. *)
Theorem emitted_factor_text_in_band (profiles : Directory) (deposit : LastDeposit.t)
    (payment : float) (frequency : Frequency) (revenue : float)
    (a : Analysis.t) (s : Scenario.t) :
  analyze_last_position profiles deposit payment frequency revenue = Ok a ->
  In s (Analysis.scenarios a) ->
  exists y, PyStr.to_float (Scenario.factor s) = Ok y
            /\ PrimFloat.leb 1.20 y = true /\ PrimFloat.leb y 1.60 = true
            /\ PrimFloat.eqb y zero = false.
Proof.
  intros Ha Hs. destruct (emitted_factor_reads _ _ _ _ _ _ _ Ha Hs) as (y & Ey & Hy).
  exists y. split; [exact Ey |].
  pose proof (in_band_truthy y Hy) as Ht.
  unfold factor_in_band in Hy. apply andb_true_iff in Hy. destruct Hy as [H1 H2].
  split; [exact H1 |]. split; [exact H2 |].
  unfold PyFloat.truthy in Ht. destruct (PrimFloat.eqb y zero); [discriminate Ht | reflexivity].
Qed.

Lemma emitted_factor_text_in_band_witness :
  exists a s y,
    analyze_last_position [] example_deposit 3000 weekly 150000 = Ok a
    /\ In s (Analysis.scenarios a)
    /\ PyStr.to_float (Scenario.factor s) = Ok y
    /\ PrimFloat.leb 1.20 y = true.
Proof.
  destruct (analyze_last_position [] example_deposit 3000 weekly 150000)
    as [a |] eqn:Ea; [| vm_compute in Ea; discriminate Ea].
  destruct (Analysis.scenarios a) as [| s rest] eqn:Es.
  - exfalso. vm_compute in Ea. injection Ea as <-. discriminate Es.
  - destruct (emitted_factor_text_in_band [] example_deposit 3000 weekly 150000 a s Ea)
      as (y & Hy & H1 & _); [rewrite Es; left; reflexivity |].
    exists a, s, y. rewrite Es.
    split; [reflexivity |]. split; [left; reflexivity |]. split; [exact Hy | exact H1].
Defined.

(** ** Which exceptions escape *)

Lemma to_float_raises (s : string) (e : pyerr) :
  PyStr.to_float s = Raise e -> e = ValueError.
Proof.
  unfold PyStr.to_float.
  destruct (PyStr.strip_underscores _ _) as [u |];
    [| intros H; injection H as <-; reflexivity].
  destruct (PyStr.split_sign u) as [neg body].
  destruct (_ || _); [intros H; discriminate H |].
  destruct (String.eqb _ _); [intros H; discriminate H |].
  destruct (PyStr.split_exp body) as [mant eo].
  destruct (PyStr.split_dot mant) as [ip fo].
  destruct (PyStr.exponent_val eo);
    [| intros H; injection H as <-; reflexivity].
  destruct (_ && _); intros H; [discriminate H | injection H as <-; reflexivity].
Qed.

Lemma money_value_raises (g : string) (e : pyerr) :
  Parser.money_value g = Raise e -> e = ValueError.
Proof. apply to_float_raises. Qed.

Lemma int_of_digits_raises (g : string) (e : pyerr) :
  PyStr.int_of_digits g = Raise e -> e = ValueError.
Proof.
  unfold PyStr.int_of_digits. destruct (_ <? _)%nat; intros H; [| discriminate H].
  injection H as <-. reflexivity.
Qed.

Lemma field_raises {A : Type} (r : Re.rx) (text : option string)
    (f : Re.caps -> exc A) (e : pyerr) :
  Parser.field r text f = Raise e -> exists c, f c = Raise e.
Proof.
  unfold Parser.field. destruct text as [t |]; [| intros H; discriminate H].
  destruct (Re.search r t) as [[[? ?] c] |]; [| intros H; discriminate H].
  destruct (f c) as [x |] eqn:E; cbn [bind]; intros H; [discriminate H |].
  exists c. rewrite E. injection H as ->. reflexivity.
Qed.

Lemma mapM_raises {A B : Type} (f : A -> exc B) (l : list A) (e : pyerr) :
  mapM f l = Raise e -> exists a, In a l /\ f a = Raise e.
Proof.
  induction l as [| a l IH]; cbn [mapM]; [intros H; discriminate H |].
  destruct (f a) as [b |] eqn:Ea; cbn [bind].
  - destruct (mapM f l) as [bs |]; cbn [bind]; intros H; [discriminate H |].
    destruct (IH H) as (a' & Hin & Ha'). exists a'. split; [now right | exact Ha'].
  - intros H. exists a. split; [now left |]. congruence.
Qed.

Lemma parse_fcs_raises (fcs_text : string) (e : pyerr) :
  Parser.parse_fcs fcs_text = Raise e -> e = ValueError.
Proof.
  unfold Parser.parse_fcs.
  repeat (match goal with
          | |- bind ?m _ = Raise e -> _ =>
              let E := fresh "E" in
              destruct m eqn:E; cbn [bind];
              [| let H := fresh "H" in
                 intros H; injection H as ->;
                 first [ apply field_raises in E; destruct E as [c Ec]
                       | apply mapM_raises in E; destruct E as (c & _ & Ec) ] ]
          end);
    try (intros H; discriminate H).
  all: try discriminate Ec.
  all: try (unfold Parser.parse_position in Ec).
  all: repeat match type of Ec with
              | bind ?m _ = Raise _ =>
                  let E := fresh "E" in
                  destruct m eqn:E; cbn [bind] in Ec;
                  [| injection Ec as <-;
                     first [ apply money_value_raises in E
                           | apply int_of_digits_raises in E ]; exact E]
              end.
  all: try discriminate Ec.
  all: first [ apply money_value_raises in Ec
             | apply int_of_digits_raises in Ec
             | apply to_float_raises in Ec ]; exact Ec.
Qed.





(** ** The two optional parts of the result *)

(** The scenarios of an analysis are in strictly ascending order of term. *)
Lemma analysis_terms_ascending (profiles : Directory) (deposit : LastDeposit.t)
    (payment : float) (f : Frequency) (revenue : float) (a : Analysis.t) :
  analyze_last_position profiles deposit payment f revenue = Ok a ->
  StronglySorted Z.lt (map Scenario.term (Analysis.scenarios a)).
Proof.
  destruct (ranked_scenarios_total profiles deposit payment f) as [ranked Er].
  rewrite (analyze_last_position_scenarios _ _ _ _ _ _ Er).
  intros H. injection H as <-. cbn [Analysis.scenarios].
  apply (emitted_scenarios_spec ranked).
Qed.

(** What [analyze] does with a last deposit that the parser produced, whose
    payment and frequency are therefore present. *)
Lemma analyze_deposit_parsed (profiles : Directory) (tol rev : float)
    (ld : LastDeposit.t) (actives : list Position.t) (p : float) (f : Frequency) :
  LastDeposit.payment ld = Some p -> LastDeposit.frequency ld = Some f ->
  analyze_deposit profiles tol rev ld actives =
  if PyFloat.truthy p then
    a <- analyze_last_position profiles ld p f rev ;;
    match Analysis.scenarios a with
    | best :: _ =>
        af <- calculate_affordable_funding tol rev best f ;; Ok (Some a, Some af)
    | [] => Ok (Some a, None)
    end
  else Ok (None, None).
Proof.
  intros Hp Hf. unfold analyze_deposit, resolve_payment. rewrite Hp, Hf. reflexivity.
Qed.

(** X13. In an aggregate result obtained from a text: lastPositionAnalysis
    is null exactly when the text has no last deposit or its payment is
    zero; affordableFunding is null exactly when there is no analysis or the
    analysis has no scenario; and when both are present the projection was
    computed from the first scenario of the analysis, which is the one with
    the shortest term, with the frequency of the deposit and the tolerance
    given. *)
Theorem analyze_sub_results (profiles : Directory) (fcs_text : string) (tol : float)
    (d : Parsed.t) (rep : Report.t) :
  Parser.parse_fcs fcs_text = Ok d ->
  analyze profiles fcs_text tol = Ok (Aggregate rep) ->
  (Report.lastPositionAnalysis rep = None <->
     Parsed.lastDeposit d = None
     \/ exists ld p, Parsed.lastDeposit d = Some ld
                     /\ LastDeposit.payment ld = Some p
                     /\ PrimFloat.eqb p zero = true)
  /\ (Report.affordableFunding rep = None <->
        match Report.lastPositionAnalysis rep with
        | None => True
        | Some a => Analysis.scenarios a = []
        end)
  /\ (forall a af,
        Report.lastPositionAnalysis rep = Some a ->
        Report.affordableFunding rep = Some af ->
        exists best rest ld f,
          Analysis.scenarios a = best :: rest
          /\ Parsed.lastDeposit d = Some ld
          /\ LastDeposit.frequency ld = Some f
          /\ Affordable.frequency af = f
          /\ Affordable.term af = Scenario.term best
          /\ Affordable.termUnit af = Scenario.termUnit best
          /\ Affordable.additionalWithhold af = tol
          /\ forall s, In s rest -> Scenario.term best < Scenario.term s).
Proof.
  intros Hparse. unfold analyze. rewrite Hparse. cbn [bind]. intros Han.
  destruct (AnalyzeSpec.revenue_ok d) eqn:Eok;
    [| rewrite (analyze_parsed_no_revenue _ _ _ Eok) in Han; discriminate Han].
  unfold AnalyzeSpec.revenue_ok in Eok.
  destruct (Parsed.avgRevenue d) as [rev |] eqn:Erev; [| discriminate Eok].
  rewrite (analyze_parsed_revenue _ _ _ _ Erev Eok) in Han.
  destruct (Parsed.lastDeposit d) as [ld |] eqn:Eld.
  - destruct (parse_fcs_last_deposit _ _ _ Hparse Eld) as (p & f & Hp & Hf).
    rewrite (analyze_deposit_parsed _ _ _ _ _ _ _ Hp Hf) in Han.
    unfold PyFloat.truthy in Han.
    destruct (PrimFloat.eqb p zero) eqn:Ez; cbn [negb] in Han.
    + cbn [bind fst snd] in Han. injection Han as <-.
      cbn [Report.lastPositionAnalysis Report.affordableFunding].
      split; [split; [intros _; right; exists ld, p; repeat split; assumption
                     | reflexivity] |].
      split; [split; [intros _; exact I | reflexivity] |].
      intros a af H. discriminate H.
    + destruct (analyze_last_position profiles ld p f rev) as [a |] eqn:Ea;
        cbn [bind] in Han; [| discriminate Han].
      pose proof (analysis_terms_ascending _ _ _ _ _ _ Ea) as Hsorted.
      destruct (Analysis.scenarios a) as [| best rest] eqn:Es.
      * cbn [bind fst snd] in Han. injection Han as <-.
        cbn [Report.lastPositionAnalysis Report.affordableFunding].
        split.
        { split; [intros H; discriminate H |].
          intros [H | (ld' & p' & Hld' & Hp' & Hz')]; [discriminate H |].
          injection Hld' as <-. rewrite Hp in Hp'. injection Hp' as <-.
          rewrite Ez in Hz'. discriminate Hz'. }
        split; [split; [intros _; exact Es | reflexivity] |].
        intros a' af _ H. discriminate H.
      * destruct (calculate_affordable_funding tol rev best f) as [af |] eqn:Eaf;
          cbn [bind fst snd] in Han; [| discriminate Han].
        injection Han as <-.
        cbn [Report.lastPositionAnalysis Report.affordableFunding].
        split.
        { split; [intros H; discriminate H |].
          intros [H | (ld' & p' & Hld' & Hp' & Hz')]; [discriminate H |].
          injection Hld' as <-. rewrite Hp in Hp'. injection Hp' as <-.
          rewrite Ez in Hz'. discriminate Hz'. }
        split.
        { rewrite Es. split; intros H; discriminate H. }
        intros a' af' Ha' Haf'. injection Ha' as <-. injection Haf' as <-.
        exists best, rest, ld, f.
        split; [exact Es |]. split; [reflexivity |]. split; [exact Hf |].
        unfold calculate_affordable_funding in Eaf.
        destruct (PyStr.to_float (Scenario.factor best)) as [y |];
          cbn [bind] in Eaf; [| discriminate Eaf].
        destruct (PyFloat.div _ y) as [q |]; cbn [bind] in Eaf; [| discriminate Eaf].
        destruct (PyFloat.round q) as [n |]; cbn [bind] in Eaf; [| discriminate Eaf].
        injection Eaf as <-.
        cbn [Affordable.frequency Affordable.term Affordable.termUnit
             Affordable.additionalWithhold].
        repeat (split; [reflexivity |]).
        cbn [map] in Hsorted. inversion Hsorted as [| ? ? _ Hall]; subst.
        rewrite Forall_forall in Hall. intros s Hs. apply Hall. now apply in_map.
  - cbn [bind fst snd] in Han. injection Han as <-.
    cbn [Report.lastPositionAnalysis Report.affordableFunding].
    split; [split; [intros _; now left | reflexivity] |].
    split; [split; [intros _; exact I | reflexivity] |].
    intros a af H. discriminate H.
Qed.

Lemma analyze_sub_results_witness :
  exists rep,
    analyze [] end_to_end_report 10 = Ok (Aggregate rep)
    /\ (Report.affordableFunding rep = None <->
        match Report.lastPositionAnalysis rep with
        | None => True
        | Some a => Analysis.scenarios a = []
        end).
Proof.
  destruct (analyze [] end_to_end_report 10) as [[msg | rep] |] eqn:Ea;
    [vm_compute in Ea; discriminate Ea | | vm_compute in Ea; discriminate Ea].
  exists rep. split; [reflexivity |].
  assert (Hp : Parser.parse_fcs end_to_end_report = Ok end_to_end_facts)
    by (vm_compute; reflexivity).
  exact (proj1 (proj2 (analyze_sub_results [] end_to_end_report 10 _ rep Hp Ea))).
Defined.

(** ** The fallback that matches the deposit against the positions *)

(** X14. On a text, the fallback of [analyze] that looks for an active
    position with a lender name like the deposit's is never taken: the
    parser stores a payment and a frequency with every last deposit, so the
    payment and the frequency analysed are the deposit's own, whatever the
    positions. *)
Theorem fallback_never_taken (fcs_text : string) (d : Parsed.t) (ld : LastDeposit.t)
    (active_positions : list Position.t) :
  Parser.parse_fcs fcs_text = Ok d ->
  Parsed.lastDeposit d = Some ld ->
  exists p f,
    LastDeposit.payment ld = Some p
    /\ LastDeposit.frequency ld = Some f
    /\ resolve_payment ld active_positions = (Some p, Some f).
Proof.
  intros Hparse Hld.
  destruct (parse_fcs_last_deposit _ _ _ Hparse Hld) as (p & f & Hp & Hf).
  exists p, f. split; [exact Hp |]. split; [exact Hf |].
  unfold resolve_payment. rewrite Hp, Hf. reflexivity.
Qed.

Lemma fallback_never_taken_witness :
  exists p f,
    LastDeposit.payment zero_payment_deposit = Some p
    /\ LastDeposit.frequency zero_payment_deposit = Some f
    /\ resolve_payment zero_payment_deposit [example_position 2000 weekly active] =
       (Some p, Some f).
Proof.
  apply (fallback_never_taken zero_payment_report
           (parsed_with 150000 (Some zero_payment_deposit) [])).
  - vm_compute. reflexivity.
  - reflexivity.
Defined.

Lemma prefix_refl (s : string) : prefix s s = true.
Proof.
  induction s as [| a s IH]; [reflexivity |]. cbn. 
  destruct (ascii_dec a a) as [_ | Hne]; [exact IH | now elim Hne].
Qed.

Lemma contains_refl (s : string) : PyStr.contains s s = true.
Proof. destruct s; cbn [PyStr.contains]; now rewrite prefix_refl. Qed.

Lemma lower_char_idem (a : ascii) :
  PyStr.lower_char (PyStr.lower_char a) = PyStr.lower_char a.
Proof. destruct a as [[] [] [] [] [] [] [] []]; vm_compute; reflexivity. Qed.

Lemma lower_idem (s : string) : PyStr.lower (PyStr.lower s) = PyStr.lower s.
Proof.
  unfold PyStr.lower. induction s as [| a s IH]; cbn [PyStr.map_chars]; [reflexivity |].
  now rewrite lower_char_idem, IH.
Qed.

(** X15. The fuzzy comparison of lender names used by the fallback is
    symmetric, gives the same answer for a name and for its lower-case
    form, accepts any two names whose first ten cleaned characters are the
    same, and accepts every position when nothing is left of the deposit's
    name after cleaning. *)
Theorem position_matches_facts (deposit_lender : string) (pos : Position.t) :
  (forall pos', Position.lender pos' = deposit_lender ->
     position_matches (Position.lender pos) pos' = position_matches deposit_lender pos)
  /\ position_matches (PyStr.lower deposit_lender) pos = position_matches deposit_lender pos
  /\ (lender_clean deposit_lender = lender_clean (Position.lender pos) ->
      position_matches deposit_lender pos = true)
  /\ (lender_clean deposit_lender = ""%string ->
      position_matches deposit_lender pos = true).
Proof.
  assert (Hlow : lender_clean (PyStr.lower deposit_lender) = lender_clean deposit_lender)
    by (unfold lender_clean; now rewrite lower_idem).
  unfold position_matches. rewrite Hlow.
  split; [| split; [reflexivity | split]].
  - intros pos' <-.
    rewrite (String.eqb_sym (PyStr.take 5 (lender_clean (Position.lender pos)))).
    now rewrite (orb_comm (PyStr.contains (lender_clean (Position.lender pos)) _)).
  - intros ->. now rewrite contains_refl.
  - intros ->. now rewrite contains_empty.
Qed.

Lemma find_first {A : Type} (f : A -> bool) (l : list A) :
  match find f l with
  | Some x => exists before after,
                l = before ++ x :: after /\ f x = true
                /\ forall y, In y before -> f y = false
  | None => forall y, In y l -> f y = false
  end.
Proof.
  induction l as [| a l IH]; cbn [find]; [intros y [] |].
  destruct (f a) eqn:E.
  - exists [], l. split; [reflexivity |]. split; [exact E | intros y []].
  - destruct (find f l) as [x |].
    + destruct IH as (before & after & -> & Hx & Hb).
      exists (a :: before), after. split; [reflexivity |]. split; [exact Hx |].
      intros y [<- | Hy]; [exact E | now apply Hb].
    + intros y [<- | Hy]; [exact E | now apply IH].
Qed.

(** X16. For a deposit record without a payment or without a frequency, as
    a caller other than the parser may pass, the payment and frequency
    analysed are those of the first active position whose lender name
    matches the deposit's; when no position matches there is nothing to
    analyse. *)
Theorem resolve_payment_fallback (last_deposit : LastDeposit.t)
    (active_positions : list Position.t) :
  LastDeposit.payment last_deposit = None \/ LastDeposit.frequency last_deposit = None ->
  ((forall pos, In pos active_positions ->
      position_matches (LastDeposit.lender last_deposit) pos = false)
   /\ resolve_payment last_deposit active_positions = (None, None))
  \/ exists before pos after,
       active_positions = before ++ pos :: after
       /\ position_matches (LastDeposit.lender last_deposit) pos = true
       /\ (forall q, In q before ->
             position_matches (LastDeposit.lender last_deposit) q = false)
       /\ resolve_payment last_deposit active_positions =
          (Some (Position.amount pos), Some (Position.frequency pos)).
Proof.
  intros Hmissing.
  assert (E : resolve_payment last_deposit active_positions =
              match find (position_matches (LastDeposit.lender last_deposit))
                      active_positions with
              | Some matching_position =>
                  (Some (Position.amount matching_position),
                   Some (Position.frequency matching_position))
              | None => (None, None)
              end).
  { unfold resolve_payment.
    destruct Hmissing as [-> | ->]; [reflexivity |].
    destruct (LastDeposit.payment last_deposit); reflexivity. }
  rewrite E.
  pose proof (find_first (position_matches (LastDeposit.lender last_deposit))
                active_positions) as Hf.
  destruct (find _ active_positions) as [pos |].
  - right. destruct Hf as (before & after & Hl & Hm & Hb).
    exists before, pos, after. repeat split; assumption.
  - left. split; [exact Hf | reflexivity].
Qed.

Definition bare_deposit : LastDeposit.t :=
  LastDeposit.mk 47500 "01/15/2025" "LENDER Inc" None None.

Lemma resolve_payment_fallback_witness :
  resolve_payment bare_deposit [example_position 2000 weekly active] =
  (Some 2000%float, Some weekly).
Proof.
  destruct (resolve_payment_fallback bare_deposit
              [example_position 2000 weekly active] (or_introl eq_refl))
    as [[Hnone _] | (before & pos & after & _ & _ & _ & _)].
  - specialize (Hnone _ (or_introl eq_refl)). vm_compute in Hnone. discriminate Hnone.
  - vm_compute. reflexivity.
Defined.

(** * The patterns of the parser *)

(** ** What a quantifier consumes *)

Fixpoint str_all (p : ascii -> bool) (s : string) : bool :=
  match s with
  | EmptyString => true
  | String a s' => p a && str_all p s'
  end.

Fixpoint str_any (p : ascii -> bool) (s : string) : bool :=
  match s with
  | EmptyString => false
  | String a s' => p a || str_any p s'
  end.

Lemma rep_eq (g : bool) (p : ascii -> bool) (lo : nat) (hi : option nat)
    (k : Re.kont) (s : string) (c : Re.caps) :
  Re.rep g p lo hi k s c =
  let stop := match lo with O => k s c | S _ => None end in
  let more :=
    match hi, s with
    | Some O, _ => None
    | _, String a s' =>
        if p a then Re.rep g p (Nat.pred lo) (option_map Nat.pred hi) k s' c
        else None
    | _, EmptyString => None
    end in
  if g
  then match more with Some r => Some r | None => stop end
  else match stop with Some r => Some r | None => more end.
Proof. destruct s; reflexivity. Qed.

(** A quantified class consumes a run of characters of the class, of a
    length within its bounds, and then hands over to what follows. *)
Lemma rep_shape (g : bool) (p : ascii -> bool) (k : Re.kont) (c : Re.caps)
    (o : string * Re.caps) (s : string) :
  forall (lo : nat) (hi : option nat),
  Re.rep g p lo hi k s c = Some o ->
  exists pre s',
    s = (pre ++ s')%string
    /\ str_all p pre = true
    /\ (lo <= String.length pre)%nat
    /\ match hi with
       | Some h => (String.length pre <= h)%nat
       | None => True
       end
    /\ k s' c = Some o.
Proof.
  induction s as [| a s IH]; intros lo hi H; rewrite rep_eq in H; cbv zeta in H.
  - assert (Hstop : match lo with O => k EmptyString c | S _ => None end = Some o).
    { destruct g; destruct hi as [[| h] |]; destruct lo; try exact H;
        try discriminate H; destruct (k EmptyString c); try exact H; discriminate H. }
    destruct lo; [| discriminate Hstop].
    exists EmptyString, EmptyString. repeat split; try reflexivity.
    + destruct hi; [apply Nat.le_0_l | exact I].
    + exact Hstop.
  - set (stop := match lo with O => k (String a s) c | S _ => None end) in H.
    set (more := match hi with
                 | Some O => None
                 | _ => if p a
                        then Re.rep g p (Nat.pred lo) (option_map Nat.pred hi) k s c
                        else None
                 end).
    assert (Hmore : match hi with
                    | Some O => None
                    | _ => if p a
                           then Re.rep g p (Nat.pred lo) (option_map Nat.pred hi) k s c
                           else None
                    end = more) by reflexivity.
    assert (Hcase : stop = Some o \/ more = Some o).
    { destruct g.
      - destruct hi as [[| h] |]; cbn in H; fold more in H;
          try (right; subst more; destruct (p a); [| left];
               destruct (Re.rep _ _ _ _ _ _ _); auto; fail);
          try (left; exact H).
        all: unfold more; destruct (p a);
          [destruct (Re.rep true p _ _ k s c); [right; exact H | left; exact H]
          | left; exact H].
      - destruct stop as [r |]; [left; exact H |].
        right. unfold more. destruct hi as [[| h] |]; exact H. }
    destruct Hcase as [Hs | Hm].
    + unfold stop in Hs. destruct lo; [| discriminate Hs].
      exists EmptyString, (String a s). repeat split; try reflexivity.
      * destruct hi; [apply Nat.le_0_l | exact I].
      * exact Hs.
    + unfold more in Hm.
      assert (Hrec : p a = true
                     /\ hi <> Some O
                     /\ Re.rep g p (Nat.pred lo) (option_map Nat.pred hi) k s c = Some o).
      { destruct hi as [[| h] |]; [discriminate Hm | |];
          (destruct (p a); [| discriminate Hm]);
          (split; [reflexivity |]); (split; [discriminate | exact Hm]). }
      destruct Hrec as (Pa & Hhi & Hrec).
      destruct (IH _ _ Hrec) as (pre & s' & -> & Hall & Hlo & Hh & Hk).
      exists (String a pre), s'. cbn [append str_all String.length].
      rewrite Pa, Hall. repeat split; try reflexivity; try exact Hk.
      * lia.
      * destruct hi as [[| h] |]; cbn [option_map] in Hh; try exact I;
          [now elim Hhi | cbn in Hh; lia].
Qed.

(** ** Amounts: the pattern [[\d,]+\.?\d*] and its conversion *)

(** The texts that the amount pattern matches: a run of digits and commas
    that is not empty, at most one point, and a run of digits. *)
Definition money_text (g : string) : Prop :=
  exists a dt b,
    g = (a ++ dt ++ b)%string
    /\ str_all (Re.digit_or ",") a = true
    /\ a <> EmptyString
    /\ (dt = EmptyString \/ dt = "."%string)
    /\ str_all PyStr.is_digit b = true.

Lemma append_nil_r (s : string) : (s ++ "")%string = s.
Proof. induction s as [| a s IH]; cbn; [reflexivity | now rewrite IH]. Qed.

Lemma take_app (pre s' : string) :
  PyStr.take (String.length (pre ++ s') - String.length s') (pre ++ s') = pre.
Proof.
  assert (E : (String.length (pre ++ s') - String.length s' = String.length pre)%nat).
  { induction pre as [| a pre IH]; cbn [append String.length]; [lia |].
    assert (String.length s' <= String.length (pre ++ s'))%nat
      by (clear; induction pre; cbn; lia).
    lia. }
  rewrite E. clear E. induction pre as [| a pre IH]; cbn.
  - now destruct s'.
  - now rewrite IH.
Qed.

Lemma run_money (k : Re.kont) (s : string) (c : Re.caps) (o : string * Re.caps) :
  Re.run Re.money k s c = Some o ->
  exists g s', s = (g ++ s')%string /\ money_text g /\ k s' c = Some o.
Proof.
  unfold Re.money, Re.plus, Re.opt, Re.star. cbn [Re.seq Re.run].
  intros H.
  apply rep_shape in H. destruct H as (a & s1 & -> & Ha & Hla & _ & H).
  apply rep_shape in H. destruct H as (dt & s2 & -> & Hdt & _ & Hldt & H).
  apply rep_shape in H. destruct H as (b & s3 & -> & Hb & _ & _ & H).
  exists (a ++ dt ++ b)%string, s3.
  split; [now rewrite !FormatFacts.append_assoc |]. split; [| exact H].
  exists a, dt, b. split; [reflexivity |]. split; [exact Ha |].
  split; [destruct a; [cbn in Hla; lia | discriminate] |].
  split; [| exact Hb].
  destruct dt as [| x [| y dt]]; [now left | right | cbn in Hldt; lia].
  cbn in Hdt. rewrite andb_true_r in Hdt. unfold Re.is_char in Hdt.
  apply Ascii.eqb_eq in Hdt. now subst.
Qed.

(** A group around the amount pattern captures a text of that form. *)
Lemma run_money_group (i : nat) (k : Re.kont) (s : string) (c : Re.caps)
    (o : string * Re.caps) :
  Re.run (Re.Grp i Re.money) k s c = Some o ->
  exists g s', s = (g ++ s')%string /\ money_text g /\ k s' ((i, g) :: c) = Some o.
Proof.
  cbn [Re.run]. intros H. apply run_money in H.
  destruct H as (g & s' & -> & Hg & H). rewrite take_app in H.
  now exists g, s'.
Qed.

Lemma remove_comma_app (a b : string) :
  PyStr.remove_char "," (a ++ b) = (PyStr.remove_char "," a ++ PyStr.remove_char "," b)%string.
Proof.
  induction a as [| x a IH]; cbn [append PyStr.remove_char]; [reflexivity |].
  destruct (Ascii.eqb x ","); cbn [append]; now rewrite IH.
Qed.

Lemma remove_comma_digits (b : string) :
  str_all PyStr.is_digit b = true -> PyStr.remove_char "," b = b.
Proof.
  induction b as [| x b IH]; cbn [str_all PyStr.remove_char]; [reflexivity |].
  intros H. apply andb_true_iff in H. destruct H as [Hx Hb].
  assert (E : Ascii.eqb x "," = false)
    by (destruct x as [[] [] [] [] [] [] [] []]; try reflexivity; discriminate Hx).
  now rewrite E, IH.
Qed.

Lemma remove_comma_run (a : string) :
  str_all (Re.digit_or ",") a = true ->
  PyStr.all_digits (PyStr.remove_char "," a) = true
  /\ str_any PyStr.is_digit a =
       negb (Nat.eqb (String.length (PyStr.remove_char "," a)) 0).
Proof.
  induction a as [| x a IH]; cbn [str_all str_any PyStr.remove_char]; [now split |].
  intros H. apply andb_true_iff in H. destruct H as [Hx Ha].
  destruct (IH Ha) as [IH1 IH2]. unfold Re.digit_or in Hx.
  destruct (Ascii.eqb x ",") eqn:E.
  - apply Ascii.eqb_eq in E. subst x. split; [exact IH1 | exact IH2].
  - rewrite orb_false_r in Hx. cbn [PyStr.all_digits String.length Nat.eqb negb].
    rewrite Hx, IH1. now split.
Qed.

Lemma str_all_digits (b : string) :
  str_all PyStr.is_digit b = PyStr.all_digits b.
Proof. induction b as [| x b IH]; cbn; [reflexivity | now rewrite IH]. Qed.

Lemma str_any_app (p : ascii -> bool) (a b : string) :
  str_any p (a ++ b) = str_any p a || str_any p b.
Proof.
  induction a as [| x a IH]; cbn [append str_any]; [reflexivity |].
  now rewrite IH, orb_assoc.
Qed.

Lemma str_any_digits (b : string) :
  PyStr.all_digits b = true ->
  str_any PyStr.is_digit b = negb (Nat.eqb (String.length b) 0).
Proof.
  destruct b as [| x b]; cbn; [reflexivity |].
  intros H. apply andb_true_iff in H. destruct H as [-> _]. reflexivity.
Qed.

Lemma split_sign_digits (s : string) :
  str_all (Re.digit_or ".") s = true -> PyStr.split_sign s = (false, s).
Proof.
  destruct s as [| x s]; [reflexivity |]. cbn [str_all]. intros H.
  apply andb_true_iff in H. destruct H as [Hx _]. unfold PyStr.split_sign.
  assert (E : Ascii.eqb x "-" = false /\ Ascii.eqb x "+" = false).
  { destruct x as [[] [] [] [] [] [] [] []]; try (split; reflexivity);
      discriminate Hx. }
  destruct E as [-> ->]. reflexivity.
Qed.

Lemma split_dot_all_digits (ds : string) :
  PyStr.all_digits ds = true -> PyStr.split_dot ds = (ds, None).
Proof.
  induction ds as [| a ds IH]; cbn; [reflexivity |].
  intros H. apply andb_true_iff in H. destruct H as [Ha Hds].
  destruct (FormatFacts.digit_not_mark a Ha) as (-> & _ & _). now rewrite IH.
Qed.

Lemma all_digits_or_dot (s : string) :
  PyStr.all_digits s = true -> str_all (Re.digit_or ".") s = true.
Proof.
  induction s as [| a s IH]; cbn; [reflexivity |].
  intros H. apply andb_true_iff in H. destruct H as [Ha Hs].
  unfold Re.digit_or at 1. now rewrite Ha, IH.
Qed.

Lemma str_all_app (p : ascii -> bool) (a b : string) :
  str_all p (a ++ b) = str_all p a && str_all p b.
Proof.
  induction a as [| x a IH]; cbn [append str_all]; [reflexivity |].
  now rewrite IH, andb_assoc.
Qed.

(** [float] of digits, at most one point, digits. *)
Lemma to_float_plain (ds dt fs : string) :
  PyStr.all_digits ds = true -> (dt = EmptyString \/ dt = "."%string) ->
  PyStr.all_digits fs = true ->
  if Nat.eqb (String.length ds + String.length fs) 0
  then PyStr.to_float (ds ++ dt ++ fs) = Raise ValueError
  else exists v, PyStr.to_float (ds ++ dt ++ fs) = Ok v.
Proof.
  intros Hds Hdt Hfs.
  assert (Hsign : PyStr.split_sign (ds ++ dt ++ fs) = (false, (ds ++ dt ++ fs)%string)).
  { apply split_sign_digits. rewrite !str_all_app.
    rewrite (all_digits_or_dot _ Hds), (all_digits_or_dot _ Hfs).
    destruct Hdt as [-> | ->]; reflexivity. }
  rewrite FormatFacts.to_float_read_plain.
  2:{ rewrite !FormatFacts.all_plain_app.
      rewrite (FormatFacts.all_digits_plain ds Hds), (FormatFacts.all_digits_plain fs Hfs).
      destruct Hdt as [-> | ->]; reflexivity. }
  destruct Hdt as [-> | ->].
  - cbn [append].
    destruct (Nat.eqb (String.length ds + String.length fs) 0) eqn:E.
    + apply Nat.eqb_eq in E.
      destruct ds; [| cbn in E; lia]. destruct fs; [| cbn in E; lia]. reflexivity.
    + unfold FormatFacts.read_plain. cbn [append] in Hsign. rewrite Hsign.
      rewrite split_dot_all_digits by (now rewrite FormatFacts.all_digits_app, Hds, Hfs).
      rewrite FormatFacts.all_digits_app, Hds, Hfs. cbn [PyStr.all_digits andb].
      assert (El : Nat.eqb (String.length (ds ++ fs) + String.length "") 0 = false).
      { apply Nat.eqb_neq in E. apply Nat.eqb_neq. cbn [String.length].
        assert (String.length (ds ++ fs) = String.length ds + String.length fs)%nat
          by (clear; induction ds; cbn; [reflexivity | now f_equal]).
        lia. }
      rewrite El. cbn [negb].
      destruct (PyStr.digits_val 0 _); eauto.
  - destruct (Nat.eqb (String.length ds + String.length fs) 0) eqn:E.
    + apply Nat.eqb_eq in E.
      destruct ds; [| cbn in E; lia]. destruct fs; [| cbn in E; lia]. reflexivity.
    + unfold FormatFacts.read_plain. rewrite Hsign.
      change (ds ++ "." ++ fs)%string with (ds ++ String "." fs)%string.
      rewrite (FormatFacts.split_dot_digits ds fs Hds). rewrite Hds, Hfs, E.
      cbn [andb negb]. destruct (PyStr.digits_val 0 _); eauto.
Qed.

(** X18. Whatever follows it in a pattern, a group around the amount
    pattern captures digits and commas, at most one point, and digits; the
    conversion [float(g.replace(',', ''))] of the captured text succeeds
    when it has at least one digit and raises ValueError when it has none
    (commas only, with or without a point). *)
Theorem money_group_conversion (i : nat) (k : Re.kont) (s : string) (c : Re.caps)
    (o : string * Re.caps) :
  Re.run (Re.Grp i Re.money) k s c = Some o ->
  exists g s',
    s = (g ++ s')%string
    /\ k s' ((i, g) :: c) = Some o
    /\ money_text g
    /\ if str_any PyStr.is_digit g
       then exists v, Parser.money_value g = Ok v
       else Parser.money_value g = Raise ValueError.
Proof.
  intros H. apply run_money_group in H. destruct H as (g & s' & Hs & Hg & Hk).
  exists g, s'. split; [exact Hs |]. split; [exact Hk |]. split; [exact Hg |].
  destruct Hg as (a & dt & b & -> & Ha & _ & Hdt & Hb).
  unfold Parser.money_value. rewrite !remove_comma_app.
  rewrite (remove_comma_digits b Hb).
  assert (Edt : PyStr.remove_char "," dt = dt) by (destruct Hdt as [-> | ->]; reflexivity).
  rewrite Edt.
  destruct (remove_comma_run a Ha) as [Hds Hany].
  rewrite str_all_digits in Hb.
  pose proof (to_float_plain _ dt b Hds Hdt Hb) as Hf.
  rewrite !str_any_app, Hany, (str_any_digits b Hb).
  assert (Ed : str_any PyStr.is_digit dt = false) by (destruct Hdt as [-> | ->]; reflexivity).
  rewrite Ed, orb_false_l.
  destruct (String.length (PyStr.remove_char "," a)) as [| n];
    destruct (String.length b) as [| m]; cbn in Hf |- *; exact Hf.
Qed.

Lemma money_group_conversion_witness :
  exists g s',
    "1,500.25 weekly"%string = (g ++ s')%string
    /\ money_text g
    /\ if str_any PyStr.is_digit g
       then exists v, Parser.money_value g = Ok v
       else Parser.money_value g = Raise ValueError.
Proof.
  destruct (money_group_conversion 1 (fun s' c => Some (s', c)) "1,500.25 weekly" []
              (" weekly"%string, [(1%nat, "1,500.25"%string)]) eq_refl)
    as (g & s' & H1 & _ & H2 & H3).
  exists g, s'. split; [exact H1 |]. split; [exact H2 | exact H3].
Defined.

(** ** Keywords: the frequency and the status *)

Lemma lower_char_eqb (x a : ascii) :
  Ascii.eqb (PyStr.lower_char x) (PyStr.lower_char a) = true ->
  PyStr.lower_char x = PyStr.lower_char a.
Proof. apply Ascii.eqb_eq. Qed.

Lemma run_lit (a : ascii) (k : Re.kont) (s : string) (c : Re.caps)
    (o : string * Re.caps) :
  Re.run (Re.lit a) k s c = Some o ->
  exists x s', s = String x s' /\ PyStr.lower_char x = PyStr.lower_char a
               /\ k s' c = Some o.
Proof.
  unfold Re.lit. cbn [Re.run]. destruct s as [| x s']; [intros H; discriminate H |].
  destruct (Ascii.eqb (PyStr.lower_char x) (PyStr.lower_char a)) eqn:E;
    [| intros H; discriminate H].
  intros H. exists x, s'. split; [reflexivity |].
  split; [now apply lower_char_eqb | exact H].
Qed.

(** A literal word matches a text that is the word up to letter case. *)
Lemma run_str (t : string) (k : Re.kont) (c : Re.caps) (o : string * Re.caps) :
  forall s, Re.run (Re.str t) k s c = Some o ->
  exists g s', s = (g ++ s')%string /\ PyStr.lower g = PyStr.lower t
               /\ k s' c = Some o.
Proof.
  induction t as [| a t IH]; intros s H.
  - cbn [Re.str] in H. unfold Re.eps in H. cbn [Re.run] in H.
    apply rep_shape in H. destruct H as (pre & s' & -> & _ & _ & Hlen & H).
    destruct pre; [| cbn in Hlen; lia]. now exists EmptyString, s'.
  - destruct t as [| b t].
    + cbn [Re.str] in H. apply run_lit in H. destruct H as (x & s' & -> & Hx & H).
      exists (String x EmptyString), s'. split; [reflexivity |].
      split; [| exact H]. unfold PyStr.lower. cbn [PyStr.map_chars]. now rewrite Hx.
    + change (Re.str (String a (String b t)))
        with (Re.Cat (Re.lit a) (Re.str (String b t))) in H.
      cbn [Re.run] in H. apply run_lit in H. destruct H as (x & s' & -> & Hx & H).
      apply IH in H. destruct H as (g & s'' & -> & Hg & H).
      exists (String x g), s''. split; [reflexivity |]. split; [| exact H].
      unfold PyStr.lower in *. cbn [PyStr.map_chars]. now rewrite Hx, Hg.
Qed.

Lemma run_keywords (i : nat) (t1 t2 : string) (k : Re.kont) (s : string)
    (c : Re.caps) (o : string * Re.caps) :
  Re.run (Re.Grp i (Re.Alt (Re.str t1) (Re.str t2))) k s c = Some o ->
  exists g s',
    s = (g ++ s')%string /\ k s' ((i, g) :: c) = Some o
    /\ (PyStr.lower g = PyStr.lower t1 \/ PyStr.lower g = PyStr.lower t2).
Proof.
  cbn [Re.run]. intros H.
  destruct (Re.run (Re.str t1) _ s c) as [o1 |] eqn:E1.
  - injection H as ->. apply run_str in E1. destruct E1 as (g & s' & -> & Hg & Hk).
    rewrite take_app in Hk. exists g, s'. split; [reflexivity |]. split; [exact Hk |].
    now left.
  - apply run_str in H. destruct H as (g & s' & -> & Hg & Hk).
    rewrite take_app in Hk. exists g, s'. split; [reflexivity |]. split; [exact Hk |].
    now right.
Qed.

(** X19. On a text of code points below 256, the two keywords that the
    code compares with ['weekly'] and ['active'] can take no third value,
    whatever the letter case.  The group [(weekly|daily)] captures
    a text that is "weekly" or "daily" once lower-cased, so the branch
    [else] of a test [frequency == 'weekly'] is taken for "daily" only; the
    group [(Active|Stopped)] captures a text that is "active" or "stopped"
    once lower-cased, so a position that is not active is stopped. *)
Theorem keyword_groups (i : nat) (k : Re.kont) (s : string) (c : Re.caps)
    (o : string * Re.caps) :
  (Re.run (Re.Grp i Parser.freq_re) k s c = Some o ->
   exists g s',
     s = (g ++ s')%string /\ k s' ((i, g) :: c) = Some o
     /\ (PyStr.lower g = "weekly"%string \/ PyStr.lower g = "daily"%string)
     /\ (Parser.frequency_of (PyStr.lower g) = daily <->
         PyStr.lower g = "daily"%string))
  /\ (Re.run (Re.Grp i (Re.Alt (Re.str "Active") (Re.str "Stopped"))) k s c = Some o ->
      exists g s',
        s = (g ++ s')%string /\ k s' ((i, g) :: c) = Some o
        /\ (PyStr.lower g = "active"%string \/ PyStr.lower g = "stopped"%string)
        /\ (Parser.status_of (PyStr.lower g) = stopped <->
            PyStr.lower g = "stopped"%string)).
Proof.
  split; intros H; apply run_keywords in H;
    destruct H as (g & s' & Hs & Hk & Hg); exists g, s';
    (split; [exact Hs |]); (split; [exact Hk |]);
    (split; [exact Hg |]).
  - unfold Parser.frequency_of.
    destruct Hg as [-> | ->]; cbn; split; intros H; try reflexivity; discriminate H.
  - unfold Parser.status_of.
    destruct Hg as [-> | ->]; cbn; split; intros H; try reflexivity; discriminate H.
Qed.

(** ** A text without the summary block *)

Lemma parse_fcs_no_summary (fcs_text : string) :
  Re.search Parser.summary_re fcs_text = None ->
  Parser.parse_fcs fcs_text =
  (lastDeposit <- Parser.field Parser.last_deposit_pattern (Some fcs_text)
     (fun c =>
        a <- Parser.money_value (Re.group c 1) ;;
        p <- Parser.money_value (Re.group c 4) ;;
        Ok (LastDeposit.mk a (Re.group c 2) (PyStr.strip (Re.group c 3)) (Some p)
              (Some (Parser.frequency_of (PyStr.lower (Re.group c 5)))))) ;;
   mcaPositions <- mapM Parser.parse_position
                     (Re.finditer Parser.position_pattern fcs_text) ;;
   Ok (Parsed.mk None None None None None None None None None None
         lastDeposit mcaPositions)).
Proof. intros H. unfold Parser.parse_fcs. rewrite H. reflexivity. Qed.

(** X20. The facts of the summary are looked for inside the block that
    follows a heading "N-Month Summary" only.  On a text without such a
    heading, the empty text for one, the parser finds none of them, the
    revenue included, whatever else the text contains; the entry point then
    returns the error record, unless the parser raised ValueError on a
    numeral of the deposit line or of a position. *)
Theorem no_summary_no_revenue (profiles : Directory) (fcs_text : string) (tol : float) :
  Re.search Parser.summary_re fcs_text = None ->
  (forall d, Parser.parse_fcs fcs_text = Ok d ->
     Parsed.businessName d = None /\ Parsed.currentPositionCount d = None
     /\ Parsed.nextPosition d = None /\ Parsed.industry d = None
     /\ Parsed.timeInBusiness d = None /\ Parsed.avgRevenue d = None
     /\ Parsed.negativeDays d = None /\ Parsed.avgNegativeDays d = None
     /\ Parsed.avgBankBalance d = None /\ Parsed.state d = None)
  /\ (analyze profiles fcs_text tol = Ok (ErrorRecord revenue_error)
      \/ (analyze profiles fcs_text tol = Raise ValueError
          /\ Parser.parse_fcs fcs_text = Raise ValueError)).
Proof.
  intros Hnone. pose proof (parse_fcs_no_summary fcs_text Hnone) as E.
  split.
  - intros d Hd. rewrite E in Hd. revert Hd.
    destruct (Parser.field Parser.last_deposit_pattern _ _) as [ld |];
      cbn [bind]; [| intros Hd; discriminate Hd].
    destruct (mapM Parser.parse_position _) as [ps |]; cbn [bind];
      [| intros Hd; discriminate Hd].
    intros Hd. injection Hd as <-. cbn. repeat split.
  - assert (Hcases : (exists d, Parser.parse_fcs fcs_text = Ok d)
                     \/ (exists e, Parser.parse_fcs fcs_text = Raise e))
      by (destruct (Parser.parse_fcs fcs_text); eauto).
    unfold analyze. destruct Hcases as [[d Ep] | [e Ep]]; rewrite Ep; cbn [bind].
    + left. rewrite E in Ep. revert Ep.
      destruct (Parser.field Parser.last_deposit_pattern _ _) as [ld |];
        cbn [bind]; [| intros Ep; discriminate Ep].
      destruct (mapM Parser.parse_position _) as [ps |]; cbn [bind];
        [| intros Ep; discriminate Ep].
      intros Ep. injection Ep as <-. reflexivity.
    + right. pose proof (parse_fcs_raises _ _ Ep) as ->. split; reflexivity.
Qed.

Lemma no_summary_no_revenue_witness :
  analyze [] "" 10 = Ok (ErrorRecord revenue_error)
  \/ (analyze [] "" 10 = Raise ValueError /\ Parser.parse_fcs "" = Raise ValueError).
Proof.
  apply (no_summary_no_revenue [] "" 10). vm_compute. reflexivity.
Defined.

(** ** No additional withholding, no funding *)

Module ZeroFacts.

Definition sf_zero (x : spec_float) : Prop :=
  match x with
  | S754_zero _ => True
  | _ => False
  end.

Definition is_zero (x : float) : Prop := sf_zero (Prim2SF x).

(** Finite and not zero. *)
Definition sf_proper (x : spec_float) : Prop :=
  match x with
  | S754_finite _ _ _ => True
  | _ => False
  end.

Definition proper (x : float) : Prop := sf_proper (Prim2SF x).

Lemma eqb_zero (x : float) : PrimFloat.eqb x zero = true <-> is_zero x.
Proof.
  unfold is_zero. rewrite eqb_spec, FloatFacts.SF_zero.
  destruct (Prim2SF x) as [s | s | | s m e]; cbn; split; intros H;
    try exact I; try reflexivity; try contradiction; try discriminate H.
  - destruct s; discriminate H.
  - destruct s; discriminate H.
Qed.

Lemma zero_div (x y : float) : is_zero x -> proper y -> is_zero (PrimFloat.div x y).
Proof.
  unfold is_zero, proper. rewrite div_spec.
  destruct (Prim2SF x) as [sx | sx | | sx mx ex]; cbn; try contradiction.
  destruct (Prim2SF y) as [sy | sy | | sy my ey]; cbn; try contradiction.
  intros _ _. exact I.
Qed.

Lemma zero_mul (x y : float) :
  is_zero x -> FiniteFacts.finite y -> is_zero (PrimFloat.mul x y).
Proof.
  unfold is_zero, FiniteFacts.finite. rewrite mul_spec.
  destruct (Prim2SF x) as [sx | sx | | sx mx ex]; cbn; try contradiction.
  destruct (Prim2SF y) as [sy | sy | | sy my ey]; cbn; try contradiction;
    intros _ _; exact I.
Qed.

Lemma round_zero (x : float) : is_zero x -> PyFloat.round x = Ok 0.
Proof.
  unfold is_zero, PyFloat.round.
  destruct (Prim2SF x); cbn; try contradiction. reflexivity.
Qed.

Lemma round_nd_zero (x : float) (k : nat) : is_zero x -> PyFloat.round_nd x k = x.
Proof.
  unfold is_zero, PyFloat.round_nd.
  destruct (Prim2SF x); cbn; try contradiction. reflexivity.
Qed.

Definition finite_b (x : float) : bool :=
  match Prim2SF x with
  | S754_zero _ | S754_finite _ _ _ => true
  | _ => false
  end.

Lemma finite_b_finite (x : float) : finite_b x = true -> FiniteFacts.finite x.
Proof.
  unfold finite_b, FiniteFacts.finite.
  destruct (Prim2SF x); cbn; intros H; try exact I; discriminate H.
Qed.

Lemma term_finite (f : Frequency) (t : Z) :
  In t (terms_of f) -> FiniteFacts.finite (PyFloat.of_Z t).
Proof.
  intros H. apply finite_b_finite.
  assert (Hall : forallb (fun t => finite_b (PyFloat.of_Z t)) (terms_of f) = true)
    by (destruct f; vm_compute; reflexivity).
  rewrite forallb_forall in Hall. now apply Hall.
Qed.

Lemma proper_consts : proper 100 /\ proper 21 /\ proper 5.
Proof. repeat split. Qed.

End ZeroFacts.

(** X21. With an additional withholding of zero there is nothing to fund:
    for a finite revenue and a scenario as the reconstructor emits them (a
    term of the frequency's list, a factor text that reads in the band), the
    projection returns, with availablePayment and totalPayback equal to zero
    and affordableFunding 0. *)
Theorem zero_tolerance_zero_funding (tol rev : float) (s : Scenario.t)
    (f : Frequency) (y : float) :
  PrimFloat.eqb tol zero = true ->
  FiniteFacts.finite rev ->
  In (Scenario.term s) (terms_of f) ->
  PyStr.to_float (Scenario.factor s) = Ok y ->
  factor_in_band y = true ->
  exists r,
    calculate_affordable_funding tol rev s f = Ok r
    /\ Affordable.affordableFunding r = 0
    /\ PrimFloat.eqb (Affordable.availablePayment r) zero = true
    /\ PrimFloat.eqb (Affordable.totalPayback r) zero = true.
Proof.
  intros Htol Hrev Hterm Hy Hband.
  destruct ZeroFacts.proper_consts as (P100 & P21 & P5).
  apply ZeroFacts.eqb_zero in Htol.
  assert (Hpay : ZeroFacts.is_zero (available_payment_of tol rev f)).
  { unfold available_payment_of.
    assert (Hd : ZeroFacts.is_zero
                   (PrimFloat.div (PrimFloat.mul (PrimFloat.div tol 100) rev) 21)).
    { apply ZeroFacts.zero_div; [| exact P21].
      apply ZeroFacts.zero_mul; [| exact Hrev].
      apply ZeroFacts.zero_div; [exact Htol | exact P100]. }
    destruct f; [| exact Hd].
    apply ZeroFacts.zero_mul; [exact Hd |]. unfold FiniteFacts.finite.
    unfold ZeroFacts.proper in P5. destruct (Prim2SF 5); try contradiction. exact I. }
  assert (Htotal : ZeroFacts.is_zero
                     (PrimFloat.mul (available_payment_of tol rev f)
                        (PyFloat.of_Z (Scenario.term s)))).
  { apply ZeroFacts.zero_mul; [exact Hpay |]. now apply (ZeroFacts.term_finite f). }
  assert (Hq : ZeroFacts.is_zero
                 (PrimFloat.div
                    (PrimFloat.mul (available_payment_of tol rev f)
                       (PyFloat.of_Z (Scenario.term s))) y)).
  { apply ZeroFacts.zero_div; [exact Htotal |].
    destruct (band_mantissa y Hband) as (m & Em & _).
    unfold ZeroFacts.proper. rewrite Em. exact I. }
  unfold calculate_affordable_funding. rewrite Hy. cbn [bind].
  rewrite (FloatFacts.truthy_div _ _ (in_band_truthy y Hband)). cbn [bind].
  rewrite (ZeroFacts.round_zero _ Hq). cbn [bind].
  eexists. split; [reflexivity |].
  cbn [Affordable.affordableFunding Affordable.availablePayment Affordable.totalPayback].
  split; [reflexivity |].
  rewrite !ZeroFacts.round_nd_zero by assumption.
  split; now apply ZeroFacts.eqb_zero.
Qed.

Lemma zero_tolerance_zero_funding_witness :
  exists r,
    calculate_affordable_funding 0 100000 example_scenario weekly = Ok r
    /\ Affordable.affordableFunding r = 0.
Proof.
  destruct (zero_tolerance_zero_funding 0 100000 example_scenario weekly 1.2)
    as (r & H1 & H2 & _).
  - reflexivity.
  - exact I.
  - vm_compute. tauto.
  - vm_compute. reflexivity.
  - reflexivity.
  - exists r. split; [exact H1 | exact H2].
Defined.

(** ** Which scenario stands for a term *)

Lemma find_before {A : Type} (R : A -> A -> Prop) (p : A -> bool) (l : list A)
    (x y : A) :
  StronglySorted R l -> find p l = Some x -> In y l -> p y = true ->
  x = y \/ R x y.
Proof.
  induction 1 as [| a l Hs IH Hall]; cbn [find]; [intros H; discriminate H |].
  destruct (p a) eqn:Pa.
  - intros H. injection H as <-. intros [-> | Hy] _; [now left |].
    right. rewrite Forall_forall in Hall. now apply Hall.
  - intros Hf [<- | Hy] Py; [congruence |]. now apply IH.
Qed.

(** X22. Among the ranked scenarios that have the same term, the one
    emitted has the highest intelligence score: removing the duplicates
    keeps, for each term, the first scenario of a list in descending order
    of score. *)
Theorem emitted_has_best_score (profiles : Directory) (deposit : LastDeposit.t)
    (payment : float) (frequency : Frequency) (revenue : float)
    (a : Analysis.t) (ranked : list Scenario.t) (s s' : Scenario.t) :
  analyze_last_position profiles deposit payment frequency revenue = Ok a ->
  ranked_scenarios profiles deposit payment frequency = Ok ranked ->
  In s (Analysis.scenarios a) ->
  In s' ranked ->
  Scenario.term s' = Scenario.term s ->
  score_of s' <= score_of s.
Proof.
  intros Ha Er Hs Hs' Hterm.
  rewrite (analyze_last_position_scenarios _ _ _ _ _ _ Er) in Ha.
  injection Ha as <-. cbn [Analysis.scenarios] in Hs.
  destruct (emitted_scenarios_spec ranked) as (_ & _ & _ & Hfirst).
  specialize (Hfirst s Hs).
  assert (Hsorted : StronglySorted (key_le rank_key) ranked).
  { revert Er. unfold ranked_scenarios.
    destruct (sorted_originals _) as [os |]; cbn [bind]; [| intros H; discriminate H].
    destruct (generate_scenarios _ _ _ _) as [ss |]; cbn [bind];
      [| intros H; discriminate H].
    unfold _prioritize_with_lender_knowledge.
    destruct (mapM _ ss) as [scored |]; cbn [bind]; [| intros H; discriminate H].
    intros H. injection H as <-. apply sort_by_sorted. }
  destruct (find_before _ _ _ s s' Hsorted Hfirst Hs') as [<- | Hle].
  - rewrite Hterm. apply Z.eqb_refl.
  - lia.
  - unfold key_le, rank_key in Hle. unfold score_of. lia.
Qed.

Lemma emitted_has_best_score_witness :
  exists a ranked s,
    analyze_last_position [] example_deposit 3000 weekly 150000 = Ok a
    /\ ranked_scenarios [] example_deposit 3000 weekly = Ok ranked
    /\ In s (Analysis.scenarios a)
    /\ forall s', In s' ranked -> Scenario.term s' = Scenario.term s ->
         score_of s' <= score_of s.
Proof.
  destruct (analyze_last_position [] example_deposit 3000 weekly 150000)
    as [a |] eqn:Ea; [| vm_compute in Ea; discriminate Ea].
  destruct (ranked_scenarios [] example_deposit 3000 weekly)
    as [ranked |] eqn:Er; [| vm_compute in Er; discriminate Er].
  destruct (Analysis.scenarios a) as [| s rest] eqn:Es.
  - exfalso. vm_compute in Ea. injection Ea as <-. discriminate Es.
  - exists a, ranked, s. split; [reflexivity |]. split; [reflexivity |].
    rewrite Es. split; [left; reflexivity |].
    intros s' Hs' Ht.
    apply (emitted_has_best_score [] example_deposit 3000 weekly 150000 a ranked s s'
             Ea Er); [rewrite Es; left; reflexivity | exact Hs' | exact Ht].
Defined.

(** ** Lender matcher: letter case *)

Definition is_upper (a : ascii) : bool := PyStr.in_range 65 90 a.

Lemma lower_char_not_upper (a : ascii) : is_upper (PyStr.lower_char a) = false.
Proof. destruct a as [[] [] [] [] [] [] [] []]; vm_compute; reflexivity. Qed.

Lemma lower_not_upper (s : string) :
  str_any is_upper (PyStr.lower s) = false.
Proof.
  unfold PyStr.lower. induction s as [| a s IH]; cbn [PyStr.map_chars str_any];
    [reflexivity |]. now rewrite lower_char_not_upper, IH.
Qed.

Lemma lstrip_any (p : ascii -> bool) (s : string) :
  str_any p s = false -> str_any p (PyStr.lstrip s) = false.
Proof.
  induction s as [| a s IH]; cbn [PyStr.lstrip str_any]; [reflexivity |].
  intros H. apply orb_false_iff in H. destruct H as [Ha Hs].
  destruct (PyStr.is_space a); [now apply IH |]. cbn [str_any]. now rewrite Ha, Hs.
Qed.

Lemma rstrip_any (p : ascii -> bool) (s : string) :
  str_any p s = false -> str_any p (PyStr.rstrip s) = false.
Proof.
  induction s as [| a s IH]; cbn [PyStr.rstrip str_any]; [reflexivity |].
  intros H. apply orb_false_iff in H. destruct H as [Ha Hs]. specialize (IH Hs).
  destruct (PyStr.rstrip s) as [| b r].
  - destruct (PyStr.is_space a); [reflexivity |]. cbn [str_any]. now rewrite Ha.
  - cbn [str_any] in *. now rewrite Ha, IH.
Qed.

Lemma prefix_any (p : ascii -> bool) (a s : string) :
  prefix a s = true -> str_any p s = false -> str_any p a = false.
Proof.
  revert s. induction a as [| x a IH]; intros s; [reflexivity |].
  destruct s as [| y s]; cbn [prefix str_any]; [intros H; discriminate H |].
  destruct (ascii_dec x y) as [-> | Hne]; [| intros H; discriminate H].
  intros Hp H. apply orb_false_iff in H. destruct H as [Hy Hs].
  now rewrite Hy, (IH s Hp Hs).
Qed.

Lemma contains_any (p : ascii -> bool) (a s : string) :
  PyStr.contains a s = true -> str_any p s = false -> str_any p a = false.
Proof.
  induction s as [| y s IH]; cbn [PyStr.contains].
  - destruct (prefix a "") eqn:E; [| intros H; discriminate H].
    intros _ H. now apply (prefix_any p a "" E).
  - destruct (prefix a (String y s)) eqn:E.
    + intros _ H. now apply (prefix_any p a _ E).
    + intros Hc H. cbn [str_any] in H. apply orb_false_iff in H. now apply IH.
Qed.

Lemma identify_lender_Some (profiles : Directory) (lender_name : string)
    (p : Profile.t) :
  identify_lender profiles lender_name = Some p ->
  existsb (alias_matches (PyStr.strip (PyStr.lower lender_name)))
    (Profile.aliases p) = true.
Proof.
  induction profiles as [| [k q] rest IH]; cbn [identify_lender];
    [intros H; discriminate H |].
  destruct (existsb _ (Profile.aliases q)) eqn:E; [| exact IH].
  intros H. injection H as <-. exact E.
Qed.

(** X23. The matcher ignores the letter case of the name but not of the
    aliases: lower-casing the name changes nothing; an alias written with an
    upper-case letter from A to Z is never found inside a name; so a profile
    whose aliases all have such a letter is returned only for a name that
    is, once lower-cased and trimmed, contained in one of them. *)
Theorem identify_lender_letter_case (profiles : Directory) (lender_name : string) :
  identify_lender profiles (PyStr.lower lender_name) =
    identify_lender profiles lender_name
  /\ (forall alias, str_any is_upper alias = true ->
        PyStr.contains alias (PyStr.strip (PyStr.lower lender_name)) = false)
  /\ (forall p, identify_lender profiles lender_name = Some p ->
        (forall alias, In alias (Profile.aliases p) -> str_any is_upper alias = true) ->
        exists alias, In alias (Profile.aliases p)
                      /\ PyStr.contains (PyStr.strip (PyStr.lower lender_name)) alias = true).
Proof.
  assert (Hnorm : str_any is_upper (PyStr.strip (PyStr.lower lender_name)) = false).
  { unfold PyStr.strip. apply rstrip_any, lstrip_any, lower_not_upper. }
  assert (Hup : forall alias, str_any is_upper alias = true ->
            PyStr.contains alias (PyStr.strip (PyStr.lower lender_name)) = false).
  { intros alias Ha.
    destruct (PyStr.contains alias _) eqn:E; [| reflexivity].
    rewrite (contains_any is_upper _ _ E Hnorm) in Ha. discriminate Ha. }
  split; [| split; [exact Hup |]].
  - induction profiles as [| [k q] rest IH]; cbn [identify_lender]; [reflexivity |].
    rewrite lower_idem, IH. reflexivity.
  - intros p Hp Hall. apply identify_lender_Some in Hp.
    apply existsb_exists in Hp. destruct Hp as (alias & Hin & Hm).
    exists alias. split; [exact Hin |]. unfold alias_matches in Hm.
    rewrite (Hup alias (Hall alias Hin)) in Hm. exact Hm.
Qed.

(** ** The likelihood of an emitted scenario *)

Lemma scenario_for_likelihood (d payment : float) (f : Frequency) (o : Original.t)
    (t : Z) (s : Scenario.t) :
  scenario_for d payment f o t = Ok (Some s) ->
  exists factor,
    raw_factor payment t (Original.original o) = Ok factor
    /\ Scenario.likelihood s = _determine_likelihood factor.
Proof.
  unfold scenario_for.
  destruct (raw_factor payment t (Original.original o)) as [factor |];
    cbn [bind]; [| intros H; discriminate H].
  destruct (factor_in_band factor); [| intros H; discriminate H].
  destruct (PyFloat.round (Original.original o)) as [n1 |]; cbn [bind];
    [| intros H; discriminate H].
  destruct (PyFloat.round (Original.fee o)) as [n2 |]; cbn [bind];
    [| intros H; discriminate H].
  destruct (PyFloat.round _) as [n3 |]; cbn [bind]; [| intros H; discriminate H].
  intros H. injection H as <-. exists factor. split; reflexivity.
Qed.

Lemma score_scenario_likelihood (p : Profile.t) (f : Frequency) (s s' : Scenario.t) :
  score_scenario p f s = Ok s' ->
  Scenario.likelihood s' = upgrade_likelihood (score_of s') (Scenario.likelihood s).
Proof.
  unfold score_scenario.
  destruct (PyStr.to_float (Scenario.factor s)) as [factor |]; cbn [bind];
    [| intros H; discriminate H].
  destruct (PyStr.to_float (Scenario.feePercent s)) as [fee |]; cbn [bind];
    [| intros H; discriminate H].
  intros H. injection H as <-. reflexivity.
Qed.

(** X24. The likelihood shown by an emitted scenario comes from its
    unformatted factor payment * term / amount, where the amount is the
    candidate whose rounding is originalFunding, and from its score.  It is
    most-likely exactly when that factor is within 0.01 of 1.49, a mark that
    no score can give or take away; it is unlikely only when the factor
    alone says so and the score is under 40; and with a score of 60 or more
    it is most-likely or realistic. *)
Theorem emitted_likelihood (profiles : Directory) (deposit : LastDeposit.t)
    (payment : float) (frequency : Frequency) (revenue : float)
    (a : Analysis.t) (s : Scenario.t) :
  analyze_last_position profiles deposit payment frequency revenue = Ok a ->
  In s (Analysis.scenarios a) ->
  exists amount,
    let factor :=
      PrimFloat.div (PrimFloat.mul payment (PyFloat.of_Z (Scenario.term s))) amount in
    In amount (get_possible_clean_amounts (LastDeposit.amount deposit))
    /\ PyFloat.round amount = Ok (Scenario.originalFunding s)
    /\ (Scenario.likelihood s = most_likely <->
        PrimFloat.ltb (PrimFloat.abs (PrimFloat.sub factor 1.49)) 0.01 = true)
    /\ (Scenario.likelihood s = unlikely ->
        _determine_likelihood factor = unlikely /\ score_of s < 40)
    /\ (60 <= score_of s ->
        Scenario.likelihood s = most_likely \/ Scenario.likelihood s = realistic).
Proof.
  unfold analyze_last_position.
  destruct (ranked_scenarios profiles deposit payment frequency) as [ranked |] eqn:Er;
    cbn [bind]; [| intros H; discriminate H].
  intros H Hs.
  assert (Ea : Analysis.scenarios a =
               firstn 10 (sort_by Scenario.term (unique_by_term [] ranked)))
    by (injection H as <-; reflexivity).
  rewrite Ea in Hs. apply emitted_in_ranked in Hs.
  destruct (ranked_scenarios_origin _ _ _ _ _ _ Er Hs)
    as (o & t & s0 & Ho & _ & Hgen & Hsc).
  destruct (scenario_for_likelihood _ _ _ _ _ _ Hgen) as (factor & Ef & El0).
  pose proof (score_scenario_likelihood _ _ _ _ Hsc) as El.
  apply scenario_for_some in Hgen.
  destruct Hgen as (factor' & _ & _ & Et & _ & _ & _ & Er1 & _).
  apply score_scenario_keeps in Hsc.
  destruct Hsc as [(E1 & _ & _ & _ & E5 & _) _].
  destruct (retained_facts _ _ Ho) as (_ & Hpos & _).
  unfold raw_factor in Ef.
  rewrite (FloatFacts.truthy_div _ _ (FloatFacts.pos_truthy _ Hpos)) in Ef.
  injection Ef as <-.
  unfold FeeSpec.retained in Ho. apply filter_In in Ho. destruct Ho as [Ho _].
  apply in_map_iff in Ho. destruct Ho as (amount & <- & Hamount).
  cbn [FeeSpec.candidate Original.original] in *.
  exists amount. cbn zeta. rewrite E1, E5, Et.
  split; [exact Hamount |]. split; [exact Er1 |].
  rewrite El, El0. unfold upgrade_likelihood, _determine_likelihood.
  set (x := PrimFloat.div (PrimFloat.mul payment (PyFloat.of_Z t)) amount).
  destruct (PrimFloat.ltb (PrimFloat.abs (PrimFloat.sub x 1.49)) 0.01);
    [split; [split; reflexivity |];
     split; [intros H0; discriminate H0 | intros _; now left] |].
  destruct (PrimFloat.leb 1.42 x && PrimFloat.leb x 1.55);
    [split; [split; intros H0; discriminate H0 |];
     split; [intros H0; discriminate H0 | intros _; now right] |].
  destruct (60 <=? score_of s) eqn:E60; destruct (40 <=? score_of s) eqn:E40;
    try apply Z.leb_le in E60; try apply Z.leb_gt in E60;
    try apply Z.leb_le in E40; try apply Z.leb_gt in E40;
    destruct (PrimFloat.leb 1.30 x && PrimFloat.leb x 1.41);
    destruct (PrimFloat.leb 1.56 x && PrimFloat.leb x 1.60);
    (split; [split; intros H0; discriminate H0 |]);
    (split; [intros H0; first [discriminate H0 | split; [reflexivity | lia]]
            | intros H0; first [lia | now right]]).
Qed.

Lemma emitted_likelihood_witness :
  exists a s amount,
    analyze_last_position [] example_deposit 3000 weekly 150000 = Ok a
    /\ In s (Analysis.scenarios a)
    /\ In amount (get_possible_clean_amounts (LastDeposit.amount example_deposit))
    /\ PyFloat.round amount = Ok (Scenario.originalFunding s).
Proof.
  destruct (analyze_last_position [] example_deposit 3000 weekly 150000)
    as [a |] eqn:Ea; [| vm_compute in Ea; discriminate Ea].
  destruct (Analysis.scenarios a) as [| s rest] eqn:Es.
  - exfalso. vm_compute in Ea. injection Ea as <-. discriminate Es.
  - destruct (emitted_likelihood [] example_deposit 3000 weekly 150000 a s Ea)
      as (amount & H1 & H2 & _); [rewrite Es; left; reflexivity |].
    exists a, s, amount. rewrite Es.
    split; [reflexivity |]. split; [left; reflexivity |]. split; [exact H1 | exact H2].
Defined.

(** * The HTTP endpoint: [main.py] *)

(** What the handler of [/api/analyze] can have raised inside its [try]: an
    exception of the analyzer, or the [HTTPException] that the handler
    itself raises for the error record.  [HTTPException] derives from
    [Exception]. *)
Inductive raised : Type :=
| PyError (e : pyerr)
| HTTPException (status_code : Z) (detail : string).

Module FCSRequest.
Record t : Type := mk {
  fcs_text : string;
  additional_withhold : float
}.
End FCSRequest.

Section Endpoint.

(** [str(e)], whose text depends on the exception class, and the profiles
    loaded by the module-level [analyzer]. *)
Variable str_of : raised -> string.
Variable profiles : Directory.

(** The body of the [try] block: it returns the result, or raises. *)
Definition analyze_fcs_try (request : FCSRequest.t) : raised + Report.t :=
  match analyze profiles (FCSRequest.fcs_text request)
          (FCSRequest.additional_withhold request) with
  | Raise e => inl (PyError e)
  | Ok (ErrorRecord error) => inl (HTTPException 400 error)
  | Ok (Aggregate result) => inr result
  end.

(** The handler: [except Exception as e] catches whatever the body raised
    and raises [HTTPException(status_code=500, detail=str(e))]. *)
Definition analyze_fcs (request : FCSRequest.t) : raised + Report.t :=
  match analyze_fcs_try request with
  | inl e => inl (HTTPException 500 (str_of e))
  | inr result => inr result
  end.

(** X17. The endpoint answers with the aggregate exactly when the analyzer
    returns one; in every other case it raises an HTTPException whose
    status is 500.  The status 400 that the handler raises for the error
    record never reaches the client: it is raised inside the [try] and
    caught by the handler's own [except Exception], which turns it into a
    500 whose detail is the text of the 400 exception. *)
Theorem analyze_fcs_status (request : FCSRequest.t) :
  let outcome := analyze profiles (FCSRequest.fcs_text request)
                   (FCSRequest.additional_withhold request) in
  (forall result, analyze_fcs request = inr result <-> outcome = Ok (Aggregate result))
  /\ (forall e, analyze_fcs request = inl e ->
        exists detail, e = HTTPException 500 detail)
  /\ (forall error, outcome = Ok (ErrorRecord error) ->
        analyze_fcs request =
        inl (HTTPException 500 (str_of (HTTPException 400 error))))
  /\ (forall e, outcome = Raise e ->
        analyze_fcs request = inl (HTTPException 500 (str_of (PyError e)))).
Proof.
  intros outcome. unfold analyze_fcs, analyze_fcs_try. fold outcome.
  destruct outcome as [[error | result] | e].
  - split; [intros r; split; intros H; discriminate H |].
    split; [intros e H; injection H as <-; eauto |].
    split; [intros error' H; injection H as <-; reflexivity |].
    intros e H. discriminate H.
  - split; [intros r; split; intros H; injection H as <-; reflexivity |].
    split; [intros e H; discriminate H |].
    split; [intros error' H; discriminate H | intros e H; discriminate H].
  - split; [intros r; split; intros H; discriminate H |].
    split; [intros e' H; injection H as <-; eauto |].
    split; [intros error' H; discriminate H |].
    intros e' H. injection H as <-. reflexivity.
Qed.

End Endpoint.
